(** * notmanytask: the crashme gateway and the scorer

    A shallow embedding of [cmd/crashme/main.go] and
    [internal/scorer/scorer.go].  Everything the programs obtain from the
    operating system, the network or another package is an explicit input
    (a field of a [World], a section variable, or an argument); the code of
    the two files is transcribed function by function, and with it the
    back-off policy of the package [backoff] that [fetchFlag] sets up. *)

From stdpp Require Import gmap strings list.
From Stdlib Require Import Ascii String ZArith Floats Uint63.

Local Open Scope string_scope.
Local Open Scope list_scope.

(** ** Go values shared by both programs *)

Module Go.

(** The byte ['\n']. *)
Definition newline : ascii := "010"%char.
Definition nl : string := String newline "".

(** Go [error] values.  [wrapError] is what [fmt.Errorf] builds for a
    format with [%w]: it carries the formatted text and the wrapped
    error.  [ExitError] is [*exec.ExitError]: the [syscall.WaitStatus]
    word of the child and the text [ProcessState.String()] gives for it. *)
Inductive error : Type :=
| EOF
| errorString (msg : string)
| wrapError (msg : string) (inner : error)
| ExitError (status : Z) (text : string).

Definition Error (e : error) : string :=
  match e with
  | EOF => "EOF"
  | errorString msg => msg
  | wrapError msg _ => msg
  | ExitError _ text => text
  end.

(** [fmt.Errorf(prefix + "%w", err)]. *)
Definition Errorf_w (prefix : string) (err : error) : error :=
  wrapError (prefix +:+ Error err) err.

(** [err == io.EOF]: identity with the sentinel, wrappers are not equal. *)
Definition is_EOF (e : error) : bool :=
  match e with EOF => true | _ => false end.

(** [errors.As(err, &exitError)] for [*exec.ExitError]: the first
    exit error on the [Unwrap] chain. *)
Fixpoint As_ExitError (e : error) : option (Z * string) :=
  match e with
  | ExitError status text => Some (status, text)
  | wrapError _ inner => As_ExitError inner
  | _ => None
  end.

(** *** [syscall.WaitStatus] (Linux encoding) *)

Definition mask : Z := 0x7F.
Definition stopped : Z := 0x7F.
Definition exited : Z := 0x00.
Definition shift : Z := 8.

Definition Exited (w : Z) : bool := (Z.land w mask =? exited)%Z.

Definition Signaled (w : Z) : bool :=
  negb (Z.land w mask =? stopped)%Z && negb (Z.land w mask =? exited)%Z.

Definition Signal (w : Z) : Z :=
  if Signaled w then Z.land w mask else (-1)%Z.

Definition ExitStatus (w : Z) : Z :=
  if Exited w then Z.land (Z.shiftr w shift) 0xFF else (-1)%Z.

(** [os.Interrupt], that is [syscall.SIGINT]. *)
Definition Interrupt : Z := 2.

(** *** package [strings] *)

Definition HasPrefix (s pre : string) : bool := String.prefix pre s.

(** [strings.ReplaceAll s old new] for a non-empty [old]: the
    occurrences are taken left to right without overlap.  [skip] counts
    the bytes of an occurrence still to be dropped. *)
Fixpoint ReplaceAll_from (skip : nat) (s old new : string) : string :=
  match s with
  | "" => ""
  | String c s' =>
      match skip with
      | S k => ReplaceAll_from k s' old new
      | O =>
          if HasPrefix s old
          then new +:+ ReplaceAll_from (String.length old - 1) s' old new
          else String c (ReplaceAll_from 0 s' old new)
      end
  end.

Definition ReplaceAll (s old new : string) : string :=
  ReplaceAll_from 0 s old new.

(** [strings.Contains]. *)
Fixpoint Contains (s sub : string) : bool :=
  HasPrefix s sub ||
  match s with
  | "" => false
  | String _ s' => Contains s' sub
  end.

(** [strings.Split(s, "/")]. *)
Fixpoint Split_slash (s : string) : list string :=
  match s with
  | "" => [""]
  | String c s' =>
      if Ascii.eqb c "/" then "" :: Split_slash s'
      else match Split_slash s' with
           | x :: xs => String c x :: xs
           | [] => [String c ""]
           end
  end.

(** [strings.Join(elems, "/")]. *)
Fixpoint Join_slash (elems : list string) : string :=
  match elems with
  | [] => ""
  | [x] => x
  | x :: rest => x +:+ "/" +:+ Join_slash rest
  end.

(** *** package [path] *)

(** One path element against the elements kept so far (innermost
    first), as [path.Clean] treats it: empty and [.] elements vanish, a
    [..] removes the preceding real element, is dropped at the root of
    a rooted path, and is kept at the front of a relative one. *)
Definition clean_step (rooted : bool) (kept : list string) (c : string)
  : list string :=
  if String.eqb c "" || String.eqb c "." then kept
  else if String.eqb c ".." then
    match kept with
    | top :: rest =>
        if String.eqb top ".." then (if rooted then kept else ".." :: kept)
        else rest
    | [] => if rooted then [] else [".."]
    end
  else c :: kept.

Definition is_rooted (p : string) : bool := HasPrefix p "/".

Definition clean_elems (p : string) : list string :=
  fold_left (clean_step (is_rooted p)) (Split_slash p) [].

(** [path.Clean]. *)
Definition Clean (p : string) : string :=
  if String.eqb p "" then "."
  else
    let body := Join_slash (rev (clean_elems p)) in
    if is_rooted p then "/" +:+ body
    else if String.eqb body "" then "." else body.

(** [path.Join]: empty leading elements are skipped, the rest are
    joined with slashes and the result is cleaned. *)
Definition Join_buf (buf e : string) : string :=
  if negb (String.eqb buf "") || negb (String.eqb e "")
  then (if negb (String.eqb buf "") then buf +:+ "/" else buf) +:+ e
  else buf.

Definition Join (elem : list string) : string :=
  if (fold_left (fun n e => n + String.length e) elem 0 =? 0)%nat then ""
  else Clean (fold_left Join_buf elem "").

(** The elements [Clean] keeps are real names. *)
Definition real_element (e : string) : Prop :=
  e <> "" /\ e <> "." /\ Contains e "/" = false.

(** A name that is one real element other than [..]. *)
Definition plain_name (name : string) : Prop :=
  real_element name /\ name <> "..".

(** [strings.CutPrefix]. *)
Fixpoint CutPrefix (s pre : string) : option string :=
  match pre, s with
  | "", _ => Some s
  | String a pre', String b s' =>
      if Ascii.eqb a b then CutPrefix s' pre' else None
  | String _ _, "" => None
  end.

(** What every path below the directory [dir] starts with, once both
    are cleaned. *)
Definition dir_prefix (dir : string) : string :=
  let d := Clean dir in
  if String.eqb d "/" then "/"
  else if String.eqb d "." then ""
  else d +:+ "/".

(** The cleaned path [p] names something below the directory [dir]:
    it continues the directory with an element that does not lead
    back out. *)
Definition inside (dir p : string) : bool :=
  match CutPrefix p (dir_prefix dir) with
  | Some rest =>
      negb (String.eqb rest "") && negb (String.eqb rest "..")
      && negb (HasPrefix rest "../") && negb (HasPrefix rest "/")
  | None => false
  end.

End Go.

(** ** github.com/cenkalti/backoff/v4: the policy [fetchFlag] uses *)

Module Backoff.

(** [time.Duration]: an [int64] of nanoseconds. *)
Definition int64 (z : Z) : Z := ((z + 2 ^ 63) mod 2 ^ 64 - 2 ^ 63)%Z.

Definition Millisecond : Z := 1000000.
Definition Second : Z := 1000 * Millisecond.
Definition Minute : Z := 60 * Second.

(** [float64(d)] for a duration [d], and [time.Duration(f)] for a
    finite [f] (truncation towards zero; Go leaves the conversion of
    the other floats to the implementation, here 0). *)
Definition float64 (d : Z) : float :=
  if (d <? 0)%Z then PrimFloat.opp (PrimFloat.of_uint63 (Uint63.of_Z (- d)))
  else PrimFloat.of_uint63 (Uint63.of_Z d).

Definition Duration (f : float) : Z :=
  match Prim2SF f with
  | S754_finite s m e =>
      let mag := (if (0 <=? e)%Z then Z.pos m * 2 ^ e
                  else Z.pos m / 2 ^ (- e))%Z in
      if s then (- mag)%Z else mag
  | _ => 0%Z
  end.

(** [backoff.Stop]. *)
Definition Stop : Z := (-1)%Z.

(** [ExponentialBackOff]; the clock and the start time are outside:
    [NextBackOff] below is given the elapsed time it reads. *)
Record ExponentialBackOff : Type := {
  InitialInterval : Z;
  RandomizationFactor : float;
  Multiplier : float;
  MaxInterval : Z;
  MaxElapsedTime : Z;
  b_Stop : Z;
  currentInterval : Z
}.

Definition Reset (b : ExponentialBackOff) : ExponentialBackOff :=
  {| InitialInterval := InitialInterval b;
     RandomizationFactor := RandomizationFactor b;
     Multiplier := Multiplier b;
     MaxInterval := MaxInterval b;
     MaxElapsedTime := MaxElapsedTime b;
     b_Stop := b_Stop b;
     currentInterval := InitialInterval b |}.

(** [NewExponentialBackOff()], with the default values of the
    package. *)
Definition NewExponentialBackOff : ExponentialBackOff :=
  Reset {| InitialInterval := 500 * Millisecond;
           RandomizationFactor := 0.5;
           Multiplier := 1.5;
           MaxInterval := 60 * Second;
           MaxElapsedTime := 15 * Minute;
           b_Stop := Stop;
           currentInterval := 0 |}.

(** [b.MaxElapsedTime = d]. *)
Definition set_MaxElapsedTime (d : Z) (b : ExponentialBackOff)
  : ExponentialBackOff :=
  {| InitialInterval := InitialInterval b;
     RandomizationFactor := RandomizationFactor b;
     Multiplier := Multiplier b;
     MaxInterval := MaxInterval b;
     MaxElapsedTime := d;
     b_Stop := b_Stop b;
     currentInterval := currentInterval b |}.

(** A value of the interval [currentInterval * (1 +- factor)], chosen
    by [random], a value of [rand.Float64()]. *)
Definition getRandomValueFromInterval (randomizationFactor random : float)
           (currentInterval : Z) : Z :=
  if PrimFloat.eqb randomizationFactor 0 then currentInterval
  else
    let delta := (randomizationFactor * float64 currentInterval)%float in
    let minInterval := (float64 currentInterval - delta)%float in
    let maxInterval := (float64 currentInterval + delta)%float in
    Duration (minInterval + random * (maxInterval - minInterval + 1))%float.

Definition incrementCurrentInterval (b : ExponentialBackOff)
  : ExponentialBackOff :=
  {| InitialInterval := InitialInterval b;
     RandomizationFactor := RandomizationFactor b;
     Multiplier := Multiplier b;
     MaxInterval := MaxInterval b;
     MaxElapsedTime := MaxElapsedTime b;
     b_Stop := b_Stop b;
     currentInterval :=
       if PrimFloat.leb (float64 (MaxInterval b) / Multiplier b)
                        (float64 (currentInterval b))
       then MaxInterval b
       else Duration (float64 (currentInterval b) * Multiplier b)%float |}.

(** [NextBackOff] (as of v4.1 of the package), reading [elapsed] from
    the clock and [random] from the random source: the randomized
    interval, or [Stop] when the interval would end after
    [MaxElapsedTime]; the policy afterwards. *)
Definition NextBackOff (b : ExponentialBackOff) (elapsed : Z) (random : float)
  : Z * ExponentialBackOff :=
  let next := getRandomValueFromInterval (RandomizationFactor b) random
                                         (currentInterval b) in
  let b' := incrementCurrentInterval b in
  if negb (MaxElapsedTime b =? 0)%Z
     && (MaxElapsedTime b <? int64 (elapsed + next))%Z
  then (b_Stop b, b')
  else (next, b').


End Backoff.

(** ** cmd/crashme/main.go *)

Module Crashme.
Import Go.

Definition MAX_INPUT_SIZE : Z := 10 * 1024 * 1024.
Definition MAX_FIRST_LINE_SIZE : Z := 100.

(** [time.Second] in nanoseconds, and the budget [fetchFlag] sets as
    [backoffPolicy.MaxElapsedTime] (line 93). *)
Definition Second : Z := 1000000000.
Definition MaxElapsedTime : Z := Second * 15.

(** *** What the program does to the outside *)

Inductive LogMsg : Type :=
| LogStatFailed (path : string) (err : error)
| LogSendFailed (err : error)
| LogReadBodyFailed (err : error)
| LogParseFailed (err : error)
| LogFlagRequestFailed (msg : string)
| LogFetchAttempt (err : option error)
| LogNewConnection (connID : Z)
| LogClosedConnection (connID : Z)
| LogHandleFailed (err : error)
| LogCommandFailed (task : string) (code : Z) (text : string)
| LogInterrupted
| LogFetchFlagFailed (err : error)
| LogRunFailed (path : string) (stderr : string)
| LogSentSigint
| LogDoneStdin
| LogDoneStdout
| LogDoneStderr.

Inductive Event : Type :=
| SemaTryAcquire (ok : bool)
| SemaAcquire (err : option error)
| SemaRelease
| ConnWrite (s : string)
| ConnClose
| Stat (path : string)
| CreateFile (path : string)
| CmdStart (path : string)
| CmdWait
| CopyStdin
| CopyStdout (s : string)
| CopyStderr (s : string)
| CloseStdoutPipe
| CloseStderrPipe
| SignalInterrupt (err : option error)
| HttpPost (task : string)
| BackoffWait (d : Z)
| Log (msg : LogMsg).

(** *** What the outside does to the program *)

(** The result of [os.Stat]. *)
Inductive StatResult : Type :=
| StatNotExist
| StatFailed (err : error)
| StatMode (regular dir : bool).

(** One attempt of [doFetchFlag] as the network decides it. *)
Inductive HttpOutcome : Type :=
| MarshalFailed (err : error)
| PostFailed (err : error)
| ReadBodyFailed (err : error)
| UnmarshalFailed (err : error)
| Response (rOk : bool) (rFlag : string) (rError : string).

(** The receive side of a connection: the bytes the client still sends
    and the error [Read] gives once they are consumed ([EOF] when the
    client closed its send side). *)
Record ConnIn : Type := { pending : string; closing : error }.

(** What a call of [NextBackOff] reads: the time elapsed since the
    policy was reset, and the value of [rand.Float64()]. *)
Record Tick : Type := { elapsed : Z; random : float }.

(** Everything one connection meets.  The semaphore answers are those
    this connection observes; [System] below constrains them by the
    shared counter.  [flag_first] is the answer to the first request of
    the Flag Client; [flag_retries] lists, for each failed attempt
    after which the clock is read once more, what [NextBackOff] reads
    and the answer to the retry, made when the policy grants it.  The
    call of [NextBackOff] after the last attempt listed finds the
    budget spent. *)
Record World : Type := {
  sema_try : bool;
  sema_acquire : option error;
  conn_in : ConnIn;
  fs_stat : string -> StatResult;
  now : string;
  create_err : option error;
  stdoutPipe_err : option error;
  stderrPipe_err : option error;
  stdinPipe_err : option error;
  start_err : option error;
  stdin_eof_before_exit : bool;
  signal_err : option error;
  child_stdout : string;
  child_stderr : string;
  wait_err : option error;
  stderr_text : string;
  crash_notice_err : option error;
  flag_first : HttpOutcome;
  flag_retries : list (Tick * HttpOutcome)
}.

(** *** Readers *)

(** [Read(buf)] with [len(buf) = 1]: the count, the content of
    [buf[0]] after the call, the error, and the reader afterwards. *)
Class Reader (R : Type) : Type :=
  Read1 : R -> ascii -> (Z * ascii * option error) * R.

#[global] Instance ConnIn_Reader : Reader ConnIn := fun c buf0 =>
  match pending c with
  | String b rest => ((1%Z, b, None), {| pending := rest; closing := closing c |})
  | "" => ((0%Z, buf0, Some (closing c)), c)
  end.

(** [io.LimitedReader]. *)
Record LimitedReader (R : Type) : Type := LimitReader { LR : R; LN : Z }.
Arguments LimitReader {R} _ _.
Arguments LR {R} _.
Arguments LN {R} _.

#[global] Instance LimitedReader_Reader {R} `{Reader R} : Reader (LimitedReader R) :=
  fun l buf0 =>
    if (LN l <=? 0)%Z then ((0%Z, buf0, Some EOF), l)
    else
      let '((n, b, err), r') := Read1 (LR l) buf0 in
      ((n, b, err), LimitReader r' (LN l - n)).

Section FirstLine.
(** [strings.TrimSpace] is left to the runtime. *)
Variable TrimSpace : string -> string.
Context {R : Type} `{Reader R}.

(** The loop of [slowReadFirstLine]; [None] when [fuel] iterations
    did not reach the end of the loop. *)
Fixpoint slowReadFirstLine_loop (fuel : nat) (reader : R) (str : string)
         (buf0 : ascii) : option ((string * option error) * R) :=
  if Ascii.eqb buf0 newline then Some ((TrimSpace str, None), reader)
  else
    match fuel with
    | O => None
    | S fuel' =>
        let '((n, b, err), reader') := Read1 reader buf0 in
        if from_option is_EOF false err
           || (bool_decide (err = None) && negb (n =? 1)%Z)
        then
          if (Z.of_nat (String.length str) =? MAX_FIRST_LINE_SIZE)%Z
          then Some (("", Some (errorString "too long first line")), reader')
          else Some (("", Some (errorString "EOF before new line")), reader')
        else
          match err with
          | Some e => Some (("", Some e), reader')
          | None =>
              slowReadFirstLine_loop fuel' reader' (str +:+ String b "") b
          end
    end.

Definition slowReadFirstLine (fuel : nat) (reader : R)
  : option ((string * option error) * R) :=
  slowReadFirstLine_loop fuel reader "" " "%char.
End FirstLine.

(** *** Procedures: a trace of events, and an early [return] *)

(** A procedure with result type [R] either goes on with a value of
    type [A] or has returned; both after the events listed. *)
Definition Proc (R A : Type) : Type := list Event * (A + R).

#[global] Instance Proc_ret {R} : MRet (Proc R) := fun A a => ([], inl a).

#[global] Instance Proc_bind {R} : MBind (Proc R) := fun A B k m =>
  match m with
  | (t, inl a) => let '(t', r) := k a in (t ++ t', r)
  | (t, inr r) => (t, inr r)
  end.

Definition emit {R} (ev : Event) : Proc R unit := ([ev], inl tt).

Definition return_ {R A} (r : R) : Proc R A := ([], inr r).

(** Calling a function whose own trace and result are known. *)
Definition call {R A} (f : list Event * A) : Proc R A := (f.1, inl f.2).

(** [defer ev]: the events run when the rest of the body is left. *)
Definition defer_ {R A} (ev : list Event) (rest : Proc R A) : Proc R A :=
  (rest.1 ++ ev, rest.2).

(** The trace and the result of a whole function body. *)
Definition body {R} (m : Proc R R) : list Event * R :=
  (m.1, match m.2 with inl r => r | inr r => r end).

(** *** Files *)

Definition isRegularFile (w : World) (path : string) : list Event * bool :=
  match fs_stat w path with
  | StatNotExist => ([Stat path], false)
  | StatFailed err => ([Stat path; Log (LogStatFailed path err)], false)
  | StatMode regular _ => ([Stat path], regular)
  end.

Definition isDirectory (w : World) (path : string) : list Event * bool :=
  match fs_stat w path with
  | StatNotExist => ([Stat path], false)
  | StatFailed err => ([Stat path; Log (LogStatFailed path err)], false)
  | StatMode _ dir => ([Stat path], dir)
  end.

(** *** The flag client *)

Definition doFetchFlag (task : string) (o : HttpOutcome)
  : list Event * (string * option error) :=
  match o with
  | MarshalFailed err => ([], ("", Some err))
  | PostFailed err =>
      ([HttpPost task; Log (LogSendFailed err)], ("", Some err))
  | ReadBodyFailed err =>
      ([HttpPost task; Log (LogReadBodyFailed err)], ("", Some err))
  | UnmarshalFailed err =>
      ([HttpPost task; Log (LogParseFailed err)], ("", Some err))
  | Response rOk rFlag rError =>
      if rOk then ([HttpPost task], (rFlag, None))
      else ([HttpPost task; Log (LogFlagRequestFailed rError)],
            ("", Some (errorString ("server error: " +:+ rError))))
  end.

(** The loop of [backoff.Retry] around the closure of [fetchFlag]
    (lines 94-99): the closure logs after every attempt; an attempt
    that fails is followed by [NextBackOff], which ends the loop with
    the error of that attempt when it says [Stop], and otherwise gives
    the time to wait before the next attempt.  After the last attempt
    the [World] lists, [NextBackOff] finds the budget spent.  (No error
    of [doFetchFlag] is a [PermanentError], and the policy carries no
    context.) *)
Fixpoint Retry_loop (task : string) (b : Backoff.ExponentialBackOff)
         (attempt : HttpOutcome) (rounds : list (Tick * HttpOutcome))
  : list Event * (string * option error) :=
  let '(t, (flag, err)) := doFetchFlag task attempt in
  let t := t ++ [Log (LogFetchAttempt err)] in
  match err, rounds with
  | None, _ => (t, (flag, None))
  | Some e, [] => (t, (flag, Some e))
  | Some e, (tick, retry) :: rounds' =>
      let '(next, b') := Backoff.NextBackOff b (elapsed tick) (random tick) in
      if (next =? Backoff.Stop)%Z then (t, (flag, Some e))
      else
        let '(t', r) := Retry_loop task b' retry rounds' in
        (t ++ BackoffWait next :: t', r)
  end.

(** [backoff.Retry(operation, b)]: the policy is reset first. *)
Definition Retry (task : string) (b : Backoff.ExponentialBackOff)
           (attempt : HttpOutcome) (rounds : list (Tick * HttpOutcome))
  : list Event * (string * option error) :=
  Retry_loop task (Backoff.Reset b) attempt rounds.

(** Lines 92-93. *)
Definition backoffPolicy : Backoff.ExponentialBackOff :=
  Backoff.set_MaxElapsedTime MaxElapsedTime Backoff.NewExponentialBackOff.

Definition fetchFlag (w : World) (task : string)
  : list Event * (string * option error) :=
  Retry task backoffPolicy (flag_first w) (flag_retries w).

(** *** The process proxy *)

Definition newCommandProxy (w : World) : list Event * option error :=
  match stdoutPipe_err w with
  | Some e => ([], Some (Errorf_w "failed to create command stdout: " e))
  | None =>
      match stderrPipe_err w with
      | Some e => ([], Some (Errorf_w "failed to create command stderr: " e))
      | None =>
          match stdinPipe_err w with
          | Some e => ([], Some (Errorf_w "failed to create command stdin: " e))
          | None => ([], None)
          end
      end
  end.

(** [handleStdin], from the moment [io.Copy] comes back. *)
Definition handleStdin (w : World) : list Event :=
  [CopyStdin; CloseStdoutPipe; CloseStderrPipe; SignalInterrupt (signal_err w)]
  ++ (if bool_decide (signal_err w = None) then [Log LogSentSigint] else [])
  ++ [Log LogDoneStdin].

Definition handleStdout (w : World) : list Event :=
  [CopyStdout (child_stdout w); Log LogDoneStdout].

Definition handleStderr (w : World) : list Event :=
  [CopyStderr (child_stderr w); Log LogDoneStderr].

(** [commandProxy.run].  The three copy tasks run beside [cmd.Wait];
    the trace lists the input task first when the input ends while the
    child still runs, and leaves it out when the child exits first (the
    task is not joined and outlives [run]). *)
Definition run (w : World) (executablePath : string)
  : list Event * option error :=
  match start_err w with
  | Some e => ([CmdStart executablePath],
               Some (Errorf_w "failed to start command: " e))
  | None =>
      ([CmdStart executablePath]
         ++ (if stdin_eof_before_exit w then handleStdin w else [])
         ++ handleStdout w ++ handleStderr w ++ [CmdWait],
       wait_err w)
  end.

(** *** The session handler *)

Record checker : Type := {
  binariesDirectory : string;
  submitsDirectory : string
}.

(** How a call of [doHandleConnection] ends: it returns an error (or
    nil), or the first-line loop is still running when its fuel ends. *)
Inductive Outcome : Type :=
| Returns (err : option error)
| Loops.

Definition first_line_fuel : nat := S (Z.to_nat MAX_FIRST_LINE_SIZE).

(** Line 232: the executable a task identifier names. *)
Definition executablePath_of (binDir task : string) : string :=
  Join [binDir; "ctf_" +:+ ReplaceAll task "-" "_"].

Section Handler.
Variable TrimSpace : string -> string.
Variable c : checker.

(** Lines 254-284: what the handler makes of the result of [run]. *)
Definition classify (w : World) (task executablePath : string)
           (err : option error) : Proc Outcome unit :=
  match err with
  | Some err =>
      match As_ExitError err with
      | Some (status, text) =>
          emit (Log (LogCommandFailed task (ExitStatus status) text));;
          if (Signal status =? Interrupt)%Z then
            emit (Log LogInterrupted);;
            return_ (Returns (Some (errorString "got EOF before command exit")))
          else
            emit (ConnWrite ("Command failed: " +:+ text +:+ nl
                               +:+ "Trying to fetch flag..." +:+ nl));;
            match crash_notice_err w with
            | Some e =>
                return_ (Returns (Some (Errorf_w "failed to write to the connection: " e)))
            | None =>
                r ← call (fetchFlag w task);
                match r.2 with
                | Some e =>
                    emit (Log (LogFetchFlagFailed e));;
                    return_ (Returns (Some (errorString
                      "failed to fetch flag, try again a few minutes later")))
                | None =>
                    emit (ConnWrite (r.1 +:+ nl));;
                    return_ (Returns None)
                end
            end
      | None =>
          emit (Log (LogRunFailed executablePath (stderr_text w)));;
          return_ (Returns (Some (wrapError
            ("failed to start command: " +:+ Error err +:+ ", stderr: "
               +:+ stderr_text w) err)))
      end
  | None =>
      emit (ConnWrite ("Command finished normally" +:+ nl));;
      return_ (Returns None)
  end.

(** Lines 223-251: from the prompt to the start notice; the task and
    the path of its executable go on to [proxy.run]. *)
Definition prepare (w : World) : Proc Outcome (string * string) :=
  emit (ConnWrite "Enter task name: ");;
  let reader := LimitReader (conn_in w) MAX_INPUT_SIZE in
  match slowReadFirstLine TrimSpace first_line_fuel
          (LimitReader reader MAX_FIRST_LINE_SIZE) with
  | None => return_ Loops
  | Some ((_, Some err), _) =>
      return_ (Returns (Some (Errorf_w "failed to read first line: " err)))
  | Some ((task, None), _) =>
      let task := ReplaceAll task "_" "-" in
      let executablePath := executablePath_of (binariesDirectory c) task in
      regular ← call (isRegularFile w executablePath);
      if negb regular then
        return_ (Returns (Some (errorString
          ("unknown task " +:+ task +:+ " (@ " +:+ executablePath +:+ ")"))))
      else
        let inputPath := Join [submitsDirectory c; task +:+ "_" +:+ now w] in
        emit (CreateFile inputPath);;
        match create_err w with
        | Some e =>
            return_ (Returns (Some (Errorf_w "failed to create input file: " e)))
        | None =>
            perr ← call (newCommandProxy w);
            match perr with
            | Some e =>
                return_ (Returns (Some (Errorf_w "failed to prepare command: " e)))
            | None =>
                emit (ConnWrite ("Running task " +:+ task +:+ nl));;
                mret (task, executablePath)
            end
        end
  end.

(** Lines 223-284: the body after the admission. *)
Definition serve (w : World) : Proc Outcome unit :=
  started ← prepare w;
  err ← call (run w started.2);
  classify w started.1 started.2 err.

Definition doHandleConnection (w : World) : list Event * Outcome :=
  body (
    ok ← call ([SemaTryAcquire (sema_try w)], sema_try w);
    (if negb ok then
       emit (ConnWrite ("Waiting for an available runner..." +:+ nl));;
       err ← call ([SemaAcquire (sema_acquire w)], sema_acquire w);
       match err with
       | Some e =>
           return_ (Returns (Some (Errorf_w "failed to acquire semaphore: " e)))
       | None => mret tt
       end
     else mret tt);;
    defer_ [SemaRelease] (serve w;; return_ (Returns None))).

Definition handleConnection (w : World) (connID : Z) : list Event :=
  let '(t, r) := doHandleConnection w in
  [Log (LogNewConnection connID)] ++ t ++
  match r with
  | Returns (Some err) =>
      [Log (LogHandleFailed err);
       ConnWrite ("Error: " +:+ Error err +:+ nl);
       ConnClose; Log (LogClosedConnection connID)]
  | Returns None => [ConnClose; Log (LogClosedConnection connID)]
  | Loops => []
  end.
End Handler.

(** *** The connection acceptor (the loop of [main]) *)

Definition acceptErrorsBudget : Z := 10.

(** Go's [int] on the 64-bit targets. *)
Definition wrap_int (z : Z) : Z := ((z + 2 ^ 63) mod 2 ^ 64 - 2 ^ 63)%Z.

(** [listener.Accept()]: a connection (what it will meet), or an error
    with a nil connection. *)
Inductive AcceptResult : Type :=
| Accepted (conn : World)
| AcceptFailed (err : error).

Inductive MainEvent : Type :=
| LogAcceptFailed (err : error)
| PanicMain (err : error)
| GoHandleConnection (conn : option World) (connId : Z).

Record LoopState : Type := {
  currentAcceptErrorsBudget : Z;
  connId : Z
}.

(** One iteration of the [for] loop; no next state after the panic. *)
Definition accept_iteration (st : LoopState) (a : AcceptResult)
  : list MainEvent * option LoopState :=
  match a with
  | AcceptFailed err =>
      if (currentAcceptErrorsBudget st =? 0)%Z
      then ([LogAcceptFailed err; PanicMain err], None)
      else ([LogAcceptFailed err; GoHandleConnection None (connId st)],
            Some {| currentAcceptErrorsBudget :=
                      wrap_int (currentAcceptErrorsBudget st - 1);
                    connId := wrap_int (connId st + 1) |})
  | Accepted conn =>
      ([GoHandleConnection (Some conn) (connId st)],
       Some {| currentAcceptErrorsBudget :=
                 if (currentAcceptErrorsBudget st <? acceptErrorsBudget)%Z
                 then wrap_int (currentAcceptErrorsBudget st + 1)
                 else currentAcceptErrorsBudget st;
               connId := wrap_int (connId st + 1) |})
  end.

(** The loop over the results [Accept] gives, one per iteration:
    the steps of [main] itself.  The handlers it starts run beside
    it; [go_handleConnection] below says what each of them does. *)
Fixpoint accept_loop (st : LoopState) (accepts : list AcceptResult)
  : list MainEvent * option LoopState :=
  match accepts with
  | [] => ([], Some st)
  | a :: accepts' =>
      match accept_iteration st a with
      | (t, Some st') =>
          let '(t', r) := accept_loop st' accepts' in (t ++ t', r)
      | (t, None) => (t, None)
      end
  end.

Definition main_loop (accepts : list AcceptResult)
  : list MainEvent * option LoopState :=
  accept_loop {| currentAcceptErrorsBudget := acceptErrorsBudget;
                 connId := 0 |} accepts.

(** *** The admission semaphore shared by the handlers *)

(** [semaphore.Weighted] as the handlers use it, with weight 1: the
    capacity and the number of slots held. *)
Record Weighted : Type := { size : Z; cur : Z }.

(** The effect of a handler's event on the semaphore; [None] when the
    semaphore cannot answer that way: an acquisition succeeds only
    while a slot is free.  An acquisition may fail in any state (other
    waiters, an expired context). *)
Definition sema_apply (s : Weighted) (ev : Event) : option Weighted :=
  match ev with
  | SemaTryAcquire true | SemaAcquire None =>
      if (cur s <? size s)%Z
      then Some {| size := size s; cur := cur s + 1 |}
      else None
  | SemaRelease => Some {| size := size s; cur := cur s - 1 |}
  | _ => Some s
  end.

Definition is_acquired (ev : Event) : bool :=
  match ev with
  | SemaTryAcquire true | SemaAcquire None => true
  | _ => false
  end.

Definition is_acquire_failed (ev : Event) : bool :=
  match ev with
  | SemaAcquire (Some _) => true
  | _ => false
  end.

Definition is_attempt (ev : Event) : bool :=
  match ev with
  | SemaTryAcquire _ | SemaAcquire _ => true
  | _ => false
  end.

Definition is_release (ev : Event) : bool :=
  match ev with SemaRelease => true | _ => false end.

(** What the handler does between the admission and the release. *)
Definition serve_event (ev : Event) : bool :=
  match ev with
  | SemaTryAcquire _ | SemaAcquire _ | SemaRelease | ConnClose => false
  | _ => true
  end.

Definition is_sema (ev : Event) : bool := is_attempt ev || is_release ev.

Definition is_write (s : string) (ev : Event) : bool :=
  match ev with
  | ConnWrite s' => String.eqb s s'
  | _ => false
  end.

Definition waiting : string := "Waiting for an available runner..." +:+ nl.

(** The events that make a submission file or a child process. *)
Definition starts_work (ev : Event) : bool :=
  match ev with
  | CreateFile _ | CmdStart _ => true
  | _ => false
  end.

(** The events of the Flag Client: a request, and the log line of
    an attempt. *)
Definition is_fetch (ev : Event) : bool :=
  match ev with
  | HttpPost _ | Log (LogFetchAttempt _) => true
  | _ => false
  end.

(** The waits of the back-off in a trace, in order. *)
Definition waits (t : list Event) : list Z :=
  omap (fun ev => match ev with BackoffWait d => Some d | _ => None end) t.

(** What [NextBackOff] answers at successive clock readings. *)
Fixpoint backoffs (b : Backoff.ExponentialBackOff) (ticks : list Tick)
  : list Z :=
  match ticks with
  | [] => []
  | tick :: ticks' =>
      (Backoff.NextBackOff b (elapsed tick) (random tick)).1
        :: backoffs (Backoff.NextBackOff b (elapsed tick) (random tick)).2
                    ticks'
  end.

Definition is_start (ev : Event) : bool :=
  match ev with
  | CmdStart _ => true
  | _ => false
  end.

(** The kinds of events of the three stages of the body. *)
Definition prepare_event (ev : Event) : bool :=
  match ev with
  | ConnWrite _ | Stat _ | CreateFile _ | Log (LogStatFailed _ _) => true
  | _ => false
  end.

Definition run_event (ev : Event) : bool :=
  match ev with
  | CmdStart _ | CmdWait | CopyStdin | CopyStdout _ | CopyStderr _
  | CloseStdoutPipe | CloseStderrPipe | SignalInterrupt _
  | Log LogSentSigint | Log LogDoneStdin | Log LogDoneStdout
  | Log LogDoneStderr => true
  | _ => false
  end.

Definition classify_event (ev : Event) : bool :=
  match ev with
  | ConnWrite _ | HttpPost _ | BackoffWait _ | Log _ => true
  | _ => false
  end.

Definition is_close_stdout (ev : Event) : bool :=
  match ev with CloseStdoutPipe => true | _ => false end.

Definition is_close_stderr (ev : Event) : bool :=
  match ev with CloseStderrPipe => true | _ => false end.

Definition is_signal (ev : Event) : bool :=
  match ev with SignalInterrupt _ => true | _ => false end.

Definition is_log (ev : Event) : bool :=
  match ev with Log _ => true | _ => false end.



(** The same connection with another answer to the interrupt. *)
Definition with_signal (err : option error) (w : World) : World :=
  {| sema_try := sema_try w;
     sema_acquire := sema_acquire w;
     conn_in := conn_in w;
     fs_stat := fs_stat w;
     now := now w;
     create_err := create_err w;
     stdoutPipe_err := stdoutPipe_err w;
     stderrPipe_err := stderrPipe_err w;
     stdinPipe_err := stdinPipe_err w;
     start_err := start_err w;
     stdin_eof_before_exit := stdin_eof_before_exit w;
     signal_err := err;
     child_stdout := child_stdout w;
     child_stderr := child_stderr w;
     wait_err := wait_err w;
     stderr_text := stderr_text w;
     crash_notice_err := crash_notice_err w;
     flag_first := flag_first w;
     flag_retries := flag_retries w |}.

(** Whether the connection gets a slot. *)
Definition admitted (w : World) : bool :=
  sema_try w || bool_decide (sema_acquire w = None).

(** Every event satisfying [q] comes after one satisfying [p]. *)
Definition preceded_by (p q : Event -> bool) (t : list Event) : Prop :=
  forall (j : nat) (ev : Event),
    t !! j = Some ev -> q ev = true ->
    exists (i : nat) (ev' : Event),
      (i < j)%nat /\ t !! i = Some ev' /\ p ev' = true.

Definition count (p : Event -> bool) (t : list Event) : Z :=
  Z.of_nat (List.length (filter (fun ev => Is_true (p ev)) t)).

(** The slots a handler holds after the events [t]. *)
Definition held (t : list Event) : Z :=
  (count is_acquired t - count is_release t)%Z.

(** One running handler: the events behind it and those ahead. *)
Record Handler : Type := { done : list Event; todo : list Event }.

Record System : Type := { sema : Weighted; handlers : list Handler }.

(** Some handler performs its next event. *)
Inductive step (sys : System) : System -> Prop :=
| step_handler (i : nat) (d rest : list Event) (ev : Event) (s' : Weighted) :
    handlers sys !! i = Some {| done := d; todo := ev :: rest |} ->
    sema_apply (sema sys) ev = Some s' ->
    step sys {| sema := s';
                handlers := <[i := {| done := d ++ [ev]; todo := rest |}]>
                              (handlers sys) |}.

(** The step of handler [i], computed; [None] when it has no event
    left or the semaphore cannot answer as the event says. *)
Definition perform (i : nat) (sys : System) : option System :=
  match handlers sys !! i with
  | Some {| done := d; todo := ev :: rest |} =>
      match sema_apply (sema sys) ev with
      | Some s' =>
          Some {| sema := s';
                  handlers := <[i := {| done := d ++ [ev]; todo := rest |}]>
                                (handlers sys) |}
      | None => None
      end
  | _ => None
  end.

(** The handlers take their steps in the given order. *)
Fixpoint schedule (order : list nat) (sys : System) : option System :=
  match order with
  | [] => Some sys
  | i :: order' =>
      match perform i sys with
      | Some sys' => schedule order' sys'
      | None => None
      end
  end.

Definition slots_held (sys : System) : Z :=
  foldr (fun h acc => (held (done h) + acc)%Z) 0%Z (handlers sys).

(** *** Vocabulary for the stages of the handler *)

(** The call of [slowReadFirstLine] the handler makes. *)
Definition first_line (TrimSpace : string -> string) (w : World)
  : option ((string * option error) * LimitedReader (LimitedReader ConnIn)) :=
  slowReadFirstLine TrimSpace first_line_fuel
    (LimitReader (LimitReader (conn_in w) MAX_INPUT_SIZE) MAX_FIRST_LINE_SIZE).

(** The connection gets as far as [proxy.run] with the first line
    [line]: the line is read, its executable is a regular file, the
    submission file and the three pipes are made. *)
Definition ready (TrimSpace : string -> string) (c : checker) (w : World)
           (line : string) : Prop :=
  (exists rd, first_line TrimSpace w = Some ((line, None), rd)) /\
  (isRegularFile w (executablePath_of (binariesDirectory c)
                                      (ReplaceAll line "_" "-"))).2 = true /\
  create_err w = None /\
  (newCommandProxy w).2 = None.

(** The acquisition part of the trace of the handler. *)
Definition admission (w : World) : list Event :=
  SemaTryAcquire (sema_try w)
    :: (if sema_try w then []
        else [ConnWrite waiting; SemaAcquire (sema_acquire w)]).

(** The two notices of the crash path. *)
Definition crash_notice (text : string) : string :=
  "Command failed: " +:+ text +:+ nl +:+ "Trying to fetch flag..." +:+ nl.

Definition is_close (ev : Event) : bool :=
  match ev with ConnClose => true | _ => false end.

Definition is_create (ev : Event) : bool :=
  match ev with CreateFile _ => true | _ => false end.

(** *** Vocabulary for the acceptor *)

Definition is_failure (a : AcceptResult) : bool :=
  match a with
  | AcceptFailed _ => true
  | Accepted _ => false
  end.

(** The connection numbers of the handlers started, in order. *)
Definition dispatched (t : list MainEvent) : list Z :=
  omap (fun ev => match ev with
                  | GoHandleConnection _ connId => Some connId
                  | _ => None
                  end) t.

(** The connections handed to the handlers started, in order; [None]
    is the nil connection. *)
Definition dispatched_conns (t : list MainEvent) : list (option World) :=
  omap (fun ev => match ev with
                  | GoHandleConnection conn _ => Some conn
                  | _ => None
                  end) t.

(** What [Accept] gave, as the connection variable holds it. *)
Definition accepted_conn (a : AcceptResult) : option World :=
  match a with
  | Accepted conn => Some conn
  | AcceptFailed _ => None
  end.

Section Gateway.
Variable TrimSpace : string -> string.
Variable c : checker.

(** The events left and done are those of one call of
    [handleConnection]. *)
Definition runs_handler (h : Handler) : Prop :=
  exists conn : World * Z,
    done h ++ todo h = handleConnection TrimSpace c conn.1 conn.2.

(** [go checker.handleConnection(ctx, conn, connId)]. *)
Definition spawn (conn : World * Z) : Handler :=
  {| done := []; todo := handleConnection TrimSpace c conn.1 conn.2 |}.

(** [go checker.handleConnection(ctx, conn, connId)] of line 138.
    On an accepted connection the handler does the events of
    [handleConnection].  On the nil connection of a failed accept the
    call [conn.RemoteAddr()] of line 180 dereferences nil, and so does
    [conn.Close()] in the deferred function: the panic is not
    recovered and ends the process ([None]). *)
Definition go_handleConnection (conn : option World) (connId : Z)
  : option (list Event) :=
  match conn with
  | Some w => Some (handleConnection TrimSpace c w connId)
  | None => None
  end.

(** The event ends the process: the panic of [main], or the start of
    a handler that panics. *)
Definition fatal (ev : MainEvent) : bool :=
  match ev with
  | PanicMain _ => true
  | GoHandleConnection conn connId =>
      match go_handleConnection conn connId with
      | None => true
      | Some _ => false
      end
  | LogAcceptFailed _ => false
  end.

(** A semaphore of the given capacity with no slot held and one
    handler for each accepted connection. *)
Definition initial (capacity : Z) (conns : list (World * Z)) : System :=
  {| sema := {| size := capacity; cur := 0 |};
     handlers := map spawn conns |}.

Definition reachable (capacity : Z) (conns : list (World * Z))
           (sys : System) : Prop :=
  rtc step (initial capacity conns) sys.

(** What every step of the system keeps. *)
Definition balanced (capacity : Z) (sys : System) : Prop :=
  size (sema sys) = capacity /\
  (cur (sema sys) <= capacity)%Z /\
  cur (sema sys) = slots_held sys /\
  Forall runs_handler (handlers sys).
End Gateway.

End Crashme.

(** ** internal/scorer/scorer.go *)

Module Scorer.

(** *** Go values *)

(** A computation that may panic. *)
Inductive Run (A : Type) : Type :=
| Done (a : A)
| Panic (msg : string).
Arguments Done {A} _.
Arguments Panic {A} _.

#[global] Instance Run_ret : MRet Run := fun A a => Done a.

#[global] Instance Run_bind : MBind Run := fun A B k m =>
  match m with
  | Done a => k a
  | Panic msg => Panic msg
  end.

(** [*p] for a pointer that may be nil. *)
Definition nil_dereference : string :=
  "invalid memory address or nil pointer dereference".

Definition deref {A} (p : option A) : Run A :=
  match p with
  | Some a => Done a
  | None => Panic nil_dereference
  end.

(** Go's [int] on the 64-bit targets. *)
Definition wrap_int (z : Z) : Z := ((z + 2 ^ 63) mod 2 ^ 64 - 2 ^ 63)%Z.

(** [float64(z)] for [|z| < 2^63], and [int(f)] for a finite [f]
    (truncation towards zero); Go leaves [int] of the other floats to
    the implementation, here 0. *)
Definition float64_of_Z (z : Z) : float :=
  if (z <? 0)%Z then PrimFloat.opp (PrimFloat.of_uint63 (Uint63.of_Z (- z)))
  else PrimFloat.of_uint63 (Uint63.of_Z z).

Definition Z_of_float64 (f : float) : Z :=
  match Prim2SF f with
  | S754_finite s m e =>
      let mag := (if (0 <=? e)%Z then Z.pos m * 2 ^ e
                  else Z.pos m / 2 ^ (- e))%Z in
      if s then (- mag)%Z else mag
  | _ => 0%Z
  end.

(** *** package [time]: instants and durations in nanoseconds *)

Definition Second : Z := 1000000000.
Definition Hour : Z := 3600 * Second.
Definition maxDuration : Z := 2 ^ 63 - 1.
Definition minDuration : Z := - 2 ^ 63.

Definition Before (t u : Z) : bool := (t <? u)%Z.
Definition After (t u : Z) : bool := (u <? t)%Z.
Definition Add (t d : Z) : Z := (t + d)%Z.

(** [t.Sub(u)] saturates at the ends of [Duration]. *)
Definition Sub (t u : Z) : Z :=
  Z.max minDuration (Z.min maxDuration (t - u)).

(** [Duration.Seconds]. *)
Definition Seconds (d : Z) : float :=
  (float64_of_Z (Z.quot d Second) + float64_of_Z (Z.rem d Second) / 1e9)%float.

Definition week : Z := Hour * 24 * 7.

(** *** The records of the other packages, by the fields used here *)

Record User : Type := { GroupName : string; LastName : string }.

(** [deadlines.Task] and [deadlines.TaskGroup]. *)
Record Task : Type := { Task_Task : string; Task_Score : Z }.

Record TaskGroup : Type := {
  Group : string;
  Deadline : Z;
  Tasks : list Task
}.

Section Scoring.
(** [models.PipelineStatus] with its constant, and [TaskStatus] with
    [classifyPipelineStatus] and the order [>] on it, are declared
    in other files of the repository; the scorer is taken over any of them. *)
Variable PipelineStatus : Type.
Context `{EqDecision PipelineStatus}.
Variable PipelineStatusSuccess : PipelineStatus.
Variable TaskStatus : Type.
Context `{EqDecision TaskStatus}.
Variable TaskStatusAssigned : TaskStatus.
Variable classifyPipelineStatus : PipelineStatus -> TaskStatus.
Variable TaskStatus_gt : TaskStatus -> TaskStatus -> bool.

(** [models.Pipeline]. *)
Record Pipeline : Type := {
  Pipeline_Task : string;
  Status : PipelineStatus;
  CreatedAt : Z
}.

Record ScoredTask : Type := {
  ScoredTask_Task : string;
  ScoredTask_Status : TaskStatus;
  ScoredTask_Score : Z;
  ScoredTask_MaxScore : Z
}.

Record ScoredTaskGroup : Type := {
  Title : string;
  ScoredTaskGroup_Deadline : Z;
  ScoredTaskGroup_Score : Z;
  ScoredTaskGroup_MaxScore : Z;
  ScoredTaskGroup_Tasks : list ScoredTask
}.

Record UserScores : Type := { Groups : list ScoredTaskGroup }.

Definition pipelineLess (left right : option Pipeline) : Run bool :=
  l ← deref left;
  r ← deref right;
  if decide (classifyPipelineStatus (Status l)
             = classifyPipelineStatus (Status r))
  then mret (Before (CreatedAt l) (CreatedAt r))
  else mret (TaskStatus_gt (classifyPipelineStatus (Status l))
                           (classifyPipelineStatus (Status r))).

Definition scorePipeline (task : Task) (group : TaskGroup)
           (pipeline : option Pipeline) : Run Z :=
  p ← deref pipeline;
  if negb (bool_decide (Status p = PipelineStatusSuccess)) then mret 0%Z
  else
    let deadline := Deadline group in
    if Before (CreatedAt p) deadline then mret (Task_Score task)
    else
      let weekAfter := Add (Deadline group) week in
      if After (CreatedAt p) weekAfter then mret (Z.quot (Task_Score task) 2)
      else
        let mult :=
          (0.5 + 0.5 * Seconds (Sub (CreatedAt p) deadline)
                   / Seconds (Sub weekAfter deadline))%float in
        mret (Z_of_float64 (float64_of_Z (Task_Score task) * mult)%float).

(** Lines 42-49, one iteration: a task seen for the first time gets
    a slice of length one (a nil pointer) in the map; the pipeline is
    appended to the local slice [prev] only, which the map never
    sees.  The pair is the map and the local [prev] after it. *)
Definition pipelinesMap_add (m : gmap string (list (option Pipeline)))
           (pipeline : Pipeline)
  : gmap string (list (option Pipeline)) * list (option Pipeline) :=
  let '(prev, m) :=
    match m !! Pipeline_Task pipeline with
    | Some prev => (prev, m)
    | None =>
        let prev := [None] in
        (prev, <[Pipeline_Task pipeline := prev]> m)
    end in
  let prev := prev ++ [Some pipeline] in
  (m, prev).

Definition pipelinesMap (pipelines : list Pipeline)
  : gmap string (list (option Pipeline)) :=
  fold_left (fun m pipeline => (pipelinesMap_add m pipeline).1) pipelines ∅.

(** Every slice the map holds is the one-element slice with the
    nil pointer. *)
Definition only_nil (m : gmap string (list (option Pipeline))) : Prop :=
  forall k v, m !! k = Some v -> v = [None].

(** Lines 74-79. *)
Fixpoint minPipeline_loop (minPipeline : option Pipeline)
         (pipelines : list (option Pipeline)) : Run (option Pipeline) :=
  match pipelines with
  | [] => mret minPipeline
  | pipeline :: rest =>
      less ← pipelineLess pipeline minPipeline;
      minPipeline_loop (if less : bool then pipeline else minPipeline) rest
  end.

(** Lines 61-82: one task of a group. *)
Definition scoreTask (m : gmap string (list (option Pipeline)))
           (group : TaskGroup) (task : Task) : Run ScoredTask :=
  let assigned := {| ScoredTask_Task := Task_Task task;
                     ScoredTask_Status := TaskStatusAssigned;
                     ScoredTask_Score := 0;
                     ScoredTask_MaxScore := Task_Score task |} in
  match m !! Task_Task task with
  | None | Some [] => mret assigned
  | Some (first :: rest) =>
      minPipeline ← minPipeline_loop first (first :: rest);
      p ← deref minPipeline;
      score ← scorePipeline task group minPipeline;
      mret {| ScoredTask_Task := Task_Task task;
              ScoredTask_Status := classifyPipelineStatus (Status p);
              ScoredTask_Score := score;
              ScoredTask_MaxScore := Task_Score task |}
  end.

Fixpoint scoreTasks (m : gmap string (list (option Pipeline)))
         (group : TaskGroup) (tasks : list Task) : Run (list ScoredTask) :=
  match tasks with
  | [] => mret []
  | task :: rest =>
      st ← scoreTask m group task;
      sts ← scoreTasks m group rest;
      mret (st :: sts)
  end.

(** Lines 56-91: one group; [totalScore] is never added to. *)
Definition scoreGroup (m : gmap string (list (option Pipeline)))
           (group : TaskGroup) : Run ScoredTaskGroup :=
  tasks ← scoreTasks m group (Tasks group);
  let totalScore := 0%Z in
  let maxTotalScore :=
    fold_left (fun acc t => wrap_int (acc + ScoredTask_MaxScore t)) tasks 0%Z in
  mret {| Title := Group group;
          ScoredTaskGroup_Deadline := Deadline group;
          ScoredTaskGroup_Score := totalScore;
          ScoredTaskGroup_MaxScore := maxTotalScore;
          ScoredTaskGroup_Tasks := tasks |}.

Fixpoint scoreGroups (m : gmap string (list (option Pipeline)))
         (groups : list TaskGroup) : Run (list ScoredTaskGroup) :=
  match groups with
  | [] => mret []
  | group :: rest =>
      g ← scoreGroup m group;
      gs ← scoreGroups m rest;
      mret (g :: gs)
  end.

(** The scorer's collaborators: [deadlines.Fetcher.GroupDeadlines]
    (nil when the group has none) and
    [database.DataBase.ListUserPipelines]. *)
Variable GroupDeadlines : string -> option (list TaskGroup).
Variable ListUserPipelines : string -> list Pipeline * option Go.error.

Definition CalcScores (user : User) : Run (option UserScores * option Go.error) :=
  match GroupDeadlines (GroupName user) with
  | None => mret (None, Some (Go.errorString "No deadlines found"))
  | Some currentDeadlines =>
      match ListUserPipelines (LastName user) with
      | (_, Some err) =>
          mret (None, Some (Go.wrapError
            ("Failed to list pipelines: " +:+ Go.Error err) err))
      | (pipelines, None) =>
          groups ← scoreGroups (pipelinesMap pipelines) currentDeadlines;
          mret (Some {| Groups := groups |}, None)
      end
  end.
End Scoring.

End Scorer.

(** ** Sample inputs *)

Module Samples.
Import Go Crashme.

(** [strings.TrimSpace] on strings of ASCII bytes. *)
Definition asciiSpace (ch : ascii) : bool :=
  bool_decide (ch ∈ ["009"; "010"; "011"; "012"; "013"; " "]%char).

Fixpoint trimLeft (s : string) : string :=
  match s with
  | String ch s' => if asciiSpace ch then trimLeft s' else s
  | "" => ""
  end.

Fixpoint trimRight (s : string) : string :=
  match s with
  | "" => ""
  | String ch s' =>
      let r := trimRight s' in
      if asciiSpace ch && String.eqb r "" then "" else String ch r
  end.

Definition asciiTrimSpace (s : string) : string := trimRight (trimLeft s).

Definition server : checker :=
  {| binariesDirectory := "/srv/build"; submitsDirectory := "/srv/submits" |}.

(** A file system with the two task binaries of the scenarios, and
    the system shell. *)
Definition disk (path : string) : StatResult :=
  if bool_decide (path ∈ ["/srv/build/ctf_echo_ok"; "/srv/build/ctf_div_zero"; "/bin/sh"])
  then StatMode true false
  else if String.eqb path "/srv/build" then StatMode false true
  else StatNotExist.

(** The client asks for [echo-ok], sends a payload and closes; the
    child echoes it and exits 0 on its own. *)
Definition echo_ok : World :=
  {| sema_try := true;
     sema_acquire := None;
     conn_in := {| pending := "echo-ok" +:+ nl +:+ "hello"; closing := EOF |};
     fs_stat := disk;
     now := "2021-03-01T10:00:00.000";
     create_err := None;
     stdoutPipe_err := None;
     stderrPipe_err := None;
     stdinPipe_err := None;
     start_err := None;
     stdin_eof_before_exit := false;
     signal_err := None;
     child_stdout := "hello";
     child_stderr := "";
     wait_err := None;
     stderr_text := "";
     crash_notice_err := None;
     flag_first := Response true "CTF{x}" "";
     flag_retries := [] |}.

(** The wait status of [exit(1)], and of death by [SIGINT]. *)
Definition status_exit1 : Z := 0x0100.
Definition status_sigint : Z := 0x0002.

Definition with_task (task : string) (w : World) : World :=
  {| sema_try := sema_try w;
     sema_acquire := sema_acquire w;
     conn_in := {| pending := task +:+ nl +:+ "hello"; closing := EOF |};
     fs_stat := fs_stat w;
     now := now w;
     create_err := create_err w;
     stdoutPipe_err := stdoutPipe_err w;
     stderrPipe_err := stderrPipe_err w;
     stdinPipe_err := stdinPipe_err w;
     start_err := start_err w;
     stdin_eof_before_exit := stdin_eof_before_exit w;
     signal_err := signal_err w;
     child_stdout := child_stdout w;
     child_stderr := child_stderr w;
     wait_err := wait_err w;
     stderr_text := stderr_text w;
     crash_notice_err := crash_notice_err w;
     flag_first := flag_first w;
     flag_retries := flag_retries w |}.

Definition with_exit (eof_first : bool) (err : option error) (w : World)
  : World :=
  {| sema_try := sema_try w;
     sema_acquire := sema_acquire w;
     conn_in := conn_in w;
     fs_stat := fs_stat w;
     now := now w;
     create_err := create_err w;
     stdoutPipe_err := stdoutPipe_err w;
     stderrPipe_err := stderrPipe_err w;
     stdinPipe_err := stdinPipe_err w;
     start_err := start_err w;
     stdin_eof_before_exit := eof_first;
     signal_err := signal_err w;
     child_stdout := child_stdout w;
     child_stderr := child_stderr w;
     wait_err := err;
     stderr_text := stderr_text w;
     crash_notice_err := crash_notice_err w;
     flag_first := flag_first w;
     flag_retries := flag_retries w |}.

Definition with_sema (try : bool) (acq : option error) (w : World) : World :=
  {| sema_try := try;
     sema_acquire := acq;
     conn_in := conn_in w;
     fs_stat := fs_stat w;
     now := now w;
     create_err := create_err w;
     stdoutPipe_err := stdoutPipe_err w;
     stderrPipe_err := stderrPipe_err w;
     stdinPipe_err := stdinPipe_err w;
     start_err := start_err w;
     stdin_eof_before_exit := stdin_eof_before_exit w;
     signal_err := signal_err w;
     child_stdout := child_stdout w;
     child_stderr := child_stderr w;
     wait_err := wait_err w;
     stderr_text := stderr_text w;
     crash_notice_err := crash_notice_err w;
     flag_first := flag_first w;
     flag_retries := flag_retries w |}.

Definition with_flags (first : HttpOutcome)
           (retries : list (Tick * HttpOutcome)) (w : World) : World :=
  {| sema_try := sema_try w;
     sema_acquire := sema_acquire w;
     conn_in := conn_in w;
     fs_stat := fs_stat w;
     now := now w;
     create_err := create_err w;
     stdoutPipe_err := stdoutPipe_err w;
     stderrPipe_err := stderrPipe_err w;
     stdinPipe_err := stdinPipe_err w;
     start_err := start_err w;
     stdin_eof_before_exit := stdin_eof_before_exit w;
     signal_err := signal_err w;
     child_stdout := child_stdout w;
     child_stderr := child_stderr w;
     wait_err := wait_err w;
     stderr_text := stderr_text w;
     crash_notice_err := crash_notice_err w;
     flag_first := first;
     flag_retries := retries |}.

(** [div-zero] exits 1 by itself while the client still listens. *)
Definition div_zero : World :=
  with_exit false (Some (ExitError status_exit1 "exit status 1"))
    (with_task "div-zero" echo_ok).


(** The client closes its send side first and the interrupt kills
    the child. *)
Definition eof_then_sigint : World :=
  with_exit true (Some (ExitError status_sigint "signal: interrupt"))
    (with_task "div-zero" echo_ok).

Definition with_input (input : string) (closing : error) (w : World) : World :=
  {| sema_try := sema_try w;
     sema_acquire := sema_acquire w;
     conn_in := {| pending := input; closing := closing |};
     fs_stat := fs_stat w;
     now := now w;
     create_err := create_err w;
     stdoutPipe_err := stdoutPipe_err w;
     stderrPipe_err := stderrPipe_err w;
     stdinPipe_err := stdinPipe_err w;
     start_err := start_err w;
     stdin_eof_before_exit := stdin_eof_before_exit w;
     signal_err := signal_err w;
     child_stdout := child_stdout w;
     child_stderr := child_stderr w;
     wait_err := wait_err w;
     stderr_text := stderr_text w;
     crash_notice_err := crash_notice_err w;
     flag_first := flag_first w;
     flag_retries := flag_retries w |}.

(** The client sends a name and closes without a newline. *)
Definition no_newline : World := with_input "echo-ok" EOF echo_ok.

(** The client sends a hundred and twenty bytes without a newline. *)
Definition hundred : string :=
  "aaaaaaaaaaaaaaaaaaaaaaaaaaaaaaaaaaaaaaaaaaaaaaaaaaaaaaaaaaaaaaaaaaaaaaaaaaaaaaaaaaaaaaaaaaaaaaaaaaaa".

Definition long_line : World :=
  with_input (hundred +:+ "bbbbbbbbbbbbbbbbbbbb") EOF echo_ok.

(** All runners are busy; the connection waits and gets a slot, or
    waits until its deadline. *)
Definition queued : World := with_sema false None echo_ok.

Definition timed_out : World :=
  with_sema false (Some (errorString "context deadline exceeded")) echo_ok.

(** The task line climbs out of the binaries directory. *)
Definition traversal : World := with_task "x/../../../bin/sh" echo_ok.

(** Clock readings of [NextBackOff]: each request takes 0.2 s, the
    waits are the intervals, and the random source is at the middle. *)
Definition tick (ms : Z) : Tick :=
  {| elapsed := ms * Backoff.Millisecond; random := 0.5 |}.


(** Two connections on one runner: the first has its slot, the
    second has given up waiting. *)
Definition two_conns : list (World * Z) := [(echo_ok, 0%Z); (timed_out, 1%Z)].

Definition busy : System :=
  default (initial asciiTrimSpace server 1 two_conns)
          (schedule [0; 0; 1; 1; 1; 1]%nat
                    (initial asciiTrimSpace server 1 two_conns)).

Definition with_failures (create stdin start notice : option error)
           (w : World) : World :=
  {| sema_try := sema_try w;
     sema_acquire := sema_acquire w;
     conn_in := conn_in w;
     fs_stat := fs_stat w;
     now := now w;
     create_err := create;
     stdoutPipe_err := stdoutPipe_err w;
     stderrPipe_err := stderrPipe_err w;
     stdinPipe_err := stdin;
     start_err := start;
     stdin_eof_before_exit := stdin_eof_before_exit w;
     signal_err := signal_err w;
     child_stdout := child_stdout w;
     child_stderr := child_stderr w;
     wait_err := wait_err w;
     stderr_text := stderr_text w;
     crash_notice_err := notice;
     flag_first := flag_first w;
     flag_retries := flag_retries w |}.

(** The client asks for a task that was never built. *)
Definition unknown : World := with_task "no_such_task" echo_ok.

(** The submits directory takes no more files. *)
Definition disk_full : World :=
  with_failures (Some (errorString "no space left on device")) None None None
                echo_ok.

(** The binary of the task cannot be executed. *)
Definition not_executable : World :=
  with_failures None None (Some (errorString "exec format error")) None echo_ok.

(** [div-zero] crashes; the flag service is reached at the second
    attempt. *)
Definition flaky : World :=
  with_flags (PostFailed (errorString "connection refused"))
             [(tick 200, Response true "CTF{x}" "");
              (tick 900, Response false "" "no such task")]
             div_zero.

(** [div-zero] crashes after the client has gone. *)
Definition hung_up : World :=
  with_failures None None None (Some (errorString "broken pipe")) div_zero.

(** The process table is full: no pipe to the child's input. *)
Definition no_pipe : World :=
  with_failures None (Some (errorString "too many open files")) None None
                echo_ok.

(** The connection breaks while the task name is being typed. *)
Definition reset : World :=
  with_input "echo" (errorString "connection reset by peer") echo_ok.

(** A schedule of one group with two tasks, a user, and pipelines of
    that user for a task that is no longer scheduled. *)
Definition intro_deadlines : list Scorer.TaskGroup :=
  [ {| Scorer.Group := "intro"; Scorer.Deadline := 0;
       Scorer.Tasks := [ {| Scorer.Task_Task := "hello";
                            Scorer.Task_Score := 100 |};
                         {| Scorer.Task_Task := "sum";
                            Scorer.Task_Score := 200 |} ] |} ].

Definition ivanov : Scorer.User :=
  {| Scorer.GroupName := "g1"; Scorer.LastName := "Ivanov" |}.

Definition retired_pipelines : list (Scorer.Pipeline string) :=
  [ {| Scorer.Pipeline_Task := "retired"; Scorer.Status := "success";
       Scorer.CreatedAt := (-1)%Z |} ].

(** A pipeline of the task [hello] by its status and its creation
    time. *)
Definition attempt (status created : Z) : Scorer.Pipeline Z :=
  {| Scorer.Pipeline_Task := "hello"; Scorer.Status := status;
     Scorer.CreatedAt := created |}.

End Samples.

(** * Properties *)

(** ** The connection acceptor *)

Section AcceptorFacts.
Import Go Crashme.

Lemma wrap_int_small (z : Z) :
  (- 2 ^ 63 <= z < 2 ^ 63)%Z -> wrap_int z = z.
Proof.
  intros Hz. unfold wrap_int.
  rewrite Z.mod_small by lia. lia.
Qed.

(** The budget stays between zero and its initial value. *)
Lemma accept_iteration_budget (st st' : LoopState) (a : AcceptResult)
      (t : list MainEvent) :
  (0 <= currentAcceptErrorsBudget st <= acceptErrorsBudget)%Z ->
  accept_iteration st a = (t, Some st') ->
  (0 <= currentAcceptErrorsBudget st' <= acceptErrorsBudget)%Z.
Proof.
  unfold accept_iteration, acceptErrorsBudget. intros Hb Hit.
  destruct a as [conn|err].
  - inversion Hit; subst; clear Hit. simpl.
    destruct (Z.ltb_spec (currentAcceptErrorsBudget st) 10).
    + rewrite wrap_int_small by lia. lia.
    + lia.
  - destruct (Z.eqb_spec (currentAcceptErrorsBudget st) 0); [discriminate|].
    inversion Hit; subst; clear Hit. simpl.
    rewrite wrap_int_small by lia. lia.
Qed.

Lemma accept_loop_budget (accepts : list AcceptResult) :
  forall (st st' : LoopState) (t : list MainEvent),
    (0 <= currentAcceptErrorsBudget st <= acceptErrorsBudget)%Z ->
    accept_loop st accepts = (t, Some st') ->
    (0 <= currentAcceptErrorsBudget st' <= acceptErrorsBudget)%Z.
Proof.
  induction accepts as [|a accepts IH]; intros st st' t Hb Hloop; simpl in Hloop.
  - inversion Hloop; subst. exact Hb.
  - destruct (accept_iteration st a) as [t1 [st1|]] eqn:Hit; [|discriminate].
    destruct (accept_loop st1 accepts) as [t2 r] eqn:Hrest.
    inversion Hloop; subst; clear Hloop.
    eapply IH; [|exact Hrest].
    eapply accept_iteration_budget; eauto.
Qed.

(** The loop panics in an iteration exactly when [Accept] fails there
    with the budget at zero. *)
Lemma accept_iteration_panics (st : LoopState) (a : AcceptResult) :
  (accept_iteration st a).2 = None <->
  (exists err, a = AcceptFailed err) /\ currentAcceptErrorsBudget st = 0%Z.
Proof.
  unfold accept_iteration. destruct a as [conn|err]; simpl.
  - split; [discriminate|]. intros [[err Herr] _]. discriminate.
  - destruct (Z.eqb_spec (currentAcceptErrorsBudget st) 0); simpl.
    + split; eauto.
    + split; [discriminate|]. intros [_ H0]. contradiction.
Qed.

(** A failed accept with budget left costs one unit; a successful one
    below the initial value gives one back, and none at it. *)
Lemma accept_iteration_failure (st : LoopState) (err : error) :
  (0 < currentAcceptErrorsBudget st <= acceptErrorsBudget)%Z ->
  exists t st',
    accept_iteration st (AcceptFailed err) = (t, Some st') /\
    currentAcceptErrorsBudget st' = (currentAcceptErrorsBudget st - 1)%Z.
Proof.
  unfold accept_iteration, acceptErrorsBudget. intros Hb.
  destruct (Z.eqb_spec (currentAcceptErrorsBudget st) 0); [lia|].
  eexists _, _. split; [reflexivity|]. simpl.
  apply wrap_int_small. lia.
Qed.

Lemma accept_iteration_success (st : LoopState) (conn : World) :
  (0 <= currentAcceptErrorsBudget st <= acceptErrorsBudget)%Z ->
  exists t st',
    accept_iteration st (Accepted conn) = (t, Some st') /\
    currentAcceptErrorsBudget st' =
      Z.min acceptErrorsBudget (currentAcceptErrorsBudget st + 1).
Proof.
  unfold accept_iteration, acceptErrorsBudget. intros Hb.
  eexists _, _. split; [reflexivity|]. simpl.
  destruct (Z.ltb_spec (currentAcceptErrorsBudget st) 10).
  - rewrite wrap_int_small by lia. lia.
  - lia.
Qed.

(** C5: the acceptor loop starts a Session Handler in every iteration
    that does not panic, also when [Accept] failed: after a first
    failed accept the handler runs on the nil connection, with
    connection number 0, and the budget has gone from 10 to 9. *)
Theorem main_dispatches_failed_accept (err : error) :
  main_loop [AcceptFailed err] =
    ([LogAcceptFailed err; GoHandleConnection None 0],
     Some {| currentAcceptErrorsBudget := 9; connId := 1 |}).
Proof. reflexivity. Qed.

End AcceptorFacts.

(** ** The scorer *)

Section ScorerFacts.
Import Scorer.
Context {PipelineStatus : Type} `{EqDecision PipelineStatus}.
Variable PipelineStatusSuccess : PipelineStatus.

Local Abbreviation scorePipeline := (scorePipeline PipelineStatus PipelineStatusSuccess).
Local Abbreviation Pipeline := (Pipeline PipelineStatus).

Lemma week_value : week = 604800000000000%Z.
Proof. reflexivity. Qed.

(** The three branches of [scorePipeline] that do not interpolate. *)
Lemma scorePipeline_unsuccessful (task : Task) (group : TaskGroup) (p : Pipeline) :
  Status _ p <> PipelineStatusSuccess ->
  scorePipeline task group (Some p) = Done 0%Z.
Proof.
  intros Hs. unfold scorePipeline. simpl.
  rewrite bool_decide_eq_false_2 by exact Hs. reflexivity.
Qed.

Lemma scorePipeline_before_deadline (task : Task) (group : TaskGroup) (p : Pipeline) :
  Status _ p = PipelineStatusSuccess ->
  (CreatedAt _ p < Deadline group)%Z ->
  scorePipeline task group (Some p) = Done (Task_Score task).
Proof.
  intros Hs Ht. unfold scorePipeline. simpl.
  rewrite bool_decide_eq_true_2 by exact Hs. simpl.
  unfold Before. destruct (Z.ltb_spec (CreatedAt _ p) (Deadline group)); [reflexivity|lia].
Qed.

Lemma scorePipeline_after_week (task : Task) (group : TaskGroup) (p : Pipeline) :
  Status _ p = PipelineStatusSuccess ->
  (Deadline group + week < CreatedAt _ p)%Z ->
  scorePipeline task group (Some p) = Done (Z.quot (Task_Score task) 2).
Proof.
  intros Hs Ht. unfold scorePipeline. simpl.
  rewrite bool_decide_eq_true_2 by exact Hs. simpl.
  unfold Before, After, Add.
  rewrite week_value in *.
  destruct (Z.ltb_spec (CreatedAt _ p) (Deadline group)); [lia|].
  destruct (Z.ltb_spec (Deadline group + 604800000000000) (CreatedAt _ p)); [reflexivity|lia].
Qed.

(** The interpolating branch at an offset [d] from the deadline, with
    the instants taken out of the floating-point part. *)
Lemma scorePipeline_within_week (task : Task) (group : TaskGroup) (p : Pipeline)
      (d : Z) :
  Status _ p = PipelineStatusSuccess ->
  CreatedAt _ p = (Deadline group + d)%Z ->
  (0 <= d <= week)%Z ->
  scorePipeline task group (Some p) =
    Done (Z_of_float64
            (float64_of_Z (Task_Score task)
             * (0.5 + 0.5 * Seconds d / Seconds week))%float).
Proof.
  intros Hs Ht Hd. unfold scorePipeline. simpl.
  rewrite bool_decide_eq_true_2 by exact Hs. simpl.
  unfold Before, After, Add, Sub, maxDuration, minDuration.
  rewrite week_value in *. rewrite Ht.
  destruct (Z.ltb_spec (Deadline group + d) (Deadline group)); [lia|].
  destruct (Z.ltb_spec (Deadline group + 604800000000000) (Deadline group + d)); [lia|].
  replace (Deadline group + d - Deadline group)%Z with d by lia.
  replace (Deadline group + 604800000000000 - Deadline group)%Z
    with 604800000000000%Z by lia.
  rewrite (Z.min_r _ d) by lia. rewrite (Z.max_r _ d) by lia.
  reflexivity.
Qed.

(** C9: between the deadline and one week after it the score of a
    successful pipeline rises with the lateness instead of falling: a
    task worth 100 scores 50 at the deadline itself, 75 half a week
    late and 100 exactly one week late (and 100 just before the
    deadline, 50 just after the week). *)
Theorem scorePipeline_rises_within_week (deadline : Z) :
  let task := {| Task_Task := "a"; Task_Score := 100 |} in
  let group := {| Group := "g"; Deadline := deadline; Tasks := [task] |} in
  let at_ (t : Z) : option Pipeline :=
    Some {| Pipeline_Task := "a"; Status := PipelineStatusSuccess; CreatedAt := t |} in
  scorePipeline task group (at_ (deadline - 1)%Z) = Done 100%Z /\
  scorePipeline task group (at_ deadline) = Done 50%Z /\
  scorePipeline task group (at_ (deadline + week / 2)%Z) = Done 75%Z /\
  scorePipeline task group (at_ (deadline + week)%Z) = Done 100%Z /\
  scorePipeline task group (at_ (deadline + week + 1)%Z) = Done 50%Z.
Proof.
  cbv zeta. repeat split.
  - apply scorePipeline_before_deadline; simpl; [reflexivity|lia].
  - rewrite (scorePipeline_within_week _ _ _ 0); simpl;
      [|reflexivity|lia|rewrite week_value; lia].
    vm_compute. reflexivity.
  - rewrite (scorePipeline_within_week _ _ _ (week / 2));
      [|reflexivity|reflexivity|vm_compute; split; discriminate].
    vm_compute. reflexivity.
  - rewrite (scorePipeline_within_week _ _ _ week);
      [|reflexivity|reflexivity|rewrite week_value; lia].
    vm_compute. reflexivity.
  - rewrite scorePipeline_after_week; simpl; [reflexivity|reflexivity|lia].
Qed.

End ScorerFacts.

Section CalcScoresFacts.
Import Scorer.
Context {PipelineStatus : Type} `{EqDecision PipelineStatus}.
Variable PipelineStatusSuccess : PipelineStatus.
Context {TaskStatus : Type} `{EqDecision TaskStatus}.
Variable TaskStatusAssigned : TaskStatus.
Variable classifyPipelineStatus : PipelineStatus -> TaskStatus.
Variable TaskStatus_gt : TaskStatus -> TaskStatus -> bool.

Local Abbreviation Pipeline := (Pipeline PipelineStatus).
Local Abbreviation scoreTask :=
  (scoreTask PipelineStatus PipelineStatusSuccess TaskStatus
             TaskStatusAssigned classifyPipelineStatus TaskStatus_gt).
Local Abbreviation scoreTasks :=
  (scoreTasks PipelineStatus PipelineStatusSuccess TaskStatus
              TaskStatusAssigned classifyPipelineStatus TaskStatus_gt).
Local Abbreviation scoreGroups :=
  (scoreGroups PipelineStatus PipelineStatusSuccess TaskStatus
               TaskStatusAssigned classifyPipelineStatus TaskStatus_gt).

Local Abbreviation only_nil := (only_nil PipelineStatus).

Lemma pipelinesMap_add_only_nil (m : gmap string (list (option Pipeline)))
      (p : Pipeline) :
  only_nil m -> only_nil (pipelinesMap_add _ m p).1.
Proof.
  intros Hm k v. unfold pipelinesMap_add.
  destruct (m !! Pipeline_Task _ p) as [prev|] eqn:Hp; simpl.
  - apply Hm.
  - destruct (decide (Pipeline_Task _ p = k)) as [->|Hne].
    + rewrite lookup_insert_eq. congruence.
    + rewrite lookup_insert_ne by exact Hne. apply Hm.
Qed.

Lemma pipelinesMap_add_keeps (m : gmap string (list (option Pipeline)))
      (p : Pipeline) (k : string) :
  is_Some (m !! k) -> is_Some ((pipelinesMap_add _ m p).1 !! k).
Proof.
  intros Hk. unfold pipelinesMap_add.
  destruct (m !! Pipeline_Task _ p) as [prev|] eqn:Hp; simpl; [exact Hk|].
  destruct (decide (Pipeline_Task _ p = k)) as [->|Hne].
  - rewrite lookup_insert_eq. eauto.
  - rewrite lookup_insert_ne by exact Hne. exact Hk.
Qed.

Lemma pipelinesMap_add_records (m : gmap string (list (option Pipeline)))
      (p : Pipeline) :
  is_Some ((pipelinesMap_add _ m p).1 !! Pipeline_Task _ p).
Proof.
  unfold pipelinesMap_add.
  destruct (m !! Pipeline_Task _ p) as [prev|] eqn:Hp; simpl.
  - rewrite Hp. eauto.
  - rewrite lookup_insert_eq. eauto.
Qed.

Lemma pipelinesMap_fold (pipelines : list Pipeline) :
  forall m : gmap string (list (option Pipeline)),
    only_nil m ->
    let m' := fold_left (fun m p => (pipelinesMap_add _ m p).1) pipelines m in
    only_nil m' /\
    (forall k, is_Some (m !! k) -> is_Some (m' !! k)) /\
    (forall p, p ∈ pipelines -> is_Some (m' !! Pipeline_Task _ p)).
Proof.
  induction pipelines as [|q pipelines IH]; intros m Hm; simpl.
  - split; [exact Hm|]. split; [auto|]. intros p Hp. inversion Hp.
  - destruct (IH _ (pipelinesMap_add_only_nil m q Hm)) as (Hnil & Hkeep & Hrec).
    split; [exact Hnil|]. split.
    + intros k Hk. apply Hkeep. apply pipelinesMap_add_keeps. exact Hk.
    + intros p Hp. apply elem_of_cons in Hp as [->|Hp].
      * apply Hkeep. apply pipelinesMap_add_records.
      * apply Hrec. exact Hp.
Qed.

(** The map built from the pipelines holds, for each task that has a
    pipeline, the slice [[nil]], whatever the pipelines are. *)
Lemma pipelinesMap_lookup (pipelines : list Pipeline) (p : Pipeline) :
  p ∈ pipelines ->
  pipelinesMap _ pipelines !! Pipeline_Task _ p = Some [None].
Proof.
  intros Hp. unfold pipelinesMap.
  destruct (pipelinesMap_fold pipelines ∅) as (Hnil & _ & Hrec).
  { intros k v Hk. rewrite lookup_empty in Hk. discriminate. }
  destruct (Hrec p Hp) as [v Hv]. rewrite Hv. f_equal. eapply Hnil, Hv.
Qed.

Lemma pipelinesMap_only_nil (pipelines : list Pipeline) :
  only_nil (pipelinesMap _ pipelines).
Proof.
  unfold pipelinesMap.
  destruct (pipelinesMap_fold pipelines ∅) as (Hnil & _ & _); [|exact Hnil].
  intros k v Hk. rewrite lookup_empty in Hk. discriminate.
Qed.

(** On such a map a task is either left as assigned or makes the
    minimum search dereference the nil pointer. *)
Lemma scoreTask_only_nil (m : gmap string (list (option Pipeline)))
      (group : TaskGroup) (task : Task) :
  only_nil m ->
  match m !! Task_Task task with
  | Some _ => scoreTask m group task = Panic nil_dereference
  | None => exists st, scoreTask m group task = Done st
  end.
Proof.
  intros Hm. unfold Scorer.scoreTask.
  destruct (m !! Task_Task task) as [v|] eqn:Hv.
  - rewrite (Hm _ _ Hv). reflexivity.
  - eexists. reflexivity.
Qed.

Lemma scoreTasks_panics (m : gmap string (list (option Pipeline)))
      (group : TaskGroup) (tasks : list Task) (task : Task) :
  only_nil m ->
  task ∈ tasks ->
  is_Some (m !! Task_Task task) ->
  scoreTasks m group tasks = Panic nil_dereference.
Proof.
  intros Hm Hin Hsome.
  induction tasks as [|t tasks IH]; [inversion Hin|].
  simpl. pose proof (scoreTask_only_nil m group t Hm) as Ht.
  destruct (m !! Task_Task t) as [v|] eqn:Hv.
  - rewrite Ht. reflexivity.
  - destruct Ht as [st ->]. simpl.
    apply elem_of_cons in Hin as [->|Hin].
    + rewrite Hv in Hsome. destruct Hsome; discriminate.
    + rewrite (IH Hin). reflexivity.
Qed.

Lemma scoreTasks_panic_msg (m : gmap string (list (option Pipeline)))
      (group : TaskGroup) (tasks : list Task) (msg : string) :
  only_nil m ->
  scoreTasks m group tasks = Panic msg ->
  msg = nil_dereference.
Proof.
  intros Hm. induction tasks as [|t tasks IH]; simpl; [discriminate|].
  pose proof (scoreTask_only_nil m group t Hm) as Ht.
  destruct (m !! Task_Task t) as [v|] eqn:Hv.
  - rewrite Ht. simpl. congruence.
  - destruct Ht as [st ->]. simpl.
    destruct (Scorer.scoreTasks _ _ _ _ _ _ m group tasks) as [sts|msg'];
      simpl; [discriminate|].
    intros Heq. apply IH. congruence.
Qed.

Lemma scoreGroups_panics (m : gmap string (list (option Pipeline)))
      (groups : list TaskGroup) (group : TaskGroup) (task : Task) :
  only_nil m ->
  group ∈ groups ->
  task ∈ Tasks group ->
  is_Some (m !! Task_Task task) ->
  scoreGroups m groups = Panic nil_dereference.
Proof.
  intros Hm Hg Hin Hsome.
  induction groups as [|g groups IH]; [inversion Hg|].
  simpl. unfold scoreGroup.
  apply elem_of_cons in Hg as [<-|Hg].
  - rewrite (scoreTasks_panics m group _ task Hm Hin Hsome). reflexivity.
  - destruct (Scorer.scoreTasks _ _ _ _ _ _ m g (Tasks g)) as [sts|msg] eqn:Hsts.
    + simpl. rewrite (IH Hg). reflexivity.
    + simpl. f_equal. eapply scoreTasks_panic_msg; eauto.
Qed.

(** C10: for a user with a recorded pipeline for a task of the
    deadline schedule, [CalcScores] gives no status and no score: the
    slice the map keeps for that task holds a nil pointer and none of
    the user's pipelines, and the search for the best pipeline
    dereferences the nil pointer. *)
Theorem CalcScores_panics_on_recorded_pipeline
        (GroupDeadlines : string -> option (list TaskGroup))
        (ListUserPipelines : string -> list Pipeline * option Go.error)
        (user : User) (currentDeadlines : list TaskGroup)
        (pipelines : list Pipeline)
        (group : TaskGroup) (task : Task) (p : Pipeline) :
  GroupDeadlines (GroupName user) = Some currentDeadlines ->
  ListUserPipelines (LastName user) = (pipelines, None) ->
  group ∈ currentDeadlines ->
  task ∈ Tasks group ->
  p ∈ pipelines ->
  Pipeline_Task _ p = Task_Task task ->
  CalcScores PipelineStatus PipelineStatusSuccess TaskStatus
             TaskStatusAssigned classifyPipelineStatus TaskStatus_gt
             GroupDeadlines ListUserPipelines user
  = Panic nil_dereference.
Proof.
  intros Hd Hl Hg Ht Hp Hname. unfold CalcScores. rewrite Hd, Hl.
  rewrite (scoreGroups_panics _ currentDeadlines group task); [reflexivity| | | |].
  - apply pipelinesMap_only_nil.
  - exact Hg.
  - exact Ht.
  - rewrite <- Hname, (pipelinesMap_lookup pipelines p Hp). eauto.
Qed.

End CalcScoresFacts.

Lemma CalcScores_panics_witness :
  Scorer.CalcScores string "success" string "assigned"
    (fun status => status) (fun a b => false)
    (fun _ => Some [ {| Scorer.Group := "intro"; Scorer.Deadline := 0;
                        Scorer.Tasks := [ {| Scorer.Task_Task := "hello";
                                             Scorer.Task_Score := 100 |} ] |} ])
    (fun _ => ([ {| Scorer.Pipeline_Task := "hello"; Scorer.Status := "success";
                    Scorer.CreatedAt := (-1)%Z |} ], None))
    {| Scorer.GroupName := "g1"; Scorer.LastName := "Ivanov" |}
  = Scorer.Panic Scorer.nil_dereference.
Proof.
  eapply (CalcScores_panics_on_recorded_pipeline "success" "assigned");
    [reflexivity | reflexivity | apply list_elem_of_here
    | apply list_elem_of_here | apply list_elem_of_here | reflexivity].
Defined.

(** ** The session handler: traces *)

Section ProcFacts.
Import Go Crashme.
Context {R : Type}.

Lemma emit_bind_fst {B} (ev : Event) (k : unit -> Proc R B) :
  (emit ev ≫= k).1 = ev :: (k tt).1.
Proof. unfold emit, mbind, Proc_bind. destruct (k tt); reflexivity. Qed.

Lemma emit_bind_snd {B} (ev : Event) (k : unit -> Proc R B) :
  (emit ev ≫= k).2 = (k tt).2.
Proof. unfold emit, mbind, Proc_bind. destruct (k tt); reflexivity. Qed.

Lemma call_bind_fst {A B} (f : list Event * A) (k : A -> Proc R B) :
  (call f ≫= k).1 = f.1 ++ (k f.2).1.
Proof. unfold call, mbind, Proc_bind. destruct (k f.2); reflexivity. Qed.

Lemma call_bind_snd {A B} (f : list Event * A) (k : A -> Proc R B) :
  (call f ≫= k).2 = (k f.2).2.
Proof. unfold call, mbind, Proc_bind. destruct (k f.2); reflexivity. Qed.

Lemma return_fst {A} (r : R) : (return_ r : Proc R A).1 = [].
Proof. reflexivity. Qed.

Lemma return_snd {A} (r : R) : (return_ r : Proc R A).2 = inr r.
Proof. reflexivity. Qed.

Lemma bind_fst {A B} (m : Proc R A) (k : A -> Proc R B) :
  (m ≫= k).1 = m.1 ++ match m.2 with
                      | inl a => (k a).1
                      | inr _ => []
                      end.
Proof.
  destruct m as [t [a|r]]; unfold mbind, Proc_bind; simpl.
  - destruct (k a); reflexivity.
  - rewrite app_nil_r. reflexivity.
Qed.

Lemma bind_snd {A B} (m : Proc R A) (k : A -> Proc R B) :
  (m ≫= k).2 = match m.2 with
               | inl a => (k a).2
               | inr r => inr r
               end.
Proof.
  destruct m as [t [a|r]]; unfold mbind, Proc_bind; simpl; [|reflexivity].
  destruct (k a); reflexivity.
Qed.
End ProcFacts.

(** Evaluate the trace and the result of a procedure as far as its
    branches are known, splitting on the next unknown one. *)
Ltac proc_simpl :=
  repeat first
    [ rewrite emit_bind_fst | rewrite emit_bind_snd
    | rewrite call_bind_fst | rewrite call_bind_snd
    | rewrite return_fst | rewrite return_snd ].

Ltac proc_case :=
  match goal with
  | |- context [match ?x with _ => _ end] => destruct x eqn:?
  end.

Ltac proc_run := repeat (proc_simpl; cbn beta iota; try proc_case).

Section HandlerFacts.
Import Go Crashme.
Variable TrimSpace : string -> string.
Variable c : checker.

Local Abbreviation prepare := (prepare TrimSpace c).
Local Abbreviation serve := (serve TrimSpace c).
Local Abbreviation doHandleConnection := (doHandleConnection TrimSpace c).
Local Abbreviation handleConnection := (handleConnection TrimSpace c).

(** *** The first line is read in at most 101 steps *)

Lemma slowReadFirstLine_loop_total {R : Type} `{Reader R} (fuel : nat) :
  forall (l : LimitedReader R) (str : string) (buf0 : ascii),
    (Z.max 0 (LN l) < Z.of_nat fuel)%Z ->
    is_Some (slowReadFirstLine_loop TrimSpace fuel l str buf0).
Proof.
  induction fuel as [|fuel IH]; intros l str buf0 Hfuel; [lia|].
  simpl. destruct (Ascii.eqb buf0 newline); [eauto|].
  unfold Read1 at 1, LimitedReader_Reader.
  destruct (Z.leb_spec (LN l) 0) as [Hle|Hgt].
  - simpl. destruct (Z.of_nat (String.length str) =? MAX_FIRST_LINE_SIZE)%Z; eauto.
  - destruct (Read1 (LR l) buf0) as [[[n b] err] r'].
    destruct err as [e|]; simpl.
    + destruct (is_EOF e); simpl; [|eauto].
      destruct (Z.of_nat (String.length str) =? MAX_FIRST_LINE_SIZE)%Z; eauto.
    + destruct (Z.eqb_spec n 1) as [->|Hn]; simpl.
      * apply IH. simpl. lia.
      * destruct (Z.of_nat (String.length str) =? MAX_FIRST_LINE_SIZE)%Z; eauto.
Qed.

Lemma first_line_total (w : World) :
  is_Some (slowReadFirstLine TrimSpace first_line_fuel
             (LimitReader (LimitReader (conn_in w) MAX_INPUT_SIZE)
                          MAX_FIRST_LINE_SIZE)).
Proof.
  apply slowReadFirstLine_loop_total. simpl.
  unfold first_line_fuel, MAX_FIRST_LINE_SIZE. lia.
Qed.

(** *** Every path of the body ends in a [return] *)

Lemma classify_returns (w : World) (task path : string) (err : option error) :
  exists o, (classify w task path err).2 = inr (Returns o).
Proof. unfold classify. proc_run; eauto. Qed.

Lemma prepare_returns (w : World) (o : Outcome) :
  (prepare w).2 = inr o -> exists err, o = Returns err.
Proof.
  unfold Crashme.prepare. proc_simpl.
  destruct (first_line_total w) as [[[task err] rd] ->].
  proc_run; intros; simplify_eq; eauto.
Qed.

Lemma serve_returns (w : World) : exists o, (serve w).2 = inr (Returns o).
Proof.
  unfold Crashme.serve. rewrite bind_snd.
  destruct (Crashme.prepare TrimSpace c w).2 as [started|o] eqn:Hp.
  - rewrite call_bind_snd. apply classify_returns.
  - apply prepare_returns in Hp as [err ->]. eauto.
Qed.

(** *** The events of the body *)

Lemma Retry_events (task : string) (b : Backoff.ExponentialBackOff)
      (attempt : HttpOutcome) (rounds : list (Tick * HttpOutcome)) :
  Forall (fun ev => serve_event ev = true) (Retry task b attempt rounds).1.
Proof.
  unfold Retry. generalize (Backoff.Reset b). clear b.
  revert attempt.
  induction rounds as [|[tick retry] rounds IH]; intros attempt b;
    cbn [Retry_loop].
  - destruct attempt as [e|e|e|e|[] f m]; simpl; repeat constructor.
  - destruct (Backoff.NextBackOff b (elapsed tick) (random tick)) as [next b'].
    specialize (IH retry b').
    destruct (Retry_loop task b' retry rounds) as [t' r].
    destruct attempt as [e|e|e|e|[] f m]; simpl in *;
      try destruct (next =? Backoff.Stop)%Z; simpl;
      repeat (constructor; try done).
Qed.

Lemma run_events (w : World) (path : string) :
  Forall (fun ev => serve_event ev = true) (run w path).1.
Proof.
  unfold run, handleStdin, handleStdout, handleStderr.
  destruct (start_err w); simpl; [repeat constructor|].
  destruct (stdin_eof_before_exit w); simpl; [|repeat constructor].
  repeat (constructor; try done).
  case_bool_decide; simpl; repeat constructor.
Qed.

Lemma isRegularFile_events (w : World) (path : string) :
  Forall (fun ev => serve_event ev = true) (isRegularFile w path).1.
Proof.
  unfold isRegularFile. destruct (fs_stat w path); repeat constructor.
Qed.

Lemma newCommandProxy_events (w : World) : (newCommandProxy w).1 = [].
Proof.
  unfold newCommandProxy.
  destruct (stdoutPipe_err w), (stderrPipe_err w), (stdinPipe_err w); reflexivity.
Qed.

Ltac events :=
  repeat first
    [ rewrite newCommandProxy_events
    | apply Forall_nil_2
    | apply Forall_cons; split; [reflexivity|]
    | apply Forall_app; split
    | apply Retry_events | apply run_events | apply isRegularFile_events ].

Lemma classify_events (w : World) (task path : string) (err : option error) :
  Forall (fun ev => serve_event ev = true) (classify w task path err).1.
Proof. unfold classify, fetchFlag. proc_run; events. Qed.

Lemma prepare_events (w : World) :
  Forall (fun ev => serve_event ev = true) (prepare w).1.
Proof. unfold Crashme.prepare. proc_run; events. Qed.

Lemma serve_trace (w : World) :
  (serve w).1 =
    (prepare w).1 ++
    match (prepare w).2 with
    | inl started =>
        (run w started.2).1
          ++ (classify w started.1 started.2 (run w started.2).2).1
    | inr _ => []
    end.
Proof.
  unfold Crashme.serve. rewrite bind_fst.
  destruct (Crashme.prepare TrimSpace c w).2; [|reflexivity].
  rewrite call_bind_fst. reflexivity.
Qed.

Lemma serve_result (w : World) :
  (serve w).2 =
    match (prepare w).2 with
    | inl started => (classify w started.1 started.2 (run w started.2).2).2
    | inr o => inr o
    end.
Proof.
  unfold Crashme.serve. rewrite bind_snd.
  destruct (Crashme.prepare TrimSpace c w).2; [|reflexivity].
  rewrite call_bind_snd. reflexivity.
Qed.

Lemma serve_events (w : World) :
  Forall (fun ev => serve_event ev = true) (serve w).1.
Proof.
  rewrite serve_trace. apply Forall_app. split; [apply prepare_events|].
  destruct (Crashme.prepare TrimSpace c w).2; [|constructor].
  apply Forall_app. split; [apply run_events|apply classify_events].
Qed.

Lemma prepare_prompt (w : World) :
  exists rest, (prepare w).1 = ConnWrite "Enter task name: " :: rest.
Proof. unfold Crashme.prepare. rewrite emit_bind_fst. eauto. Qed.

Lemma serve_prompt (w : World) :
  exists rest,
    (serve w).1 = ConnWrite "Enter task name: " :: rest /\
    Forall (fun ev => serve_event ev = true) rest.
Proof.
  pose proof (serve_events w) as Hev.
  rewrite serve_trace in *.
  destruct (prepare_prompt w) as [rest Hrest]. rewrite Hrest in *.
  rewrite <- app_comm_cons in *.
  apply Forall_cons in Hev as [_ Hev].
  eexists. split; [reflexivity|exact Hev].
Qed.

(** *** The handler around the body *)

Lemma doHandleConnection_unfold (w : World) :
  doHandleConnection w =
    match sema_try w, sema_acquire w with
    | true, _ =>
        (SemaTryAcquire true :: (serve w).1 ++ [SemaRelease],
         match (serve w).2 with inl _ => Returns None | inr o => o end)
    | false, None =>
        ([SemaTryAcquire false; ConnWrite waiting; SemaAcquire None]
           ++ (serve w).1 ++ [SemaRelease],
         match (serve w).2 with inl _ => Returns None | inr o => o end)
    | false, Some e =>
        ([SemaTryAcquire false; ConnWrite waiting; SemaAcquire (Some e)],
         Returns (Some (Errorf_w "failed to acquire semaphore: " e)))
    end.
Proof.
  unfold Crashme.doHandleConnection, body, defer_.
  destruct (sema_try w); [|destruct (sema_acquire w)];
    try reflexivity;
    destruct (Crashme.serve TrimSpace c w) as [t [[]|o]];
    unfold mbind, Proc_bind, mret, Proc_ret, call, emit, return_; simpl;
    rewrite ?app_nil_r; reflexivity.
Qed.

(** [doHandleConnection] returns on every input. *)
Lemma doHandleConnection_returns (w : World) :
  exists err, (doHandleConnection w).2 = Returns err.
Proof.
  rewrite doHandleConnection_unfold.
  destruct (serve_returns w) as [o Ho].
  destruct (sema_try w); [|destruct (sema_acquire w)]; simpl;
    rewrite ?Ho; eauto.
Qed.

(** *** Greeting and admission *)

(** The trace of the handler: the admission, and after a successful
    one the prompt and the rest of the body. *)
Lemma doHandleConnection_trace (w : World) :
  exists rest,
    (doHandleConnection w).1 =
      SemaTryAcquire (sema_try w)
        :: (if sema_try w then []
            else [ConnWrite waiting; SemaAcquire (sema_acquire w)])
        ++ (if admitted w then ConnWrite "Enter task name: " :: rest else [])
    /\ exists body, rest = body ++ [SemaRelease]
                    /\ Forall (fun ev => serve_event ev = true) body.
Proof.
  rewrite doHandleConnection_unfold. unfold admitted.
  destruct (serve_prompt w) as (rest & -> & Hrest).
  exists (rest ++ [SemaRelease]). split; [|eauto].
  destruct (sema_try w); [|destruct (sema_acquire w)]; reflexivity.
Qed.

(** C6: the admission comes first.  The trace of the handler starts
    with the non-blocking acquisition, followed when it fails by the
    waiting notice and the blocking acquisition; the prompt is written
    after that, exactly when the connection got its slot, and no
    acquisition is attempted after the prompt.  So every prompt comes
    after a successful acquisition. *)
Theorem prompt_follows_admission (w : World) :
  (exists rest,
      (doHandleConnection w).1 =
        SemaTryAcquire (sema_try w)
          :: (if sema_try w then []
              else [ConnWrite waiting; SemaAcquire (sema_acquire w)])
          ++ (if admitted w then ConnWrite "Enter task name: " :: rest else [])
      /\ Forall (fun ev => is_attempt ev = false) rest)
  /\ preceded_by is_acquired (is_write "Enter task name: ")
                 (doHandleConnection w).1.
Proof.
  destruct (doHandleConnection_trace w) as (rest & Htrace & body & -> & Hbody).
  split.
  - exists (body ++ [SemaRelease]). split; [exact Htrace|].
    apply Forall_app. split; [|repeat constructor].
    eapply Forall_impl; [exact Hbody|].
    intros [] Hev; simpl in *; congruence.
  - rewrite Htrace. unfold admitted. intros j ev Hj Hq.
    destruct (sema_try w) eqn:Htry; simpl in *.
    + destruct j as [|j]; simpl in Hj; [injection Hj as <-; discriminate|].
      exists 0%nat, (SemaTryAcquire true). split; [lia|]. split; reflexivity.
    + destruct (sema_acquire w) as [e|] eqn:Hacq; simpl in *.
      * destruct j as [|[|[|j]]]; simpl in Hj;
          try (injection Hj as <-; discriminate).
        discriminate.
      * destruct j as [|[|[|j]]]; simpl in Hj;
          try (injection Hj as <-; discriminate).
        exists 2%nat, (SemaAcquire None). split; [lia|]. split; reflexivity.
Qed.

(** *** The admission semaphore *)

Lemma count_app (p : Event -> bool) (t1 t2 : list Event) :
  count p (t1 ++ t2) = (count p t1 + count p t2)%Z.
Proof. unfold count. rewrite filter_app, length_app. lia. Qed.

Lemma count_cons (p : Event -> bool) (ev : Event) (t : list Event) :
  count p (ev :: t) = ((if p ev then 1 else 0) + count p t)%Z.
Proof.
  unfold count. rewrite filter_cons.
  destruct (decide (Is_true (p ev))) as [Hd|Hd].
  - apply Is_true_true in Hd. rewrite Hd, length_cons. lia.
  - apply Is_true_false in Hd. rewrite Hd. lia.
Qed.

Lemma count_nil (p : Event -> bool) : count p [] = 0%Z.
Proof. reflexivity. Qed.

Lemma count_nonneg (p : Event -> bool) (t : list Event) : (0 <= count p t)%Z.
Proof. unfold count. lia. Qed.

Lemma filter_sema_serve (t : list Event) :
  Forall (fun ev => serve_event ev = true) t ->
  filter (fun ev => Is_true (is_sema ev)) t = [].
Proof.
  induction 1 as [|ev t Hev _ IH]; [reflexivity|].
  rewrite filter_cons, IH.
  destruct (decide _) as [Hd|Hd]; [|reflexivity].
  destruct ev; simpl in *; try discriminate; tauto.
Qed.

(** The semaphore events of a whole call: one release after a
    successful acquisition, none after a failed one. *)
Lemma handleConnection_sema (w : World) (connID : Z) :
  filter (fun ev => Is_true (is_sema ev)) (handleConnection w connID) =
    SemaTryAcquire (sema_try w)
      :: (if sema_try w then [SemaRelease]
          else SemaAcquire (sema_acquire w)
                 :: match sema_acquire w with
                    | Some _ => []
                    | None => [SemaRelease]
                    end).
Proof.
  unfold Crashme.handleConnection.
  pose proof (doHandleConnection_unfold w) as Hu.
  destruct (doHandleConnection_returns w) as [err Herr].
  pose proof (filter_sema_serve _ (serve_events w)) as Hfil.
  destruct (Crashme.doHandleConnection TrimSpace c w) as [t r].
  simpl in Herr. subst r.
  destruct (sema_try w); [|destruct (sema_acquire w) as [e|]];
    injection Hu as -> Hr; destruct err; simpl;
    repeat (rewrite ?filter_cons, ?filter_app, ?Hfil, ?filter_nil; simpl);
    reflexivity.
Qed.

Lemma count_filter_sema (p : Event -> bool) (t : list Event) :
  (forall ev, p ev = true -> is_sema ev = true) ->
  count p (filter (fun ev => Is_true (is_sema ev)) t) = count p t.
Proof.
  intros Hp. induction t as [|ev t IH]; [reflexivity|].
  rewrite filter_cons, count_cons.
  destruct (decide (Is_true (is_sema ev))) as [Hd|Hd].
  - rewrite count_cons, IH. reflexivity.
  - rewrite IH. destruct (p ev) eqn:Hev; [|lia].
    apply Hp in Hev. rewrite Hev in Hd. simpl in Hd. tauto.
Qed.

Lemma acquired_is_sema ev : is_acquired ev = true -> is_sema ev = true.
Proof. destruct ev; simpl; intros; try reflexivity; discriminate. Qed.

Lemma release_is_sema ev : is_release ev = true -> is_sema ev = true.
Proof. destruct ev; simpl; intros; try reflexivity; discriminate. Qed.

Lemma failed_is_sema ev : is_acquire_failed ev = true -> is_sema ev = true.
Proof. destruct ev; simpl; intros; try reflexivity; discriminate. Qed.

(** The account of one handler at any point of its run. *)
Lemma handler_account (d td : list Event) (w : World) (connID : Z) :
  d ++ td = handleConnection w connID ->
  (0 <= count is_release d <= count is_acquired d)%Z /\
  (count is_acquired d <= 1)%Z /\
  (count is_acquired (d ++ td) = if admitted w then 1 else 0)%Z /\
  (count is_release (d ++ td) = if admitted w then 1 else 0)%Z /\
  (0 < count is_acquire_failed d -> admitted w = false)%Z /\
  (forall ev rest, td = ev :: rest -> is_acquired ev = true ->
                   count is_acquired d = 0%Z) /\
  (forall ev rest, td = ev :: rest -> is_release ev = true ->
                   held d = 1%Z).
Proof.
  intros Hsplit. unfold held, admitted.
  pose proof (handleConnection_sema w connID) as Hsema.
  rewrite <- Hsplit in Hsema. rewrite filter_app in Hsema.
  rewrite !count_app.
  rewrite <- (count_filter_sema is_acquired d acquired_is_sema).
  rewrite <- (count_filter_sema is_release d release_is_sema).
  rewrite <- (count_filter_sema is_acquire_failed d failed_is_sema).
  rewrite <- (count_filter_sema is_acquired td acquired_is_sema).
  rewrite <- (count_filter_sema is_release td release_is_sema).
  assert (Hhead : forall ev rest, td = ev :: rest -> is_sema ev = true ->
            exists rest', filter (fun ev => Is_true (is_sema ev)) td = ev :: rest').
  { intros ev rest -> Hev. rewrite filter_cons.
    destruct (decide _) as [Hd|Hd]; [eauto|].
    rewrite Hev in Hd. simpl in Hd. tauto. }
  set (sd := filter (fun ev => Is_true (is_sema ev)) d) in *.
  set (std := filter (fun ev => Is_true (is_sema ev)) td) in *.
  clearbody sd std.
  assert (Hacq : forall ev rest, td = ev :: rest -> is_acquired ev = true ->
            exists rest', std = ev :: rest')
    by (intros; eapply Hhead; eauto using acquired_is_sema).
  assert (Hrel : forall ev rest, td = ev :: rest -> is_release ev = true ->
            exists rest', std = ev :: rest')
    by (intros; eapply Hhead; eauto using release_is_sema).
  clear Hhead Hsplit.
  destruct (sema_try w); [|destruct (sema_acquire w) as [e|]]; simpl in *;
    destruct sd as [|e1 [|e2 [|e3 [|e4 sd]]]]; simpl in Hsema; simplify_eq;
    repeat (rewrite ?count_cons, ?count_nil; simpl);
    (split; [lia|]); (split; [lia|]); (split; [lia|]); (split; [lia|]);
    (split; [try lia; reflexivity|]);
    (split; intros ev rest Htd Hev;
      [destruct (Hacq _ _ Htd Hev) as [rest' Hrest']
      |destruct (Hrel _ _ Htd Hev) as [rest' Hrest']];
      simplify_eq; simpl in *; try discriminate; try lia).
Qed.

Lemma slots_held_insert (hs : list Handler) :
  forall (i : nat) (h h' : Handler),
    hs !! i = Some h ->
    foldr (fun h acc => (held (done h) + acc)%Z) 0%Z (<[i := h']> hs) =
      (foldr (fun h acc => (held (done h) + acc)%Z) 0%Z hs
       - held (done h) + held (done h'))%Z.
Proof.
  induction hs as [|h0 hs IH]; intros i h h' Hi; [discriminate|].
  destruct i as [|i]; simpl in *.
  - injection Hi as ->. ring.
  - rewrite (IH i h h' Hi). ring.
Qed.

Lemma slots_held_nonneg (hs : list Handler) :
  Forall (runs_handler TrimSpace c) hs ->
  (0 <= foldr (fun h acc => (held (done h) + acc)%Z) 0%Z hs)%Z.
Proof.
  induction 1 as [|h hs [conn Hh] _ IH]; simpl; [lia|].
  destruct (handler_account _ _ _ _ Hh) as (Hr & _).
  assert (0 <= held (done h))%Z by (unfold held; lia). lia.
Qed.

Lemma slots_held_finished (hs : list Handler) :
  Forall (runs_handler TrimSpace c) hs ->
  Forall (fun h => todo h = []) hs ->
  foldr (fun h acc => (held (done h) + acc)%Z) 0%Z hs = 0%Z.
Proof.
  induction 1 as [|h hs [conn Hh] _ IH]; intros Hfin; simpl; [reflexivity|].
  apply Forall_cons in Hfin as [Hh0 Hfin]. rewrite (IH Hfin).
  destruct (handler_account _ _ _ _ Hh) as (_ & _ & Ha & Hr & _).
  rewrite Hh0, app_nil_r in Ha, Hr.
  assert (held (done h) = 0)%Z by (unfold held; lia). lia.
Qed.

Lemma initial_balanced (capacity : Z) (conns : list (World * Z)) :
  (0 <= capacity)%Z -> balanced TrimSpace c capacity (initial TrimSpace c capacity conns).
Proof.
  intros Hcap. unfold balanced, initial, slots_held. simpl.
  split; [reflexivity|]. split; [exact Hcap|]. split.
  - induction conns as [|conn conns IH]; simpl; [reflexivity|].
    rewrite <- IH. reflexivity.
  - apply Forall_fmap, Forall_forall. intros conn _. exists conn. reflexivity.
Qed.

Lemma step_balanced (capacity : Z) (sys sys' : System) :
  balanced TrimSpace c capacity sys -> step sys sys' -> balanced TrimSpace c capacity sys'.
Proof.
  intros (Hsize & Hle & Hcur & Hrun) Hstep.
  destruct Hstep as [i d rest ev s' Hi Happ].
  assert (Hh : runs_handler TrimSpace c {| done := d; todo := ev :: rest |}).
  { eapply Forall_lookup_1 in Hrun; eauto. }
  destruct Hh as [conn Hh]. simpl in Hh.
  assert (Hrun' : Forall (runs_handler TrimSpace c)
                    (<[i := {| done := d ++ [ev]; todo := rest |}]> (handlers sys))).
  { apply Forall_insert; [exact Hrun|]. exists conn. simpl.
    rewrite <- Hh, <- app_assoc. reflexivity. }
  unfold balanced, slots_held in *. simpl.
  rewrite (slots_held_insert _ _ _ _ Hi). simpl.
  unfold held at 2 3. rewrite !count_app, !count_cons, !count_nil.
  destruct (handler_account _ _ _ _ Hh) as (_ & _ & _ & _ & _ & Hacq & Hrel).
  unfold sema_apply in Happ.
  destruct ev as [[]|[e|]| | | | | | | | | | | | | | | |]; simpl in *;
    try (destruct (Z.ltb_spec (cur (sema sys)) (size (sema sys))); [|discriminate]);
    simplify_eq; simpl; repeat split; try done; unfold held in *; lia.
Qed.

Lemma reachable_balanced (capacity : Z) (conns : list (World * Z)) (sys : System) :
  (0 <= capacity)%Z ->
  reachable TrimSpace c capacity conns sys ->
  balanced TrimSpace c capacity sys.
Proof.
  intros Hcap Hreach. unfold reachable in Hreach.
  eapply (rtc_ind_r (balanced TrimSpace c capacity)); [| |exact Hreach].
  - apply initial_balanced. exact Hcap.
  - intros y z _ Hstep Hy. eapply step_balanced; eauto.
Qed.

(** C2: the admission slot is released exactly once when its
    acquisition succeeded and never otherwise.  One call of the handler
    contains one successful acquisition and one release when the
    connection is admitted, and neither when it is not.  In every state
    the gateway reaches from a free semaphore of capacity [capacity],
    whatever the interleaving of its handlers, the counter of the
    semaphore is the number of slots the handlers hold, between zero
    and the capacity; no handler holds more than one slot or has
    released more than it acquired; a handler that has finished holds
    none, and when all have finished the counter is back at its first
    value; a handler whose blocking acquisition failed never acquires
    and never releases. *)
Theorem admission_slot_released_once
        (capacity : Z) (conns : list (World * Z)) (sys : System) :
  (0 <= capacity)%Z ->
  reachable TrimSpace c capacity conns sys ->
  (forall (w : World) (connID : Z),
      count is_acquired (handleConnection w connID) = (if admitted w then 1 else 0)%Z /\
      count is_release (handleConnection w connID) = (if admitted w then 1 else 0)%Z) /\
  size (sema sys) = capacity /\
  (0 <= cur (sema sys) <= capacity)%Z /\
  cur (sema sys) = slots_held sys /\
  (Forall (fun h => todo h = []) (handlers sys) -> cur (sema sys) = 0%Z) /\
  Forall (fun h =>
            (0 <= count is_release (done h) <= count is_acquired (done h))%Z /\
            (count is_acquired (done h) <= 1)%Z /\
            (todo h = [] -> held (done h) = 0%Z) /\
            (Exists (fun ev => is_acquire_failed ev = true) (done h) ->
             count is_acquired (done h ++ todo h) = 0%Z /\
             count is_release (done h ++ todo h) = 0%Z))
         (handlers sys).
Proof.
  intros Hcap Hreach.
  destruct (reachable_balanced _ _ _ Hcap Hreach) as (Hsize & Hle & Hcur & Hrun).
  split.
  { intros w connID.
    destruct (handler_account [] _ w connID eq_refl) as (_ & _ & Ha & Hr & _).
    simpl in Ha, Hr. auto. }
  split; [exact Hsize|]. split.
  { split; [|exact Hle]. rewrite Hcur. apply slots_held_nonneg. exact Hrun. }
  split; [exact Hcur|]. split.
  { intros Hfin. rewrite Hcur. apply slots_held_finished; assumption. }
  eapply Forall_impl; [exact Hrun|].
  intros h [conn Hh].
  destruct (handler_account _ _ _ _ Hh) as (Hr & Ha1 & Ha & Hrel & Hfail & _).
  split; [exact Hr|]. split; [exact Ha1|]. split.
  - intros Htodo. rewrite Htodo, app_nil_r in Ha, Hrel. unfold held. lia.
  - intros Hex. rewrite Ha, Hrel.
    assert (Hpos : (0 < count is_acquire_failed (done h))%Z).
    { clear -Hex. induction Hex as [ev t Hev|ev t _ IH].
      - rewrite count_cons, Hev. pose proof (count_nonneg is_acquire_failed t). lia.
      - rewrite count_cons. destruct (is_acquire_failed ev); lia. }
    rewrite (Hfail Hpos). split; reflexivity.
Qed.

(** *** The first line *)

Lemma length_append (s1 s2 : string) :
  String.length (s1 +:+ s2) = (String.length s1 + String.length s2)%nat.
Proof. induction s1 as [|b s1 IH]; simpl; [reflexivity|]. rewrite IH. reflexivity. Qed.

Lemma no_newline_cons (b : ascii) (s : string) :
  Contains (String b s) nl = false ->
  Ascii.eqb b newline = false /\ Contains s nl = false.
Proof.
  simpl. unfold HasPrefix. simpl.
  intros Hc. apply orb_false_iff in Hc as [Hb Hs]. split; [|exact Hs].
  destruct (ascii_dec newline b) as [<-|Hne].
  - destruct s; discriminate.
  - apply Ascii.eqb_neq. congruence.
Qed.

(** One turn of the loop, by what [Read] gives. *)
Lemma loop_read_byte {R : Type} `{Reader R} (fuel : nat) (rd rd' : R)
      (str : string) (buf0 b : ascii) :
  Ascii.eqb buf0 newline = false ->
  Read1 rd buf0 = ((1%Z, b, None), rd') ->
  slowReadFirstLine_loop TrimSpace (S fuel) rd str buf0 =
    slowReadFirstLine_loop TrimSpace fuel rd' (str +:+ String b "") b.
Proof. intros Hbuf Hread. simpl. rewrite Hbuf, Hread. reflexivity. Qed.

Lemma loop_read_error {R : Type} `{Reader R} (fuel : nat) (rd rd' : R)
      (str : string) (buf0 b : ascii) (n : Z) (e : error) :
  Ascii.eqb buf0 newline = false ->
  Read1 rd buf0 = ((n, b, Some e), rd') ->
  slowReadFirstLine_loop TrimSpace (S fuel) rd str buf0 =
    Some (("", Some
             (if is_EOF e
              then errorString
                     (if (Z.of_nat (String.length str) =? MAX_FIRST_LINE_SIZE)%Z
                      then "too long first line" else "EOF before new line")
              else e)), rd').
Proof.
  intros Hbuf Hread. simpl. rewrite Hbuf, Hread. simpl.
  destruct (is_EOF e); simpl; [|reflexivity].
  destruct (Z.of_nat (String.length str) =? MAX_FIRST_LINE_SIZE)%Z; reflexivity.
Qed.

(** [Read] on the two limits around the connection. *)
Lemma read_through {R : Type} `{Reader R} (rd : R) (N : Z) (buf0 : ascii) :
  (0 < N)%Z ->
  Read1 (LimitReader rd N) buf0 =
    (let '((n, b, err), r') := Read1 rd buf0 in
     ((n, b, err), LimitReader r' (N - n))).
Proof.
  intros HN. unfold Read1 at 1, LimitedReader_Reader. simpl.
  destruct (Z.leb_spec N 0); [lia|reflexivity].
Qed.

Lemma read_byte (b : ascii) (s : string) (closing : error) (N M : Z)
      (buf0 : ascii) :
  (0 < N)%Z -> (0 < M)%Z ->
  Read1 (LimitReader (LimitReader {| pending := String b s; closing := closing |} M) N)
        buf0
  = ((1%Z, b, None),
     LimitReader (LimitReader {| pending := s; closing := closing |} (M - 1)) (N - 1)).
Proof.
  intros HN HM. rewrite read_through by exact HN.
  rewrite read_through by exact HM. reflexivity.
Qed.

Lemma read_closing (closing : error) (N M : Z) (buf0 : ascii) :
  (0 < N)%Z -> (0 < M)%Z ->
  Read1 (LimitReader (LimitReader {| pending := ""; closing := closing |} M) N) buf0
  = ((0%Z, buf0, Some closing),
     LimitReader (LimitReader {| pending := ""; closing := closing |} (M - 0)) (N - 0)).
Proof.
  intros HN HM. rewrite read_through by exact HN.
  rewrite read_through by exact HM. reflexivity.
Qed.

Lemma read_limit {R : Type} `{Reader R} (rd : R) (N : Z) (buf0 : ascii) :
  (N <= 0)%Z ->
  Read1 (LimitReader rd N) buf0 = ((0%Z, buf0, Some EOF), LimitReader rd N).
Proof.
  intros HN. unfold Read1 at 1, LimitedReader_Reader. simpl.
  destruct (Z.leb_spec N 0); [reflexivity|lia].
Qed.

(** A line that fills the inner limit without a newline. *)
Lemma loop_limit_reached (line : string) :
  forall (rest : string) (closing : error) (N M : Z) (str : string)
         (buf0 : ascii) (fuel : nat),
    Contains line nl = false ->
    Ascii.eqb buf0 newline = false ->
    N = Z.of_nat (String.length line) ->
    (N <= M)%Z ->
    (String.length line < fuel)%nat ->
    exists rd,
      slowReadFirstLine_loop TrimSpace fuel
        (LimitReader (LimitReader {| pending := line +:+ rest; closing := closing |} M) N)
        str buf0
      = Some (("", Some (errorString
                 (if (Z.of_nat (String.length str + String.length line)
                      =? MAX_FIRST_LINE_SIZE)%Z
                  then "too long first line" else "EOF before new line"))), rd).
Proof.
  induction line as [|b line IH]; intros rest closing N M str buf0 fuel
    Hnl Hbuf HN HM Hfuel; (destruct fuel as [|fuel]; [simpl in Hfuel; lia|]);
    simpl in HN.
  - erewrite loop_read_error; [|exact Hbuf|apply read_limit; lia].
    simpl. rewrite Nat.add_0_r. eauto.
  - apply no_newline_cons in Hnl as [Hb Hnl].
    change (String b line +:+ rest) with (String b (line +:+ rest)).
    erewrite loop_read_byte; [|exact Hbuf|apply read_byte; lia].
    destruct (IH rest closing (N - 1)%Z (M - 1)%Z (str +:+ String b "") b fuel
                Hnl Hb ltac:(lia) ltac:(lia) ltac:(simpl in Hfuel; lia)) as [rd Hrd].
    rewrite Hrd. rewrite length_append. simpl.
    replace (String.length str + 1 + String.length line)%nat
      with (String.length str + S (String.length line))%nat by lia.
    eauto.
Qed.

(** An input that ends before the inner limit without a newline. *)
Lemma loop_input_ends (s : string) :
  forall (closing : error) (N M : Z) (str : string) (buf0 : ascii) (fuel : nat),
    Contains s nl = false ->
    Ascii.eqb buf0 newline = false ->
    (Z.of_nat (String.length s) < N <= M)%Z ->
    (String.length s < fuel)%nat ->
    exists rd,
      slowReadFirstLine_loop TrimSpace fuel
        (LimitReader (LimitReader {| pending := s; closing := closing |} M) N)
        str buf0
      = Some (("", Some
                 (if is_EOF closing
                  then errorString
                         (if (Z.of_nat (String.length str + String.length s)
                              =? MAX_FIRST_LINE_SIZE)%Z
                          then "too long first line" else "EOF before new line")
                  else closing)), rd).
Proof.
  induction s as [|b s IH]; intros closing N M str buf0 fuel
    Hnl Hbuf HN Hfuel; (destruct fuel as [|fuel]; [simpl in Hfuel; lia|]);
    simpl in HN.
  - erewrite loop_read_error; [|exact Hbuf|apply read_closing; lia].
    simpl. rewrite Nat.add_0_r. eauto.
  - apply no_newline_cons in Hnl as [Hb Hnl].
    erewrite loop_read_byte; [|exact Hbuf|apply read_byte; lia].
    destruct (IH closing (N - 1)%Z (M - 1)%Z (str +:+ String b "") b fuel
                Hnl Hb ltac:(lia) ltac:(simpl in Hfuel; lia)) as [rd Hrd].
    rewrite Hrd. rewrite length_append. simpl.
    replace (String.length str + 1 + String.length s)%nat
      with (String.length str + S (String.length s))%nat by lia.
    eauto.
Qed.

Lemma serve_first_line_error (w : World) (task : string) (e : error)
      (rd : LimitedReader (LimitedReader ConnIn)) :
  slowReadFirstLine TrimSpace first_line_fuel
    (LimitReader (LimitReader (conn_in w) MAX_INPUT_SIZE) MAX_FIRST_LINE_SIZE)
  = Some ((task, Some e), rd) ->
  serve w = ([ConnWrite "Enter task name: "],
             inr (Returns (Some (Errorf_w "failed to read first line: " e)))).
Proof.
  intros Hread. unfold Crashme.serve, Crashme.prepare. rewrite Hread. reflexivity.
Qed.

(** C8: a first line of 100 bytes without a newline, and an input
    that ends before any newline, are refused.  The handler, once
    admitted, returns the error [failed to read first line: ...] with
    [too long first line] in the first case and [EOF before new line]
    in the second; no submission file is created and no command
    started; the last things done for the connection are the error
    message and the close. *)
Theorem first_line_rejected (w : World) (connID : Z) (msg : string) :
  admitted w = true ->
  ((exists line rest,
       pending (conn_in w) = line +:+ rest /\
       Z.of_nat (String.length line) = MAX_FIRST_LINE_SIZE /\
       Contains line nl = false) /\
   msg = "too long first line")
  \/ (Contains (pending (conn_in w)) nl = false /\
      (Z.of_nat (String.length (pending (conn_in w))) < MAX_FIRST_LINE_SIZE)%Z /\
      closing (conn_in w) = EOF /\
      msg = "EOF before new line") ->
  (doHandleConnection w).2 =
    Returns (Some (Errorf_w "failed to read first line: " (errorString msg))) /\
  Forall (fun ev => starts_work ev = false) (handleConnection w connID) /\
  exists before,
    handleConnection w connID =
      before ++ [ConnWrite ("Error: failed to read first line: " +:+ msg +:+ nl);
                 ConnClose; Log (LogClosedConnection connID)].
Proof.
  intros Hadm Hcase.
  assert (Hread : exists rd,
    slowReadFirstLine TrimSpace first_line_fuel
      (LimitReader (LimitReader (conn_in w) MAX_INPUT_SIZE) MAX_FIRST_LINE_SIZE)
    = Some (("", Some (errorString msg)), rd)).
  { unfold slowReadFirstLine. destruct (conn_in w) as [input closing]. simpl in Hcase.
    destruct Hcase as [[(line & rest & -> & Hlen & Hnl) ->]
                      |(Hnl & Hlen & -> & ->)].
    - destruct (loop_limit_reached line rest closing MAX_FIRST_LINE_SIZE
                  MAX_INPUT_SIZE "" " "%char first_line_fuel Hnl eq_refl)
        as [rd Hrd].
      + symmetry. exact Hlen.
      + unfold MAX_FIRST_LINE_SIZE, MAX_INPUT_SIZE. lia.
      + unfold first_line_fuel. unfold MAX_FIRST_LINE_SIZE in *. lia.
      + exists rd. rewrite Hrd. simpl String.length. rewrite Nat.add_0_l, Hlen.
        reflexivity.
    - destruct (loop_input_ends input EOF MAX_FIRST_LINE_SIZE MAX_INPUT_SIZE
                  "" " "%char first_line_fuel Hnl eq_refl) as [rd Hrd].
      + unfold MAX_FIRST_LINE_SIZE, MAX_INPUT_SIZE in *. lia.
      + unfold first_line_fuel. unfold MAX_FIRST_LINE_SIZE in *. lia.
      + exists rd. rewrite Hrd. simpl String.length. rewrite Nat.add_0_l. simpl is_EOF.
        cbv iota.
        destruct (Z.eqb_spec (Z.of_nat (String.length input)) MAX_FIRST_LINE_SIZE);
          [lia|reflexivity]. }
  destruct Hread as [rd Hread].
  pose proof (serve_first_line_error w _ _ _ Hread) as Hserve.
  pose proof (doHandleConnection_unfold w) as Hu.
  unfold Crashme.handleConnection.
  destruct (Crashme.doHandleConnection TrimSpace c w) as [t r].
  unfold admitted in Hadm. rewrite Hserve in Hu.
  destruct (sema_try w); [|destruct (sema_acquire w) as [e|]; [discriminate|]];
    injection Hu as -> ->; simpl;
    (split; [reflexivity|]); (split; [repeat constructor|]).
  - exists [Log (LogNewConnection connID); SemaTryAcquire true;
            ConnWrite "Enter task name: "; SemaRelease;
            Log (LogHandleFailed
                   (Errorf_w "failed to read first line: " (errorString msg)))].
    reflexivity.
  - exists [Log (LogNewConnection connID); SemaTryAcquire false;
            ConnWrite waiting; SemaAcquire None;
            ConnWrite "Enter task name: "; SemaRelease;
            Log (LogHandleFailed
                   (Errorf_w "failed to read first line: " (errorString msg)))].
    reflexivity.
Qed.

(** *** The three stages of the body *)

Lemma Retry_kind (task : string) (b : Backoff.ExponentialBackOff)
      (attempt : HttpOutcome) (rounds : list (Tick * HttpOutcome)) :
  Forall (fun ev => classify_event ev = true) (Retry task b attempt rounds).1.
Proof.
  unfold Retry. generalize (Backoff.Reset b). clear b.
  revert attempt.
  induction rounds as [|[tick retry] rounds IH]; intros attempt b;
    cbn [Retry_loop].
  - destruct attempt as [e|e|e|e|[] f m]; simpl; repeat constructor.
  - destruct (Backoff.NextBackOff b (elapsed tick) (random tick)) as [next b'].
    specialize (IH retry b').
    destruct (Retry_loop task b' retry rounds) as [t' r].
    destruct attempt as [e|e|e|e|[] f m]; simpl in *;
      try destruct (next =? Backoff.Stop)%Z; simpl;
      repeat (constructor; try done).
Qed.

Lemma run_kind (w : World) (path : string) :
  Forall (fun ev => run_event ev = true) (run w path).1.
Proof.
  unfold run, handleStdin, handleStdout, handleStderr.
  destruct (start_err w); simpl; [repeat constructor|].
  destruct (stdin_eof_before_exit w); simpl; [|repeat constructor].
  repeat (constructor; try done).
  case_bool_decide; simpl; repeat constructor.
Qed.

Lemma isRegularFile_kind (w : World) (path : string) :
  Forall (fun ev => prepare_event ev = true) (isRegularFile w path).1.
Proof.
  unfold isRegularFile. destruct (fs_stat w path); repeat constructor.
Qed.

Ltac kinds :=
  repeat first
    [ rewrite newCommandProxy_events
    | rewrite app_nil_r
    | apply Forall_nil_2
    | apply Forall_cons; split; [reflexivity|]
    | apply Forall_app; split
    | apply Retry_kind | apply isRegularFile_kind ].

Lemma classify_kind (w : World) (task path : string) (err : option error) :
  Forall (fun ev => classify_event ev = true) (classify w task path err).1.
Proof. unfold classify, fetchFlag. proc_run; kinds. Qed.

Lemma prepare_kind (w : World) :
  Forall (fun ev => prepare_event ev = true) (prepare w).1.
Proof. unfold Crashme.prepare. proc_run; kinds. Qed.

Lemma run_start (w : World) (path path' : string) :
  CmdStart path' ∈ (run w path).1 -> path' = path.
Proof.
  unfold run, handleStdin, handleStdout, handleStderr.
  destruct (start_err w); simpl.
  - intros Hin. apply list_elem_of_singleton in Hin. congruence.
  - intros Hin. apply elem_of_cons in Hin as [Hin|Hin]; [congruence|].
    exfalso. revert Hin.
    destruct (stdin_eof_before_exit w); simpl;
      [case_bool_decide; simpl|];
      intros Hin; repeat (apply elem_of_cons in Hin as [Hin|Hin]; [discriminate|]);
      inversion Hin.
Qed.



Lemma prepare_event_quiet (ev : Event) :
  prepare_event ev = true -> is_fetch ev = false /\ is_start ev = false.
Proof.
  destruct ev as [| | | | | | | | | | | | | | | | |[]]; simpl; intros;
    split; congruence.
Qed.

Lemma run_event_not_fetch (ev : Event) :
  run_event ev = true -> is_fetch ev = false.
Proof.
  destruct ev as [| | | | | | | | | | | | | | | | |[]]; simpl; congruence.
Qed.


(** The trace of the handler is the admission and the preparation,
    and, when the preparation gets to the end, the run of the command,
    its classification and the release. *)
Lemma doHandleConnection_parts (w : World) :
  exists adm tail,
    (doHandleConnection w).1 = adm ++ tail /\
    Forall (fun ev => is_fetch ev = false /\ is_start ev = false) adm /\
    (tail = [] \/
     exists started,
       (prepare w).2 = inl started /\
       tail = (run w started.2).1
                ++ (classify w started.1 started.2 (run w started.2).2).1
                ++ [SemaRelease] /\
       (doHandleConnection w).2 =
         match (classify w started.1 started.2 (run w started.2).2).2 with
         | inl _ => Returns None
         | inr o => o
         end).
Proof.
  rewrite doHandleConnection_unfold.
  pose proof (prepare_kind w) as Hprep.
  assert (Hq : Forall (fun ev => is_fetch ev = false /\ is_start ev = false)
                      (prepare w).1).
  { eapply Forall_impl; [exact Hprep|]. apply prepare_event_quiet. }
  rewrite serve_trace, serve_result.
  destruct (sema_try w); [|destruct (sema_acquire w) as [e|]]; simpl.
  - destruct (Crashme.prepare TrimSpace c w).2 as [started|o] eqn:Hp.
    + exists (SemaTryAcquire true :: (prepare w).1), 
        ((run w started.2).1
           ++ (classify w started.1 started.2 (run w started.2).2).1
           ++ [SemaRelease]).
      split; [rewrite <- !app_assoc; reflexivity|].
      split; [constructor; [split; reflexivity|exact Hq]|].
      right. exists started. auto.
    + exists (SemaTryAcquire true :: (prepare w).1 ++ [SemaRelease]), [].
      split; [rewrite !app_nil_r; reflexivity|].
      split; [|left; reflexivity].
      constructor; [split; reflexivity|].
      apply Forall_app. split; [exact Hq|repeat constructor].
  - exists [SemaTryAcquire false; ConnWrite waiting; SemaAcquire (Some e)], [].
    split; [reflexivity|]. split; [repeat constructor|left; reflexivity].
  - destruct (Crashme.prepare TrimSpace c w).2 as [started|o] eqn:Hp.
    + exists (SemaTryAcquire false :: ConnWrite waiting :: SemaAcquire None
                :: (prepare w).1), 
        ((run w started.2).1
           ++ (classify w started.1 started.2 (run w started.2).2).1
           ++ [SemaRelease]).
      split; [rewrite <- !app_assoc; reflexivity|].
      split; [repeat (constructor; [split; reflexivity|]); exact Hq|].
      right. exists started. auto.
    + exists (SemaTryAcquire false :: ConnWrite waiting :: SemaAcquire None
                :: (prepare w).1 ++ [SemaRelease]), [].
      split; [rewrite !app_nil_r; reflexivity|].
      split; [|left; reflexivity].
      repeat (constructor; [split; reflexivity|]).
      apply Forall_app. split; [exact Hq|repeat constructor].
Qed.


(** *** The flag client and its report *)


Lemma Retry_loop_again (task : string) (b : Backoff.ExponentialBackOff)
      (attempt retry : HttpOutcome) (tick : Tick)
      (rounds : list (Tick * HttpOutcome)) (e : error) :
  (doFetchFlag task attempt).2.2 = Some e ->
  (Backoff.NextBackOff b (elapsed tick) (random tick)).1 <> Backoff.Stop ->
  Retry_loop task b attempt ((tick, retry) :: rounds) =
    ((doFetchFlag task attempt).1
       ++ [Log (LogFetchAttempt (Some e));
           BackoffWait (Backoff.NextBackOff b (elapsed tick) (random tick)).1]
       ++ (Retry_loop task
             (Backoff.NextBackOff b (elapsed tick) (random tick)).2
             retry rounds).1,
     (Retry_loop task (Backoff.NextBackOff b (elapsed tick) (random tick)).2
                 retry rounds).2).
Proof.
  intros He Hnext. cbn [Retry_loop].
  destruct (doFetchFlag task attempt) as [t [flag err]]. simpl in He. subst err.
  destruct (Backoff.NextBackOff b (elapsed tick) (random tick)) as [next b'].
  cbn [fst snd] in *. apply Z.eqb_neq in Hnext. rewrite Hnext.
  destruct (Retry_loop task b' retry rounds) as [t' r]. cbn [fst snd].
  rewrite <- app_assoc. reflexivity.
Qed.










(** *** The input task of the proxy *)

Lemma run_result_signal (w : World) (path : string) (err : option error) :
  (run (with_signal err w) path).2 = (run w path).2.
Proof. unfold run. simpl. destruct (start_err w); reflexivity. Qed.

Lemma prepare_signal (w : World) (err : option error) :
  prepare (with_signal err w) = prepare w.
Proof. reflexivity. Qed.

Lemma classify_signal (w : World) (err : option error) (task path : string)
      (r : option error) :
  classify (with_signal err w) task path r = classify w task path r.
Proof. reflexivity. Qed.

Lemma doHandleConnection_result_signal (w : World) (err : option error) :
  (doHandleConnection (with_signal err w)).2 = (doHandleConnection w).2.
Proof.
  rewrite !doHandleConnection_unfold, !serve_result.
  rewrite prepare_signal. simpl.
  destruct (sema_try w); [|destruct (sema_acquire w)]; simpl; try reflexivity;
    destruct (Crashme.prepare TrimSpace c w).2; try reflexivity;
    rewrite run_result_signal, classify_signal; reflexivity.
Qed.

(** *** Paths *)

Lemma append_assoc (s1 s2 s3 : string) : (s1 +:+ s2) +:+ s3 = s1 +:+ s2 +:+ s3.
Proof.
  induction s1 as [|b s1 IH]; [reflexivity|].
  change (String b ((s1 +:+ s2) +:+ s3) = String b (s1 +:+ s2 +:+ s3)).
  f_equal. exact IH.
Qed.

Lemma CutPrefix_append (pre rest : string) :
  CutPrefix (pre +:+ rest) pre = Some rest.
Proof.
  induction pre as [|b pre IH]; simpl; [destruct rest; reflexivity|].
  rewrite Ascii.eqb_refl. exact IH.
Qed.

Lemma contains_cons (ch b : ascii) (s : string) :
  Contains (String b s) (String ch "") = false <->
  Ascii.eqb b ch = false /\ Contains s (String ch "") = false.
Proof.
  simpl. unfold HasPrefix. simpl. rewrite orb_false_iff.
  destruct (ascii_dec ch b) as [<-|Hne].
  - rewrite Ascii.eqb_refl. split; [|intros [? _]; discriminate].
    intros [Hb _]. destruct s; discriminate.
  - assert (Ascii.eqb b ch = false) by (apply Ascii.eqb_neq; congruence).
    clear TrimSpace. tauto.
Qed.

Lemma Split_slash_plain (s : string) :
  Contains s "/" = false -> Split_slash s = [s].
Proof.
  induction s as [|b s IH]; [reflexivity|].
  intros Hs. apply contains_cons in Hs as [Hb Hs].
  simpl. rewrite Hb, (IH Hs). reflexivity.
Qed.

Lemma Split_slash_nonempty (s : string) : Split_slash s <> [].
Proof.
  destruct s as [|ch s]; simpl; [discriminate|].
  destruct (Ascii.eqb ch "/"); [discriminate|].
  destruct (Split_slash s); discriminate.
Qed.

Lemma Split_slash_append (a b : string) :
  Split_slash (a +:+ String "/" b) = Split_slash a ++ Split_slash b.
Proof.
  induction a as [|ch a IH]; simpl; [reflexivity|].
  destruct (Ascii.eqb ch "/"); rewrite IH; [reflexivity|].
  pose proof (Split_slash_nonempty a) as Hne.
  destruct (Split_slash a); [contradiction|reflexivity].
Qed.

Lemma ReplaceAll_char_plain (s : string) (old new ch : ascii) :
  Ascii.eqb new ch = false ->
  Contains s (String ch "") = false ->
  Contains (ReplaceAll s (String old "") (String new "")) (String ch "") = false.
Proof.
  intros Hnew. unfold ReplaceAll. induction s as [|b s IH]; [reflexivity|].
  intros Hs. apply contains_cons in Hs as [Hb Hs]. cbn [ReplaceAll_from].
  destruct (HasPrefix (String b s) (String old "")); cbn [String.length Nat.sub].
  - change (String new "" +:+ ReplaceAll_from 0 s (String old "") (String new ""))
      with (String new (ReplaceAll_from 0 s (String old "") (String new ""))).
    apply contains_cons. auto.
  - apply contains_cons. auto.
Qed.

Lemma Split_slash_elements (s : string) :
  Forall (fun e => Contains e "/" = false) (Split_slash s).
Proof.
  induction s as [|b s IH]; [repeat constructor|].
  simpl. destruct (Ascii.eqb b "/") eqn:Hb; [constructor; [reflexivity|exact IH]|].
  destruct (Split_slash s) as [|x xs]; [repeat constructor|].
  - apply contains_cons. split; [exact Hb|reflexivity].
  - apply Forall_cons in IH as [Hx Hxs]. constructor; [|exact Hxs].
    apply contains_cons. split; [exact Hb|exact Hx].
Qed.

Lemma real_dotdot : real_element "..".
Proof. repeat split; discriminate || reflexivity. Qed.

Lemma clean_step_real (rooted : bool) (kept : list string) (e : string) :
  Contains e "/" = false ->
  Forall real_element kept ->
  Forall real_element (clean_step rooted kept e).
Proof.
  intros He Hkept. unfold clean_step.
  destruct (String.eqb_spec e ""); [exact Hkept|].
  destruct (String.eqb_spec e "."); [exact Hkept|]. simpl.
  destruct (String.eqb_spec e "..") as [->|].
  - destruct kept as [|top rest].
    { destruct rooted; [constructor|]. constructor; [exact real_dotdot|constructor]. }
    apply Forall_cons in Hkept as [Htop Hrest].
    destruct (String.eqb top ".."); [|exact Hrest].
    destruct rooted; [constructor; assumption|].
    constructor; [exact real_dotdot|]. constructor; assumption.
  - constructor; [|exact Hkept]. repeat split; assumption.
Qed.

Lemma clean_elems_real (p : string) : Forall real_element (clean_elems p).
Proof.
  unfold clean_elems.
  assert (Hgen : forall (elems kept : list string),
             Forall (fun e => Contains e "/" = false) elems ->
             Forall real_element kept ->
             Forall real_element (fold_left (clean_step (is_rooted p)) elems kept)).
  { induction elems as [|e elems IH]; intros kept Hel Hkept; [exact Hkept|].
    apply Forall_cons in Hel as [He Hel]. simpl.
    apply IH; [exact Hel|]. apply clean_step_real; assumption. }
  apply Hgen; [apply Split_slash_elements|constructor].
Qed.

Lemma Join_slash_snoc (l : list string) (x : string) :
  Join_slash (l ++ [x]) =
    match l with
    | [] => x
    | _ :: _ => Join_slash l +:+ "/" +:+ x
    end.
Proof.
  induction l as [|a l IH]; [reflexivity|].
  destruct l as [|b l]; [reflexivity|].
  change (Join_slash ((a :: b :: l) ++ [x]))
    with (a +:+ "/" +:+ Join_slash ((b :: l) ++ [x])).
  rewrite IH.
  change (Join_slash (a :: b :: l)) with (a +:+ "/" +:+ Join_slash (b :: l)).
  rewrite !append_assoc. reflexivity.
Qed.

Lemma real_element_head (e : string) :
  real_element e ->
  exists b rest, e = String b rest /\ Ascii.eqb b "/" = false.
Proof.
  intros (Hne & _ & Hs). destruct e as [|b rest]; [contradiction|].
  apply contains_cons in Hs as [Hb _]. eauto.
Qed.

(** A joined list of real elements is not empty, not the root and
    not the dot. *)
Lemma Join_slash_real (l : list string) :
  l <> [] ->
  Forall real_element l ->
  exists b rest,
    Join_slash l = String b rest /\ Ascii.eqb b "/" = false /\
    Join_slash l <> ".".
Proof.
  intros Hne Hl. destruct l as [|x l]; [contradiction|].
  apply Forall_cons in Hl as [Hx _].
  destruct (real_element_head x Hx) as (b & rest & -> & Hb).
  destruct l as [|y l].
  - exists b, rest. split; [reflexivity|]. split; [exact Hb|].
    destruct Hx as (_ & Hdot & _). exact Hdot.
  - exists b, (rest +:+ "/" +:+ Join_slash (y :: l)).
    split; [reflexivity|]. split; [exact Hb|].
    change (Join_slash (String b rest :: y :: l))
      with (String b (rest +:+ "/" +:+ Join_slash (y :: l))).
    intros Heq. injection Heq as _ Heq. destruct rest; discriminate.
Qed.

Lemma clean_step_plain (rooted : bool) (kept : list string) (name : string) :
  plain_name name -> clean_step rooted kept name = name :: kept.
Proof.
  intros [(Hne & Hdot & _) Hdd]. unfold clean_step.
  destruct (String.eqb_spec name ""); [contradiction|].
  destruct (String.eqb_spec name "."); [contradiction|].
  destruct (String.eqb_spec name ".."); [contradiction|]. reflexivity.
Qed.

Lemma is_rooted_cons (b : ascii) (s : string) :
  is_rooted (String b s) = Ascii.eqb b "/".
Proof.
  unfold is_rooted, HasPrefix.
  change (String.prefix "/" (String b s))
    with (if ascii_dec "/" b then String.prefix "" s else false).
  destruct (ascii_dec "/" b) as [<-|Hne].
  - destruct s; reflexivity.
  - symmetry. apply Ascii.eqb_neq. congruence.
Qed.

Lemma plain_not_rooted (name : string) : plain_name name -> is_rooted name = false.
Proof.
  intros [Hreal _]. destruct (real_element_head name Hreal) as (b & rest & -> & Hb).
  rewrite is_rooted_cons. exact Hb.
Qed.

Lemma Clean_plain (name : string) : plain_name name -> Clean name = name.
Proof.
  intros Hname. pose proof Hname as [(Hne & _ & Hs) _].
  unfold Clean, clean_elems.
  rewrite (plain_not_rooted name Hname), (Split_slash_plain name Hs). simpl.
  rewrite (clean_step_plain false [] name Hname). simpl.
  destruct (String.eqb_spec name ""); [contradiction|].
  destruct (String.eqb_spec name ""); [contradiction|reflexivity].
Qed.

Lemma child_rooted (d name : string) :
  d <> "" -> is_rooted ((d +:+ "/") +:+ name) = is_rooted d.
Proof.
  intros Hd. destruct d as [|b d]; [contradiction|].
  change ((String b d +:+ "/") +:+ name) with (String b ((d +:+ "/") +:+ name)).
  rewrite !is_rooted_cons. reflexivity.
Qed.

Lemma child_elems (d name : string) :
  d <> "" ->
  plain_name name ->
  clean_elems ((d +:+ "/") +:+ name) = name :: clean_elems d.
Proof.
  intros Hd Hname. pose proof Hname as [(_ & _ & Hs) _].
  unfold clean_elems. rewrite (child_rooted d name Hd).
  rewrite append_assoc. change ("/" +:+ name) with (String "/" name).
  rewrite Split_slash_append, fold_left_app, (Split_slash_plain name Hs).
  cbn [fold_left]. apply clean_step_plain. exact Hname.
Qed.

Lemma append_not_empty (s1 s2 : string) : s1 <> "" -> s1 +:+ s2 <> "".
Proof. destruct s1; [contradiction|discriminate]. Qed.

Lemma Clean_child (d name : string) :
  d <> "" ->
  plain_name name ->
  Clean ((d +:+ "/") +:+ name) = dir_prefix d +:+ name.
Proof.
  intros Hd Hname. pose proof Hname as [(Hne & _ & Hs) _].
  unfold dir_prefix, Clean.
  rewrite (child_rooted d name Hd), (child_elems d name Hd Hname).
  destruct (String.eqb_spec ((d +:+ "/") +:+ name) "") as [Hempty|_].
  { exfalso. revert Hempty. apply append_not_empty, append_not_empty, Hd. }
  destruct (String.eqb_spec d ""); [contradiction|].
  pose proof (clean_elems_real d) as Hreal.
  generalize dependent (clean_elems d). generalize (is_rooted d).
  intros r kept Hreal. cbn [rev]. rewrite Join_slash_snoc.
  destruct kept as [|e kept].
  - cbn [rev Join_slash].
    destruct r; [reflexivity|].
    destruct (String.eqb_spec name ""); [contradiction|]. reflexivity.
  - assert (Hrev : rev (e :: kept) <> []).
    { intros Hnil. apply (f_equal (@List.length string)) in Hnil.
      rewrite length_rev in Hnil. discriminate. }
    destruct (Join_slash_real (rev (e :: kept)) Hrev) as (j & rest & Hj & Hjb & Hjdot).
    { apply Forall_rev. exact Hreal. }
    destruct (rev (e :: kept)) as [|r0 rs] eqn:Hrs; [contradiction|].
    rewrite Hj in *.
    destruct r.
    + change ("/" +:+ String j rest) with (String "/" (String j rest)).
      cbn [String.eqb]. rewrite Ascii.eqb_refl.
      replace (Ascii.eqb "/" ".") with false by reflexivity.
      change (String "/" (String j rest) +:+ "/")
        with (String "/" (String j rest +:+ "/")).
      change ("/" +:+ String j rest +:+ "/" +:+ name)
        with (String "/" (String j rest +:+ "/" +:+ name)).
      change (String "/" (String j rest +:+ "/") +:+ name)
        with (String "/" ((String j rest +:+ "/") +:+ name)).
      rewrite append_assoc. reflexivity.
    + change (String j rest +:+ "/" +:+ name)
        with (String j (rest +:+ "/" +:+ name)).
      change (String j rest =? "") with false.
      change (String j (rest +:+ "/" +:+ name) =? "") with false.
      cbv iota.
      destruct (String.eqb_spec (String j rest) "/") as [Heq|_].
      { injection Heq as -> _. discriminate. }
      destruct (String.eqb_spec (String j rest) ".") as [Heq|_]; [contradiction|].
      symmetry. apply (append_assoc (String j rest) "/" name).
Qed.

Lemma task_name_plain (task : string) :
  Contains task "/" = false ->
  plain_name ("ctf_" +:+ ReplaceAll task "-" "_").
Proof.
  intros Htask.
  pose proof (ReplaceAll_char_plain task "-" "_" "/" eq_refl Htask) as Hname.
  change ("ctf_" +:+ ReplaceAll task "-" "_")
    with (String "c" (String "t" (String "f" (String "_" (ReplaceAll task "-" "_"))))).
  split; [|discriminate]. split; [discriminate|]. split; [discriminate|].
  repeat (apply contains_cons; split; [reflexivity|]). exact Hname.
Qed.

Lemma executablePath_plain (binDir task : string) :
  Contains task "/" = false ->
  executablePath_of binDir task =
    dir_prefix binDir +:+ "ctf_" +:+ ReplaceAll task "-" "_" /\
  inside binDir (executablePath_of binDir task) = true.
Proof.
  intros Htask. pose proof (task_name_plain task Htask) as Hname.
  assert (Hpath : executablePath_of binDir task =
                  dir_prefix binDir +:+ "ctf_" +:+ ReplaceAll task "-" "_").
  { unfold executablePath_of, Join. cbn [fold_left].
    change ("ctf_" +:+ ReplaceAll task "-" "_")
      with (String "c" (String "t" (String "f" (String "_" (ReplaceAll task "-" "_")))))
      at 1.
    cbn [String.length]. rewrite Nat.add_succ_r. cbn [Nat.eqb].
    unfold Join_buf at 2. cbn [String.eqb negb orb].
    destruct (String.eqb_spec binDir "") as [->|Hdir].
    - cbn [negb orb]. unfold Join_buf. cbn [String.eqb negb orb].
      pose proof Hname as [(Hne & _) _].
      destruct (String.eqb_spec ("ctf_" +:+ ReplaceAll task "-" "_") "");
        [contradiction|].
      cbn [negb]. change ("" +:+ "ctf_" +:+ ReplaceAll task "-" "_")
        with ("ctf_" +:+ ReplaceAll task "-" "_").
      rewrite Clean_plain by exact Hname.
      reflexivity.
    - cbn [negb orb]. change ("" +:+ binDir) with binDir.
      unfold Join_buf.
      destruct (String.eqb_spec binDir ""); [contradiction|]. cbn [negb orb].
      apply Clean_child; assumption. }
  split; [exact Hpath|].
  unfold inside. rewrite Hpath, CutPrefix_append.
  reflexivity.
Qed.

(** The command the handler starts is the one [prepare] resolved
    from the first line. *)
Lemma prepare_started (w : World) (started : string * string) :
  (prepare w).2 = inl started ->
  exists line rd,
    slowReadFirstLine TrimSpace first_line_fuel
      (LimitReader (LimitReader (conn_in w) MAX_INPUT_SIZE) MAX_FIRST_LINE_SIZE)
    = Some ((line, None), rd) /\
    started = (ReplaceAll line "_" "-",
               executablePath_of (binariesDirectory c) (ReplaceAll line "_" "-")).
Proof.
  unfold Crashme.prepare. proc_run; intros Hp;
    unfold mret, Proc_ret in Hp; simpl in Hp; simplify_eq.
  eexists _, _. split; reflexivity.
Qed.

Lemma started_path (w : World) (path : string) :
  CmdStart path ∈ (doHandleConnection w).1 ->
  exists started, (prepare w).2 = inl started /\ path = started.2.
Proof.
  destruct (doHandleConnection_parts w) as (adm & tail & -> & Hadm & Htail).
  intros Hin. apply elem_of_app in Hin as [Hin|Hin].
  { exfalso. rewrite Forall_forall in Hadm. destruct (Hadm _ Hin). discriminate. }
  destruct Htail as [->|(started & Hp & -> & Hres)]; [inversion Hin|].
  exists started. split; [exact Hp|].
  apply elem_of_app in Hin as [Hin|Hin]; [eapply run_start; eauto|].
  exfalso. apply elem_of_app in Hin as [Hin|Hin].
  - pose proof (classify_kind w started.1 started.2 (run w started.2).2) as Hk.
    rewrite Forall_forall in Hk. specialize (Hk _ Hin). discriminate.
  - apply list_elem_of_singleton in Hin. discriminate.
Qed.

(** C3: a task identifier without a slash names a file of the
    binaries directory.  For such an identifier the executable path is
    the cleaned directory followed by the one element [ctf_] and the
    identifier with its dashes turned into underscores, which lies
    inside the directory.  The command the handler starts is the path
    so resolved from the first line; nothing rejects a line that has a
    slash. *)
Theorem plain_task_resolves_inside :
  (forall binDir task,
      Contains task "/" = false ->
      executablePath_of binDir task =
        dir_prefix binDir +:+ "ctf_" +:+ ReplaceAll task "-" "_" /\
      inside binDir (executablePath_of binDir task) = true) /\
  (forall w path,
      CmdStart path ∈ (doHandleConnection w).1 ->
      exists line rd,
        slowReadFirstLine TrimSpace first_line_fuel
          (LimitReader (LimitReader (conn_in w) MAX_INPUT_SIZE)
                       MAX_FIRST_LINE_SIZE)
        = Some ((line, None), rd) /\
        path = executablePath_of (binariesDirectory c) (ReplaceAll line "_" "-") /\
        (Contains line "/" = false -> inside (binariesDirectory c) path = true)).
Proof.
  split; [apply executablePath_plain|].
  intros w path Hin.
  destruct (started_path w path Hin) as (started & Hp & ->).
  destruct (prepare_started w started Hp) as (line & rd & Hread & ->).
  exists line, rd. split; [exact Hread|]. split; [reflexivity|].
  intros Hline. simpl. apply executablePath_plain.
  apply (ReplaceAll_char_plain line "_" "-" "/" eq_refl Hline).
Qed.

End HandlerFacts.

(** ** The gateway on the sample connections *)

Section ScheduleFacts.
Import Go Crashme.

Lemma perform_step (i : nat) (sys sys' : System) :
  perform i sys = Some sys' -> step sys sys'.
Proof.
  unfold perform.
  destruct (handlers sys !! i) as [[d [|ev rest]]|] eqn:Hi; try discriminate.
  destruct (sema_apply (sema sys) ev) as [s'|] eqn:Hs; [|discriminate].
  intros Heq. injection Heq as <-. econstructor; eassumption.
Qed.

Lemma schedule_reachable (order : list nat) :
  forall sys sys', schedule order sys = Some sys' -> rtc step sys sys'.
Proof.
  induction order as [|i order IH]; intros sys sys'; simpl.
  - intros Heq. injection Heq as <-. apply rtc_refl.
  - destruct (perform i sys) as [sys1|] eqn:Hp; [|discriminate].
    intros Hrest. eapply rtc_l; [eapply perform_step; exact Hp|].
    apply IH. exact Hrest.
Qed.
End ScheduleFacts.

(** Look for the event in an explicit trace. *)
Ltac find_event :=
  repeat first
    [ apply list_elem_of_here
    | apply list_elem_of_further
    | apply Exists_cons_hd; reflexivity
    | apply Exists_cons_tl ].

Section SampleFacts.
Import Go Crashme Samples.

Lemma admission_slot_released_once_witness :
  cur (sema busy) = 1%Z /\
  cur (sema busy) = slots_held busy /\
  (Forall (fun h => todo h = []) (handlers busy) -> cur (sema busy) = 0%Z).
Proof.
  destruct (admission_slot_released_once asciiTrimSpace server 1 two_conns busy)
    as (_ & _ & _ & Hheld & Hfin & _).
  - lia.
  - apply (schedule_reachable [0; 0; 1; 1; 1; 1]%nat). vm_compute. reflexivity.
  - split; [reflexivity|]. split; [exact Hheld|exact Hfin].
Defined.

Lemma first_line_rejected_witness :
  (doHandleConnection asciiTrimSpace server no_newline).2 =
    Returns (Some (Errorf_w "failed to read first line: "
                            (errorString "EOF before new line"))) /\
  (doHandleConnection asciiTrimSpace server long_line).2 =
    Returns (Some (Errorf_w "failed to read first line: "
                            (errorString "too long first line"))).
Proof.
  split.
  - apply (first_line_rejected asciiTrimSpace server no_newline 0
                               "EOF before new line").
    + reflexivity.
    + right. split; [reflexivity|]. split; [vm_compute; reflexivity|].
      split; reflexivity.
  - apply (first_line_rejected asciiTrimSpace server long_line 0
                               "too long first line").
    + reflexivity.
    + left. split; [|reflexivity].
      exists hundred, "bbbbbbbbbbbbbbbbbbbb".
      split; [reflexivity|]. split; reflexivity.
Defined.



Lemma plain_task_resolves_inside_witness :
  executablePath_of "/srv/build" "echo-ok" = "/srv/build/ctf_echo_ok" /\
  inside "/srv/build" (executablePath_of "/srv/build" "echo-ok") = true.
Proof.
  destruct (proj1 (plain_task_resolves_inside asciiTrimSpace server)
                  "/srv/build" "echo-ok") as [Hpath Hin].
  - reflexivity.
  - split; [exact Hpath|exact Hin].
Defined.


(** C3, as the claim has it, fails: the line [x/../../../bin/sh] is
    not rejected, and the command started is [/bin/sh], outside the
    binaries directory. *)
Lemma traversal_leaves_directory :
  ~ (forall path,
        CmdStart path ∈ (doHandleConnection asciiTrimSpace server traversal).1 ->
        inside (binariesDirectory server) path = true).
Proof.
  intros Hclaim. specialize (Hclaim "/bin/sh").
  assert (Hin : CmdStart "/bin/sh"
                ∈ (doHandleConnection asciiTrimSpace server traversal).1).
  { vm_compute. find_event. }
  specialize (Hclaim Hin). vm_compute in Hclaim. discriminate.
Qed.

(** C6, as the claim has it, fails: for a connection that has to
    wait, the acquisition and the waiting notice come with no prompt
    before them. *)
Lemma admission_precedes_prompt :
  ~ preceded_by (is_write "Enter task name: ") is_attempt
      (doHandleConnection asciiTrimSpace server queued).1 /\
  ~ preceded_by (is_write "Enter task name: ") (is_write waiting)
      (doHandleConnection asciiTrimSpace server queued).1.
Proof.
  split; intros Hclaim.
  - destruct (Hclaim 0%nat (SemaTryAcquire false) eq_refl eq_refl)
      as (i & ev & Hlt & _). lia.
  - destruct (Hclaim 1%nat (ConnWrite waiting) eq_refl eq_refl)
      as (i & ev & Hlt & Hi & Hev).
    destruct i as [|i]; [|lia]. vm_compute in Hi. injection Hi as <-.
    discriminate.
Qed.

End SampleFacts.

(** ** The library functions on examples *)

Example Clean_collapses : Go.Clean "//a//b/./c/.." = "/a/b".
Proof. reflexivity. Qed.

Example Clean_keeps_leading_dotdot : Go.Clean "../a/../../b" = "../../b".
Proof. reflexivity. Qed.

Example Clean_root_dotdot : Go.Clean "/../a" = "/a".
Proof. reflexivity. Qed.

Example Clean_to_dot : Go.Clean "a/.." = ".".
Proof. reflexivity. Qed.

Example Join_skips_empty : Go.Join [""; "ctf_x"] = "ctf_x".
Proof. reflexivity. Qed.

Example ReplaceAll_bytes : Go.ReplaceAll "a_b-c__" "_" "-" = "a-b-c--".
Proof. reflexivity. Qed.

Example ReplaceAll_no_overlap : Go.ReplaceAll "aaa" "aa" "b" = "ba".
Proof. reflexivity. Qed.

Example Signal_of_exit : Go.Signal Samples.status_exit1 = (-1)%Z.
Proof. reflexivity. Qed.

Example Signal_of_interrupt : Go.Signal Samples.status_sigint = Go.Interrupt.
Proof. reflexivity. Qed.

(** * Further properties *)

(** ** The acceptor loop over whole runs *)

Section AcceptorRuns.
Import Go Crashme.

(** X2: successful accepts give the budget back one unit each and
    stop at the initial value: after [m] of them the budget is the
    smaller of 10 and the old budget plus [m]; they never panic. *)
Theorem successes_refill_budget (conns : list World) :
  forall st : LoopState,
    (0 <= currentAcceptErrorsBudget st <= acceptErrorsBudget)%Z ->
    exists t st',
      accept_loop st (map Accepted conns) = (t, Some st') /\
      currentAcceptErrorsBudget st' =
        Z.min acceptErrorsBudget
              (currentAcceptErrorsBudget st + Z.of_nat (List.length conns)).
Proof.
  induction conns as [|conn conns IH]; intros st Hb.
  - exists [], st. split; [reflexivity|]. simpl. lia.
  - destruct (accept_iteration_success st conn Hb) as (t1 & st1 & Hit & Hst1).
    cbn [map accept_loop]. rewrite Hit.
    destruct (IH st1) as (t2 & st2 & Hloop & Hst2).
    { rewrite Hst1. unfold acceptErrorsBudget in *. lia. }
    rewrite Hloop. eexists _, st2. split; [reflexivity|].
    rewrite Hst2, Hst1. cbn [List.length]. unfold acceptErrorsBudget in *. lia.
Qed.

Lemma successes_refill_budget_witness :
  exists t st',
    accept_loop {| currentAcceptErrorsBudget := 8; connId := 5 |}
                (map Accepted [Samples.echo_ok; Samples.echo_ok; Samples.echo_ok])
    = (t, Some st') /\
    currentAcceptErrorsBudget st' = 10%Z.
Proof.
  destruct (successes_refill_budget
              [Samples.echo_ok; Samples.echo_ok; Samples.echo_ok]
              {| currentAcceptErrorsBudget := 8; connId := 5 |}
              ltac:(vm_compute; split; discriminate)) as (t & st' & Hloop & Hb).
  exists t, st'. split; [exact Hloop|exact Hb].
Defined.

(** X4: in a run that does not panic every iteration starts one
    handler, on what [Accept] returned (the nil connection after a
    failure), and the handlers are numbered consecutively from the
    counter the run started with. *)
Theorem every_iteration_dispatches (accepts : list AcceptResult) :
  forall (st st' : LoopState) (t : list MainEvent),
    accept_loop st accepts = (t, Some st') ->
    (0 <= connId st)%Z ->
    (connId st + Z.of_nat (List.length accepts) < 2 ^ 63)%Z ->
    dispatched_conns t = map accepted_conn accepts /\
    dispatched t =
      map (fun i => (connId st + Z.of_nat i)%Z) (seq 0 (List.length accepts)) /\
    connId st' = (connId st + Z.of_nat (List.length accepts))%Z.
Proof.
  induction accepts as [|a accepts IH]; intros st st' t Hloop Hid Hlen.
  - simpl in Hloop. injection Hloop as <- <-. simpl. repeat split. lia.
  - cbn [accept_loop] in Hloop.
    destruct (accept_iteration st a) as [t1 [st1|]] eqn:Hit; [|discriminate].
    destruct (accept_loop st1 accepts) as [t2 r] eqn:Hrest.
    injection Hloop as <- ->.
    assert (Hst1 : connId st1 = (connId st + 1)%Z /\
                   dispatched_conns t1 = [accepted_conn a] /\
                   dispatched t1 = [connId st]).
    { unfold accept_iteration in Hit. rewrite length_cons in Hlen.
      destruct a as [conn|err].
      - injection Hit as <- <-. simpl. rewrite wrap_int_small by lia. auto.
      - destruct (Z.eqb_spec (currentAcceptErrorsBudget st) 0); [discriminate|].
        injection Hit as <- <-. simpl. rewrite wrap_int_small by lia. auto. }
    destruct Hst1 as (Hid1 & Hc1 & Hd1).
    rewrite length_cons in Hlen.
    destruct (IH st1 st' t2 Hrest ltac:(lia) ltac:(lia)) as (Hc & Hd & Hst').
    unfold dispatched_conns, dispatched in *.
    rewrite !omap_app, Hc, Hd, Hc1, Hd1, Hst', Hid1.
    split; [reflexivity|]. split.
    + cbn [List.length seq map]. change (Z.of_nat 0) with 0%Z. rewrite Z.add_0_r.
      cbn [app]. f_equal.
      rewrite <- seq_shift, map_map. apply map_ext. intros i. lia.
    + rewrite length_cons. lia.
Qed.

Lemma every_iteration_dispatches_witness :
  dispatched_conns (main_loop [AcceptFailed EOF; Accepted Samples.echo_ok]).1
  = [None; Some Samples.echo_ok] /\
  dispatched (main_loop [AcceptFailed EOF; Accepted Samples.echo_ok]).1
  = [0%Z; 1%Z].
Proof.
  destruct (every_iteration_dispatches
              [AcceptFailed EOF; Accepted Samples.echo_ok]
              {| currentAcceptErrorsBudget := acceptErrorsBudget; connId := 0 |}
              {| currentAcceptErrorsBudget := 10; connId := 2 |}
              (main_loop [AcceptFailed EOF; Accepted Samples.echo_ok]).1)
    as (Hc & Hd & _).
  - reflexivity.
  - simpl. lia.
  - simpl. lia.
  - split; [exact Hc|exact Hd].
Defined.

End AcceptorRuns.

(** ** What a failed accept does to the process *)

Section AcceptorFate.
Import Go Crashme.
Variable TrimSpace : string -> string.
Variable c : checker.

Local Abbreviation fatal := (fatal TrimSpace c).

Lemma accept_iteration_fatal (st : LoopState) (a : AcceptResult) :
  Exists (fun ev => fatal ev = true) (accept_iteration st a).1 <->
  is_failure a = true.
Proof.
  unfold accept_iteration. destruct a as [conn|err]; simpl.
  - split; [|discriminate]. intros Hex.
    apply Exists_cons in Hex as [Hex|Hex]; [discriminate|].
    apply Exists_nil in Hex. contradiction.
  - split; [reflexivity|]. intros _.
    destruct (currentAcceptErrorsBudget st =? 0)%Z;
      apply Exists_cons_tl, Exists_cons_hd; reflexivity.
Qed.

Lemma accept_loop_fatal (accepts : list AcceptResult) :
  forall st : LoopState,
    Exists (fun ev => fatal ev = true) (accept_loop st accepts).1 <->
    Exists (fun a => is_failure a = true) accepts.
Proof.
  induction accepts as [|a accepts IH]; intros st.
  - simpl. rewrite !Exists_nil. reflexivity.
  - cbn [accept_loop]. pose proof (accept_iteration_fatal st a) as Hit.
    rewrite Exists_cons.
    destruct (accept_iteration st a) as [t1 [st1|]] eqn:Heq; cbn [fst] in Hit.
    + specialize (IH st1). destruct (accept_loop st1 accepts) as [t2 r].
      cbn [fst] in *. rewrite Exists_app, Hit, IH. reflexivity.
    + cbn [fst]. split; [intros Hex; left; apply Hit, Hex|].
      intros _. apply Hit.
      assert (Hp : (accept_iteration st a).2 = None) by (rewrite Heq; reflexivity).
      apply accept_iteration_panics in Hp as [[err ->] _]. reflexivity.
Qed.

(** X1: the error budget never saves the process.  Every failed
    accept is fatal: either [main] panics on it (the budget is at
    zero), or [main] starts a handler on the nil connection, which
    panics at its first use of the connection.  So a run of the loop
    holds a fatal event exactly when one of its accepts failed; when
    the first accept fails the second event of the run is the start of
    such a handler. *)
Theorem failed_accept_is_fatal (accepts : list AcceptResult) :
  (forall connId, go_handleConnection TrimSpace c None connId = None) /\
  (Exists (fun ev => fatal ev = true) (main_loop accepts).1 <->
   Exists (fun a => is_failure a = true) accepts) /\
  (forall err accepts',
      accepts = AcceptFailed err :: accepts' ->
      exists rest,
        (main_loop accepts).1 =
          [LogAcceptFailed err; GoHandleConnection None 0] ++ rest).
Proof.
  split; [reflexivity|]. split; [apply accept_loop_fatal|].
  intros err accepts' ->. unfold main_loop. cbn [accept_loop].
  change (accept_iteration _ (AcceptFailed err))
    with ([LogAcceptFailed err; GoHandleConnection None 0],
          Some {| currentAcceptErrorsBudget := 9; connId := 1 |}).
  cbv iota beta.
  destruct (accept_loop _ accepts') as [t r]. eexists. reflexivity.
Qed.

Lemma fatal_count_app (t1 t2 : list MainEvent) :
  Z.of_nat (List.length (filter (fun ev => Is_true (fatal ev)) (t1 ++ t2))) =
    (Z.of_nat (List.length (filter (fun ev => Is_true (fatal ev)) t1))
     + Z.of_nat (List.length (filter (fun ev => Is_true (fatal ev)) t2)))%Z.
Proof. rewrite filter_app, length_app. lia. Qed.

Lemma budget_panic_after_handlers (accepts : list AcceptResult) :
  forall st : LoopState,
    (0 <= currentAcceptErrorsBudget st <= acceptErrorsBudget)%Z ->
    (accept_loop st accepts).2 = None ->
    exists before err,
      (accept_loop st accepts).1
        = before ++ [LogAcceptFailed err; PanicMain err] /\
      Forall (fun ev => forall e, ev <> PanicMain e) before /\
      (currentAcceptErrorsBudget st
       <= Z.of_nat (List.length
                      (filter (fun ev => Is_true (fatal ev)) before)))%Z.
Proof.
  induction accepts as [|a accepts IH]; intros st Hb; [discriminate|].
  cbn [accept_loop].
  destruct (accept_iteration st a) as [t1 [st1|]] eqn:Hit.
  - pose proof (accept_iteration_budget st st1 a t1 Hb Hit) as Hb1.
    specialize (IH st1 Hb1).
    destruct (accept_loop st1 accepts) as [t2 r]. cbn [fst snd] in *.
    intros ->. destruct (IH eq_refl) as (before & err & -> & Hnone & Hcount).
    exists (t1 ++ before), err. split; [rewrite app_assoc; reflexivity|].
    rewrite fatal_count_app.
    destruct a as [conn|err'].
    + destruct (accept_iteration_success st conn Hb) as (t' & st' & Hit' & Hst').
      rewrite Hit in Hit'. injection Hit' as <- <-.
      unfold accept_iteration in Hit. injection Hit as <- _.
      split; [constructor; [discriminate|exact Hnone]|].
      rewrite Hst' in Hcount. unfold acceptErrorsBudget in *. simpl. lia.
    + destruct (accept_iteration_failure st err') as (t' & st' & Hit' & Hst').
      { unfold accept_iteration in Hit.
        destruct (Z.eqb_spec (currentAcceptErrorsBudget st) 0); [discriminate|]. lia. }
      rewrite Hit in Hit'. injection Hit' as <- <-.
      unfold accept_iteration in Hit.
      destruct (currentAcceptErrorsBudget st =? 0)%Z; [discriminate|].
      injection Hit as <- _.
      split; [repeat (constructor; [discriminate|]); exact Hnone|].
      rewrite Hst' in Hcount. simpl. lia.
  - intros _.
    assert (Hp : (accept_iteration st a).2 = None) by (rewrite Hit; reflexivity).
    apply accept_iteration_panics in Hp as [[err ->] H0].
    unfold accept_iteration in Hit. rewrite H0 in Hit. cbn in Hit.
    injection Hit as <-. exists [], err. cbn [fst].
    split; [reflexivity|]. split; [constructor|]. simpl. lia.
Qed.

(** X3: the panic of [main] is never the first fatal event.  A run
    of the loop that reaches [panic(err)] of line 131 ends with the log
    line and that panic, and has before them started at least ten
    handlers that panic on the nil connection. *)
Theorem budget_panic_follows_fatal_handlers (accepts : list AcceptResult) :
  (main_loop accepts).2 = None ->
  exists before err,
    (main_loop accepts).1 = before ++ [LogAcceptFailed err; PanicMain err] /\
    Forall (fun ev => forall e, ev <> PanicMain e) before /\
    (10 <= List.length (filter (fun ev => Is_true (fatal ev)) before))%nat.
Proof.
  intros Hpanic. unfold main_loop in *.
  destruct (budget_panic_after_handlers accepts
              {| currentAcceptErrorsBudget := acceptErrorsBudget; connId := 0 |})
    as (before & err & Heq & Hnone & Hcount);
    [cbn [currentAcceptErrorsBudget]; unfold acceptErrorsBudget; lia
    |exact Hpanic|].
  exists before, err. split; [exact Heq|]. split; [exact Hnone|].
  cbn [currentAcceptErrorsBudget] in Hcount. unfold acceptErrorsBudget in Hcount.
  lia.
Qed.
End AcceptorFate.

Section AcceptorSamples.
Import Go Crashme Samples.

Lemma failed_accept_is_fatal_witness :
  Exists (fun ev => fatal asciiTrimSpace server ev = true)
         (main_loop [Accepted echo_ok; AcceptFailed EOF]).1.
Proof.
  apply (proj1 (proj2 (failed_accept_is_fatal asciiTrimSpace server
                         [Accepted echo_ok; AcceptFailed EOF]))).
  apply Exists_cons_tl, Exists_cons_hd. reflexivity.
Defined.

Lemma budget_panic_follows_fatal_handlers_witness :
  exists before err,
    (main_loop (replicate 11 (AcceptFailed EOF))).1
      = before ++ [LogAcceptFailed err; PanicMain err] /\
    Forall (fun ev => forall e, ev <> PanicMain e) before /\
    (10 <= List.length (filter (fun ev => Is_true (fatal asciiTrimSpace server ev))
                               before))%nat.
Proof.
  apply (budget_panic_follows_fatal_handlers asciiTrimSpace server
           (replicate 11 (AcceptFailed EOF))).
  vm_compute. reflexivity.
Defined.
End AcceptorSamples.

(** ** The first line, read *)

Section FirstLineRead.
Import Go Crashme.
Variable TrimSpace : string -> string.

Lemma loop_line_read (line : string) :
  forall (rest : string) (closing : error) (N M : Z) (str : string)
         (buf0 : ascii) (fuel : nat),
    Contains line nl = false ->
    Ascii.eqb buf0 newline = false ->
    (Z.of_nat (String.length line) < N <= M)%Z ->
    (String.length line < fuel)%nat ->
    slowReadFirstLine_loop TrimSpace fuel
      (LimitReader (LimitReader {| pending := line +:+ nl +:+ rest;
                                   closing := closing |} M) N)
      str buf0
    = Some ((TrimSpace (str +:+ line +:+ nl), None),
            LimitReader
              (LimitReader {| pending := rest; closing := closing |}
                           (M - Z.of_nat (String.length line) - 1))
              (N - Z.of_nat (String.length line) - 1)).
Proof.
  induction line as [|b line IH]; intros rest closing N M str buf0 fuel
    Hnl Hbuf HN Hfuel; (destruct fuel as [|fuel]; [simpl in Hfuel; lia|]).
  - change ("" +:+ nl +:+ rest) with (String newline rest).
    erewrite loop_read_byte; [|exact Hbuf|apply read_byte; simpl in HN; lia].
    cbn [String.length]. change (Z.of_nat 0) with 0%Z. rewrite !Z.sub_0_r.
    destruct fuel; reflexivity.
  - apply no_newline_cons in Hnl as [Hb Hnl].
    change (String b line +:+ nl +:+ rest) with (String b (line +:+ nl +:+ rest)).
    erewrite loop_read_byte; [|exact Hbuf|apply read_byte; simpl in HN; lia].
    rewrite (IH rest closing (N - 1)%Z (M - 1)%Z (str +:+ String b "") b fuel Hnl Hb)
      by (simpl in HN, Hfuel; lia).
    rewrite append_assoc. cbn [String.length].
    change (String b "" +:+ line +:+ nl) with (String b (line +:+ nl)).
    replace (M - Z.of_nat (S (String.length line)) - 1)%Z
      with (M - 1 - Z.of_nat (String.length line) - 1)%Z by lia.
    replace (N - Z.of_nat (S (String.length line)) - 1)%Z
      with (N - 1 - Z.of_nat (String.length line) - 1)%Z by lia.
    reflexivity.
Qed.

(** X5: a first line of at most 99 bytes ended by a newline is
    accepted: [slowReadFirstLine], as the handler calls it, returns the
    line with its newline through [strings.TrimSpace], and has read up
    to the newline and no further: the bytes after it are still to be
    read, and the bytes of the line count against the 10 MiB cap. *)
Theorem first_line_accepted (w : World) (line rest : string) :
  pending (conn_in w) = line +:+ nl +:+ rest ->
  Contains line nl = false ->
  (Z.of_nat (String.length line) < MAX_FIRST_LINE_SIZE)%Z ->
  first_line TrimSpace w =
    Some ((TrimSpace (line +:+ nl), None),
          LimitReader
            (LimitReader {| pending := rest; closing := closing (conn_in w) |}
                         (MAX_INPUT_SIZE - Z.of_nat (String.length line) - 1))
            (MAX_FIRST_LINE_SIZE - Z.of_nat (String.length line) - 1)).
Proof.
  intros Hin Hnl Hlen. unfold first_line, slowReadFirstLine.
  destruct (conn_in w) as [input closing]. simpl in Hin. subst input.
  rewrite loop_line_read; [reflexivity|exact Hnl|reflexivity| |].
  - unfold MAX_FIRST_LINE_SIZE, MAX_INPUT_SIZE in *. lia.
  - unfold first_line_fuel. unfold MAX_FIRST_LINE_SIZE in *. lia.
Qed.

End FirstLineRead.

(** ** The session handler, path by path *)

Section HandlerPaths.
Import Go Crashme.
Variable TrimSpace : string -> string.
Variable c : checker.

Local Abbreviation prepare := (prepare TrimSpace c).
Local Abbreviation serve := (serve TrimSpace c).
Local Abbreviation doHandleConnection := (doHandleConnection TrimSpace c).
Local Abbreviation handleConnection := (handleConnection TrimSpace c).
Local Abbreviation first_line := (first_line TrimSpace).
Local Abbreviation ready := (ready TrimSpace c).

Lemma doHandleConnection_admitted (w : World) :
  admitted w = true ->
  (doHandleConnection w).1 = admission w ++ (serve w).1 ++ [SemaRelease] /\
  (doHandleConnection w).2 =
    match (serve w).2 with inl _ => Returns None | inr o => o end.
Proof.
  intros Hadm. rewrite doHandleConnection_unfold. unfold admitted, admission in *.
  destruct (sema_try w); [|destruct (sema_acquire w); [discriminate|]];
    split; reflexivity.
Qed.

Lemma prepare_unknown (w : World) (line : string)
      (rd : LimitedReader (LimitedReader ConnIn)) :
  first_line w = Some ((line, None), rd) ->
  (isRegularFile w (executablePath_of (binariesDirectory c)
                                      (ReplaceAll line "_" "-"))).2 = false ->
  prepare w =
    (ConnWrite "Enter task name: "
       :: (isRegularFile w (executablePath_of (binariesDirectory c)
                                              (ReplaceAll line "_" "-"))).1,
     inr (Returns (Some (errorString
       ("unknown task " +:+ ReplaceAll line "_" "-" +:+ " (@ "
          +:+ executablePath_of (binariesDirectory c) (ReplaceAll line "_" "-")
          +:+ ")"))))).
Proof.
  intros Hline Hreg. unfold Crashme.first_line in Hline.
  apply injective_projections.
  - unfold Crashme.prepare. rewrite Hline. proc_simpl. cbn beta iota.
    rewrite Hreg. proc_simpl. rewrite app_nil_r. reflexivity.
  - unfold Crashme.prepare. rewrite Hline. proc_simpl. cbn beta iota.
    rewrite Hreg. reflexivity.
Qed.

Lemma prepare_create_failed (w : World) (line : string)
      (rd : LimitedReader (LimitedReader ConnIn)) (e : error) :
  first_line w = Some ((line, None), rd) ->
  (isRegularFile w (executablePath_of (binariesDirectory c)
                                      (ReplaceAll line "_" "-"))).2 = true ->
  create_err w = Some e ->
  prepare w =
    (ConnWrite "Enter task name: "
       :: (isRegularFile w (executablePath_of (binariesDirectory c)
                                              (ReplaceAll line "_" "-"))).1
       ++ [CreateFile (Join [submitsDirectory c;
                             ReplaceAll line "_" "-" +:+ "_" +:+ now w])],
     inr (Returns (Some (Errorf_w "failed to create input file: " e)))).
Proof.
  intros Hline Hreg Hcreate. unfold Crashme.first_line in Hline.
  apply injective_projections;
    unfold Crashme.prepare; rewrite Hline; proc_simpl; cbn beta iota;
    rewrite Hreg; cbn [negb]; proc_simpl; rewrite Hcreate; reflexivity.
Qed.

Lemma prepare_ready (w : World) (line : string) :
  ready w line ->
  prepare w =
    (ConnWrite "Enter task name: "
       :: (isRegularFile w (executablePath_of (binariesDirectory c)
                                              (ReplaceAll line "_" "-"))).1
       ++ [CreateFile (Join [submitsDirectory c;
                             ReplaceAll line "_" "-" +:+ "_" +:+ now w]);
           ConnWrite ("Running task " +:+ ReplaceAll line "_" "-" +:+ nl)],
     inl (ReplaceAll line "_" "-",
          executablePath_of (binariesDirectory c) (ReplaceAll line "_" "-"))).
Proof.
  intros ([rd Hline] & Hreg & Hcreate & Hpipes). unfold Crashme.first_line in Hline.
  apply injective_projections;
    unfold Crashme.prepare; rewrite Hline; proc_simpl; cbn beta iota;
    rewrite Hreg; cbn [negb]; proc_simpl; rewrite Hcreate; proc_simpl;
    rewrite Hpipes, ?newCommandProxy_events; proc_simpl; reflexivity.
Qed.

(** After a successful preparation the handler runs the command and
    classifies its result. *)
Lemma doHandleConnection_ready (w : World) (line : string) :
  admitted w = true ->
  ready w line ->
  let task := ReplaceAll line "_" "-" in
  let path := executablePath_of (binariesDirectory c) task in
  (doHandleConnection w).1 =
    admission w ++ (prepare w).1 ++ (run w path).1
      ++ (classify w task path (run w path).2).1 ++ [SemaRelease] /\
  (doHandleConnection w).2 =
    match (classify w task path (run w path).2).2 with
    | inl _ => Returns None
    | inr o => o
    end.
Proof.
  intros Hadm Hready task path.
  destruct (doHandleConnection_admitted w Hadm) as [Htrace Hres].
  rewrite Htrace, Hres, serve_trace, serve_result.
  rewrite (prepare_ready w line Hready). cbn [fst snd].
  rewrite <- !app_assoc. split; reflexivity.
Qed.

Lemma admission_quiet (w : World) :
  Forall (fun ev => is_fetch ev = false /\ is_start ev = false
                    /\ is_create ev = false /\ is_close ev = false)
         (admission w).
Proof. unfold admission. destruct (sema_try w); repeat constructor. Qed.

Lemma isRegularFile_quiet (w : World) (path : string) :
  Forall (fun ev => is_fetch ev = false /\ is_start ev = false
                    /\ is_create ev = false /\ is_close ev = false)
         (isRegularFile w path).1.
Proof. unfold isRegularFile. destruct (fs_stat w path); repeat constructor. Qed.

(** X6: a task that names no regular file is refused before anything
    is made for it.  When the first line is read and the path it names
    does not exist, cannot be examined or is not a regular file, the
    handler returns [unknown task <task> (@ <path>)]; it creates no
    submission file, starts no command and asks for no flag, and the
    slot is released as the last thing it does. *)
Theorem unknown_task_refused (w : World) (line : string)
        (rd : LimitedReader (LimitedReader ConnIn)) :
  admitted w = true ->
  first_line w = Some ((line, None), rd) ->
  (isRegularFile w (executablePath_of (binariesDirectory c)
                                      (ReplaceAll line "_" "-"))).2 = false ->
  (doHandleConnection w).2 =
    Returns (Some (errorString
      ("unknown task " +:+ ReplaceAll line "_" "-" +:+ " (@ "
         +:+ executablePath_of (binariesDirectory c) (ReplaceAll line "_" "-")
         +:+ ")"))) /\
  exists before,
    (doHandleConnection w).1 = before ++ [SemaRelease] /\
    Forall (fun ev => is_fetch ev = false /\ is_start ev = false
                      /\ is_create ev = false /\ is_close ev = false) before.
Proof.
  intros Hadm Hline Hreg.
  destruct (doHandleConnection_admitted w Hadm) as [Htrace Hres].
  rewrite Htrace, Hres, serve_trace, serve_result.
  rewrite (prepare_unknown w line rd Hline Hreg). cbn [fst snd].
  split; [reflexivity|].
  eexists. split; [rewrite app_nil_r, app_assoc; reflexivity|].
  apply Forall_app. split; [apply admission_quiet|].
  constructor; [repeat split|apply isRegularFile_quiet].
Qed.

(** X7: when the submission file cannot be created the request ends
    there: the handler returns [failed to create input file: ...] with
    the error of [os.Create]; the one creation is the last thing tried
    before the release, and no command is started. *)
Theorem submission_file_failure (w : World) (line : string)
        (rd : LimitedReader (LimitedReader ConnIn)) (e : error) :
  admitted w = true ->
  first_line w = Some ((line, None), rd) ->
  (isRegularFile w (executablePath_of (binariesDirectory c)
                                      (ReplaceAll line "_" "-"))).2 = true ->
  create_err w = Some e ->
  (doHandleConnection w).2 =
    Returns (Some (Errorf_w "failed to create input file: " e)) /\
  exists before,
    (doHandleConnection w).1 =
      before ++ [CreateFile (Join [submitsDirectory c;
                                   ReplaceAll line "_" "-" +:+ "_" +:+ now w]);
                 SemaRelease] /\
    Forall (fun ev => is_fetch ev = false /\ is_start ev = false
                      /\ is_create ev = false /\ is_close ev = false) before.
Proof.
  intros Hadm Hline Hreg Hcreate.
  destruct (doHandleConnection_admitted w Hadm) as [Htrace Hres].
  rewrite Htrace, Hres, serve_trace, serve_result.
  rewrite (prepare_create_failed w line rd e Hline Hreg Hcreate). cbn [fst snd].
  split; [reflexivity|].
  exists (admission w ++ ConnWrite "Enter task name: "
            :: (isRegularFile w (executablePath_of (binariesDirectory c)
                                                   (ReplaceAll line "_" "-"))).1).
  split.
  - rewrite app_nil_r, <- !app_assoc. cbn [app].
    rewrite <- !app_assoc. reflexivity.
  - apply Forall_app. split; [apply admission_quiet|].
    constructor; [repeat split|apply isRegularFile_quiet].
Qed.

Lemma prepare_quiet (w : World) :
  Forall (fun ev => is_fetch ev = false /\ is_start ev = false) (prepare w).1.
Proof.
  eapply Forall_impl; [apply prepare_kind|]. apply prepare_event_quiet.
Qed.

Lemma before_classify_quiet (w : World) (path : string) :
  Forall (fun ev => is_fetch ev = false)
         (admission w ++ (prepare w).1 ++ (run w path).1).
Proof.
  apply Forall_app. split.
  { eapply Forall_impl; [apply admission_quiet|]. intros ev (Hf & _). exact Hf. }
  apply Forall_app. split.
  { eapply Forall_impl; [apply prepare_quiet|]. intros ev (Hf & _). exact Hf. }
  eapply Forall_impl; [apply run_kind|]. apply run_event_not_fetch.
Qed.

(** X8: a command that ends with exit code 0 is reported as finished.
    When the connection got as far as [proxy.run], the command started
    and [cmd.Wait] gave no error, the handler returns nil; the last
    thing written is [Command finished normally], right before the
    release; the Flag Client is not asked, and [handleConnection] adds
    no error line before it closes. *)
Theorem normal_exit_reported (w : World) (line : string) (connID : Z) :
  admitted w = true ->
  ready w line ->
  start_err w = None ->
  wait_err w = None ->
  (doHandleConnection w).2 = Returns None /\
  Forall (fun ev => is_fetch ev = false) (doHandleConnection w).1 /\
  (exists before,
      (doHandleConnection w).1 =
        before ++ [ConnWrite ("Command finished normally" +:+ nl); SemaRelease]) /\
  handleConnection w connID =
    Log (LogNewConnection connID) :: (doHandleConnection w).1
      ++ [ConnClose; Log (LogClosedConnection connID)].
Proof.
  intros Hadm Hready Hstart Hwait.
  destruct (doHandleConnection_ready w line Hadm Hready) as [Htrace Hres].
  assert (Hrun : forall path, (run w path).2 = None).
  { intros path. unfold run. rewrite Hstart. exact Hwait. }
  rewrite Hrun in Htrace, Hres.
  assert (Hcl : forall task path,
             classify w task path None
             = ([ConnWrite ("Command finished normally" +:+ nl)],
                inr (Returns None))) by reflexivity.
  rewrite Hcl in Htrace, Hres. cbn [fst snd] in Htrace, Hres.
  split; [exact Hres|]. split; [|split].
  - rewrite Htrace, !app_assoc. apply Forall_app. split; [|repeat constructor].
    apply Forall_app. split; [|repeat constructor].
    rewrite <- !app_assoc. apply before_classify_quiet.
  - rewrite Htrace.
    exists (admission w ++ (prepare w).1
              ++ (run w (executablePath_of (binariesDirectory c)
                                           (ReplaceAll line "_" "-"))).1).
    rewrite <- !app_assoc. reflexivity.
  - unfold Crashme.handleConnection.
    destruct (Crashme.doHandleConnection TrimSpace c w) as [t r].
    simpl in Hres. subst r. reflexivity.
Qed.

(** X9: a command that ends otherwise than by the interrupt gets its
    flag.  When [run] gives an exit error whose signal is not the
    interrupt, the crash notice is written, the Flag Client is asked
    for the task as reported to the client, and when it returns a flag
    the handler writes the flag and a newline, releases the slot and
    returns nil. *)
Theorem crash_delivers_flag (w : World) (line : string) (err : error)
        (status : Z) (text flag : string) :
  admitted w = true ->
  ready w line ->
  (run w (executablePath_of (binariesDirectory c) (ReplaceAll line "_" "-"))).2
    = Some err ->
  As_ExitError err = Some (status, text) ->
  Signal status <> Interrupt ->
  crash_notice_err w = None ->
  (fetchFlag w (ReplaceAll line "_" "-")).2 = (flag, None) ->
  (doHandleConnection w).2 = Returns None /\
  exists before,
    (doHandleConnection w).1 =
      before ++ [ConnWrite (crash_notice text)]
        ++ (fetchFlag w (ReplaceAll line "_" "-")).1
        ++ [ConnWrite (flag +:+ nl); SemaRelease] /\
    Forall (fun ev => is_fetch ev = false) before.
Proof.
  intros Hadm Hready Hrun Has Hsig Hnotice Hflag.
  destruct (doHandleConnection_ready w line Hadm Hready) as [Htrace Hres].
  rewrite Hrun in Htrace, Hres.
  apply Z.eqb_neq in Hsig.
  assert (Hcl : classify w (ReplaceAll line "_" "-")
                  (executablePath_of (binariesDirectory c) (ReplaceAll line "_" "-"))
                  (Some err)
                = (Log (LogCommandFailed (ReplaceAll line "_" "-")
                                         (ExitStatus status) text)
                     :: ConnWrite (crash_notice text)
                     :: (fetchFlag w (ReplaceAll line "_" "-")).1
                     ++ [ConnWrite (flag +:+ nl)],
                   inr (Returns None))).
  { apply injective_projections; unfold classify; rewrite Has; proc_simpl;
      cbn beta iota; rewrite Hsig; proc_simpl; rewrite Hnotice; proc_simpl;
      rewrite Hflag; cbn [fst snd]; proc_simpl; reflexivity. }
  rewrite Hcl in Htrace, Hres. cbn [fst snd] in Htrace, Hres.
  split; [exact Hres|].
  exists (admission w ++ (prepare w).1
            ++ (run w (executablePath_of (binariesDirectory c)
                                         (ReplaceAll line "_" "-"))).1
            ++ [Log (LogCommandFailed (ReplaceAll line "_" "-")
                                      (ExitStatus status) text)]).
  split.
  - rewrite Htrace, <- !app_assoc. cbn [app]. rewrite <- !app_assoc. reflexivity.
  - rewrite !app_assoc. apply Forall_app. split; [|repeat constructor].
    rewrite <- !app_assoc. apply before_classify_quiet.
Qed.

(** X10: an error of [run] that is no exit error is reported as a
    failure to start, and earns no flag.  The handler returns
    [failed to start command: <error>, stderr: <text>] around the error
    of [run]; since [run] has put the same words before an error of
    [cmd.Start], such an error is reported with the words twice. *)
Theorem start_failure_reported (w : World) (line : string) (err : error) :
  admitted w = true ->
  ready w line ->
  (run w (executablePath_of (binariesDirectory c) (ReplaceAll line "_" "-"))).2
    = Some err ->
  As_ExitError err = None ->
  (doHandleConnection w).2 =
    Returns (Some (wrapError
      ("failed to start command: " +:+ Error err +:+ ", stderr: "
         +:+ stderr_text w) err)) /\
  Forall (fun ev => is_fetch ev = false) (doHandleConnection w).1 /\
  (forall e, start_err w = Some e ->
             Error err = "failed to start command: " +:+ Error e /\
             CmdWait ∉ (doHandleConnection w).1).
Proof.
  intros Hadm Hready Hrun Has.
  destruct (doHandleConnection_ready w line Hadm Hready) as [Htrace Hres].
  rewrite Hrun in Htrace, Hres.
  assert (Hcl : classify w (ReplaceAll line "_" "-")
                  (executablePath_of (binariesDirectory c) (ReplaceAll line "_" "-"))
                  (Some err)
                = ([Log (LogRunFailed
                           (executablePath_of (binariesDirectory c)
                                              (ReplaceAll line "_" "-"))
                           (stderr_text w))],
                   inr (Returns (Some (wrapError
                     ("failed to start command: " +:+ Error err +:+ ", stderr: "
                        +:+ stderr_text w) err))))).
  { unfold classify. rewrite Has. reflexivity. }
  rewrite Hcl in Htrace, Hres. cbn [fst snd] in Htrace, Hres.
  split; [exact Hres|]. split.
  - rewrite Htrace, !app_assoc. apply Forall_app. split; [|repeat constructor].
    apply Forall_app. split; [|repeat constructor].
    rewrite <- !app_assoc. apply before_classify_quiet.
  - intros e Hstart. unfold run in Hrun, Htrace. rewrite Hstart in Hrun, Htrace.
    cbn [fst snd] in Hrun, Htrace. injection Hrun as <-. split; [reflexivity|].
    rewrite Htrace. intros Hin.
    apply elem_of_app in Hin as [Hin|Hin].
    { pose proof (admission_quiet w) as Hq. unfold admission in Hin, Hq.
      destruct (sema_try w);
        repeat (apply elem_of_cons in Hin as [Hin|Hin]; [discriminate|]);
        inversion Hin. }
    apply elem_of_app in Hin as [Hin|Hin].
    { pose proof (prepare_kind TrimSpace c w) as Hk. rewrite Forall_forall in Hk.
      specialize (Hk _ Hin). discriminate. }
    repeat (apply elem_of_cons in Hin as [Hin|Hin]; [discriminate|]).
    inversion Hin.
Qed.

(** X11: when the crash notice cannot be written the flag is not
    fetched: after an exit error with a signal other than the
    interrupt, a failed write of the notice makes the handler return
    [failed to write to the connection: ...] without asking the Flag
    Client. *)
Theorem crash_notice_failure (w : World) (line : string) (err e : error)
        (status : Z) (text : string) :
  admitted w = true ->
  ready w line ->
  (run w (executablePath_of (binariesDirectory c) (ReplaceAll line "_" "-"))).2
    = Some err ->
  As_ExitError err = Some (status, text) ->
  Signal status <> Interrupt ->
  crash_notice_err w = Some e ->
  (doHandleConnection w).2 =
    Returns (Some (Errorf_w "failed to write to the connection: " e)) /\
  Forall (fun ev => is_fetch ev = false) (doHandleConnection w).1.
Proof.
  intros Hadm Hready Hrun Has Hsig Hnotice.
  destruct (doHandleConnection_ready w line Hadm Hready) as [Htrace Hres].
  rewrite Hrun in Htrace, Hres.
  apply Z.eqb_neq in Hsig.
  assert (Hcl : classify w (ReplaceAll line "_" "-")
                  (executablePath_of (binariesDirectory c) (ReplaceAll line "_" "-"))
                  (Some err)
                = ([Log (LogCommandFailed (ReplaceAll line "_" "-")
                                          (ExitStatus status) text);
                    ConnWrite (crash_notice text)],
                   inr (Returns (Some
                     (Errorf_w "failed to write to the connection: " e))))).
  { apply injective_projections; unfold classify; rewrite Has; proc_simpl;
      cbn beta iota; rewrite Hsig; proc_simpl; rewrite Hnotice; reflexivity. }
  rewrite Hcl in Htrace, Hres. cbn [fst snd] in Htrace, Hres.
  split; [exact Hres|].
  rewrite Htrace, !app_assoc. apply Forall_app. split; [|repeat constructor].
  apply Forall_app. split; [|repeat constructor].
  rewrite <- !app_assoc. apply before_classify_quiet.
Qed.

(** X12: the connection is closed once, after everything else done
    on it.  Every call of [handleConnection] ends with the close and
    the log line of it, and nothing before them closes the connection:
    no text is written to a closed connection and the slot is released
    before the close. *)
Theorem connection_closed_last (w : World) (connID : Z) :
  exists before,
    handleConnection w connID =
      before ++ [ConnClose; Log (LogClosedConnection connID)] /\
    Forall (fun ev => is_close ev = false) before.
Proof.
  destruct (doHandleConnection_returns TrimSpace c w) as [err Herr].
  destruct (doHandleConnection_trace TrimSpace c w)
    as (rest & Htrace & body & -> & Hbody).
  assert (Hquiet : Forall (fun ev => is_close ev = false)
                          (doHandleConnection w).1).
  { rewrite Htrace. constructor; [reflexivity|].
    apply Forall_app. split; [destruct (sema_try w); repeat constructor|].
    destruct (admitted w); [|constructor].
    constructor; [reflexivity|]. apply Forall_app. split; [|repeat constructor].
    eapply Forall_impl; [exact Hbody|]. intros []; simpl; congruence. }
  unfold Crashme.handleConnection.
  destruct (Crashme.doHandleConnection TrimSpace c w) as [t r].
  simpl in Herr, Hquiet. subst r.
  destruct err as [e|].
  - exists (Log (LogNewConnection connID) :: t
              ++ [Log (LogHandleFailed e);
                  ConnWrite ("Error: " +:+ Error e +:+ nl)]).
    split; [cbn [app]; rewrite <- app_assoc; reflexivity|].
    constructor; [reflexivity|]. apply Forall_app. split; [exact Hquiet|].
    repeat constructor.
  - exists (Log (LogNewConnection connID) :: t).
    split; [reflexivity|]. constructor; [reflexivity|exact Hquiet].
Qed.

End HandlerPaths.

(** ** The input task of the proxy in the run of a command *)

Section InputTask.
Import Go Crashme.
Variable TrimSpace : string -> string.
Variable c : checker.

Local Abbreviation prepare := (prepare TrimSpace c).
Local Abbreviation serve := (serve TrimSpace c).
Local Abbreviation doHandleConnection := (doHandleConnection TrimSpace c).

(** The event is none of the two closes and not the interrupt. *)
Local Abbreviation apart :=
  (fun ev : Event => is_close_stdout ev = false /\ is_close_stderr ev = false
                     /\ is_signal ev = false).

(** An event of the handler outside [run]. *)
Local Abbreviation outside :=
  (fun ev : Event => apart ev /\ is_start ev = false).

Lemma prepare_outside (w : World) : Forall outside (prepare w).1.
Proof.
  eapply Forall_impl; [apply prepare_kind|].
  intros []; simpl; intros; try discriminate; auto.
Qed.

Lemma classify_outside (w : World) (task path : string) (r : option error) :
  Forall outside (classify w task path r).1.
Proof.
  eapply Forall_impl; [apply classify_kind|].
  intros []; simpl; intros; try discriminate; auto.
Qed.

Lemma outside_apart (t : list Event) : Forall outside t -> Forall apart t.
Proof. intros Ht. eapply Forall_impl; [exact Ht|]. intros ev [Hev _]. exact Hev. Qed.

(** The handler's trace around the run of the command. *)
Lemma handler_around_run (w : World) :
  Forall outside (doHandleConnection w).1 \/
  exists started pre post,
    (prepare w).2 = inl started /\
    (doHandleConnection w).1 = pre ++ (run w started.2).1 ++ post /\
    Forall outside pre /\ Forall outside post.
Proof.
  rewrite doHandleConnection_unfold.
  pose proof (prepare_outside w) as Hprep.
  assert (Hserve :
    Forall outside ((serve w).1 ++ [SemaRelease]) \/
    exists started post,
      (prepare w).2 = inl started /\
      (serve w).1 ++ [SemaRelease]
        = (prepare w).1 ++ (run w started.2).1 ++ post /\
      Forall outside post).
  { rewrite serve_trace.
    destruct (Crashme.prepare TrimSpace c w).2 as [started|o] eqn:Hp.
    - right. exists started,
        ((classify w started.1 started.2 (run w started.2).2).1 ++ [SemaRelease]).
      split; [reflexivity|]. split; [rewrite <- !app_assoc; reflexivity|].
      apply Forall_app. split; [apply classify_outside|repeat constructor].
    - left. rewrite app_nil_r. apply Forall_app.
      split; [exact Hprep|repeat constructor]. }
  destruct (sema_try w); [|destruct (sema_acquire w) as [e|]]; cbn [fst].
  - destruct Hserve as [Hq|(started & post & Hp & Heq & Hpost)].
    + left. constructor; [repeat split|exact Hq].
    + right. exists started, (SemaTryAcquire true :: (prepare w).1), post.
      split; [exact Hp|]. split; [cbn [app]; rewrite Heq; reflexivity|].
      split; [constructor; [repeat split|exact Hprep]|exact Hpost].
  - left. repeat constructor.
  - destruct Hserve as [Hq|(started & post & Hp & Heq & Hpost)].
    + left. cbn [app]. repeat (constructor; [repeat split|]). exact Hq.
    + right.
      exists started,
        ([SemaTryAcquire false; ConnWrite waiting; SemaAcquire None]
           ++ (prepare w).1), post.
      split; [exact Hp|]. split; [rewrite Heq, <- app_assoc; reflexivity|].
      split; [|exact Hpost].
      apply Forall_app. split; [repeat constructor|exact Hprep].
Qed.

Lemma handleStdin_shape (w : World) :
  exists logs,
    handleStdin w =
      [CopyStdin; CloseStdoutPipe; CloseStderrPipe;
       SignalInterrupt (signal_err w)] ++ logs /\
    Forall (fun ev => is_log ev = true) logs.
Proof.
  unfold handleStdin. eexists. split; [reflexivity|].
  case_bool_decide; repeat constructor.
Qed.

Lemma logs_apart (logs : list Event) :
  Forall (fun ev => is_log ev = true) logs -> Forall apart logs.
Proof.
  intros Hlogs. eapply Forall_impl; [exact Hlogs|].
  intros []; simpl; intros; try discriminate; auto.
Qed.

(** The trace of [run]: the block of the input task right after the
    start when the input ends while the child runs, and none of its
    events otherwise. *)
Lemma run_input_task (w : World) (path : string) :
  match start_err w, stdin_eof_before_exit w with
  | None, true =>
      exists after,
        (run w path).1 =
          [CmdStart path; CopyStdin; CloseStdoutPipe; CloseStderrPipe;
           SignalInterrupt (signal_err w)] ++ after /\
        Forall apart after
  | _, _ => Forall apart (run w path).1
  end.
Proof.
  unfold run. destruct (start_err w) as [e|]; [repeat constructor|].
  destruct (stdin_eof_before_exit w); [|repeat constructor].
  destruct (handleStdin_shape w) as (logs & -> & Hlogs).
  exists (logs ++ handleStdout w ++ handleStderr w ++ [CmdWait]).
  cbn [fst]. split; [rewrite <- !app_assoc; reflexivity|].
  apply Forall_app. split; [apply logs_apart, Hlogs|repeat constructor].
Qed.

(** C4: at the end of the input the task closes the read ends of the
    child's stdout and stderr, in that order, and then sends the
    interrupt, once; nothing but log lines follows.  These are events
    of [run] and of the handler: when the command has started and its
    input ends while it runs, the trace of [run] and the trace of the
    handler hold the copy, the two closes and the interrupt next to
    each other in this order and nowhere else; in every other trace
    there is no close and no interrupt.  Whatever the answer to the
    interrupt, also a failure because the child has exited, [run] and
    the handler give the same result. *)
Theorem interrupt_follows_closes (w : World) :
  (exists logs,
      handleStdin w =
        [CopyStdin; CloseStdoutPipe; CloseStderrPipe;
         SignalInterrupt (signal_err w)] ++ logs /\
      Forall (fun ev => is_log ev = true) logs) /\
  preceded_by is_close_stdout is_close_stderr (handleStdin w) /\
  preceded_by is_close_stderr is_signal (handleStdin w) /\
  Exists (fun ev => is_signal ev = true) (handleStdin w) /\
  (forall err path, (run (with_signal err w) path).2 = (run w path).2) /\
  (forall err, (doHandleConnection (with_signal err w)).2
               = (doHandleConnection w).2) /\
  (forall path,
      start_err w = None -> stdin_eof_before_exit w = true ->
      exists after,
        (run w path).1 =
          [CmdStart path; CopyStdin; CloseStdoutPipe; CloseStderrPipe;
           SignalInterrupt (signal_err w)] ++ after /\
        Forall apart after) /\
  (forall path,
      CmdStart path ∈ (doHandleConnection w).1 ->
      start_err w = None -> stdin_eof_before_exit w = true ->
      exists before after,
        (doHandleConnection w).1 =
          before ++ [CmdStart path; CopyStdin; CloseStdoutPipe; CloseStderrPipe;
                     SignalInterrupt (signal_err w)] ++ after /\
        Forall apart before /\ Forall apart after) /\
  (Forall apart (doHandleConnection w).1 \/
   exists path,
     CmdStart path ∈ (doHandleConnection w).1 /\
     start_err w = None /\ stdin_eof_before_exit w = true).
Proof.
  pose proof (handleStdin_shape w) as Hshape.
  split; [exact Hshape|].
  destruct Hshape as (logs & Hstdin & Hlogs).
  assert (Hrest : forall (q : Event -> bool) j ev,
             (forall m, q (Log m) = false) ->
             logs !! j = Some ev -> q ev = true -> False).
  { intros q j ev Hq Hj Hev. rewrite Forall_forall in Hlogs.
    apply list_elem_of_lookup_2 in Hj. specialize (Hlogs _ Hj).
    destruct ev; try discriminate. rewrite Hq in Hev. discriminate. }
  assert (Hblock : forall started pre post,
             (doHandleConnection w).1 = pre ++ (run w started).1 ++ post ->
             Forall apart pre -> Forall apart post ->
             start_err w = None -> stdin_eof_before_exit w = true ->
             exists before after,
               (doHandleConnection w).1 =
                 before ++ [CmdStart started; CopyStdin; CloseStdoutPipe;
                            CloseStderrPipe; SignalInterrupt (signal_err w)]
                        ++ after /\
               Forall apart before /\ Forall apart after).
  { intros started pre post Heq Hpre Hpost Hstart Heof.
    pose proof (run_input_task w started) as Hrun.
    rewrite Hstart, Heof in Hrun. destruct Hrun as (after & Hrun & Hafter).
    exists pre, (after ++ post). rewrite Heq, Hrun, <- !app_assoc.
    split; [reflexivity|]. split; [exact Hpre|].
    apply Forall_app. split; assumption. }
  rewrite Hstdin.
  split; [|split; [|split; [|split; [|split; [|split; [|split]]]]]].
  - intros j ev Hj Hq.
    destruct j as [|[|[|[|j]]]]; simpl in Hj;
      try (injection Hj as <-; discriminate).
    + exists 1%nat, CloseStdoutPipe. split; [lia|]. split; reflexivity.
    + exfalso. eapply (Hrest is_close_stderr); eauto.
  - intros j ev Hj Hq.
    destruct j as [|[|[|[|j]]]]; simpl in Hj;
      try (injection Hj as <-; discriminate).
    + exists 2%nat, CloseStderrPipe. split; [lia|]. split; reflexivity.
    + exfalso. eapply (Hrest is_signal); eauto.
  - do 3 apply Exists_cons_tl. apply Exists_cons_hd. reflexivity.
  - intros err path. apply run_result_signal.
  - apply doHandleConnection_result_signal.
  - intros path Hstart Heof.
    pose proof (run_input_task w path) as Hrun.
    rewrite Hstart, Heof in Hrun. exact Hrun.
  - intros path Hin Hstart Heof.
    destruct (handler_around_run w)
      as [Hq|(started & pre & post & Hp & Heq & Hpre & Hpost)].
    { exfalso. rewrite Forall_forall in Hq.
      destruct (Hq _ Hin) as [_ Hs]. discriminate. }
    assert (Hpath : path = started.2).
    { rewrite Heq in Hin. rewrite Forall_forall in Hpre, Hpost.
      apply elem_of_app in Hin as [Hin|Hin];
        [destruct (Hpre _ Hin) as [_ Hs]; discriminate|].
      apply elem_of_app in Hin as [Hin|Hin];
        [|destruct (Hpost _ Hin) as [_ Hs]; discriminate].
      apply (run_start w _ _ Hin). }
    subst path.
    apply (Hblock started.2 pre post Heq (outside_apart _ Hpre)
                  (outside_apart _ Hpost) Hstart Heof).
  - destruct (handler_around_run w)
      as [Hq|(started & pre & post & Hp & Heq & Hpre & Hpost)];
      [left; apply outside_apart, Hq|].
    apply outside_apart in Hpre, Hpost.
    pose proof (run_input_task w started.2) as Hrun.
    destruct (start_err w) as [e|] eqn:Hstart.
    { left. rewrite Heq. apply Forall_app. split; [exact Hpre|].
      apply Forall_app. split; [exact Hrun|exact Hpost]. }
    destruct (stdin_eof_before_exit w) eqn:Heof.
    + right. exists started.2. split; [|split; reflexivity].
      destruct Hrun as (after & Hrun & _). rewrite Heq, Hrun.
      apply elem_of_app. right. apply list_elem_of_here.
    + left. rewrite Heq. apply Forall_app. split; [exact Hpre|].
      apply Forall_app. split; [exact Hrun|exact Hpost].
Qed.
End InputTask.

Section InputTaskSamples.
Import Go Crashme Samples.

Lemma interrupt_follows_closes_witness :
  exists before after,
    (doHandleConnection asciiTrimSpace server eof_then_sigint).1 =
      before ++ [CmdStart "/srv/build/ctf_div_zero"; CopyStdin;
                 CloseStdoutPipe; CloseStderrPipe; SignalInterrupt None]
             ++ after /\
    Forall (fun ev => is_close_stdout ev = false /\ is_close_stderr ev = false
                      /\ is_signal ev = false) before /\
    Forall (fun ev => is_close_stdout ev = false /\ is_close_stderr ev = false
                      /\ is_signal ev = false) after.
Proof.
  destruct (interrupt_follows_closes asciiTrimSpace server eof_then_sigint)
    as (_ & _ & _ & _ & _ & _ & _ & Hhandler & _).
  apply (Hhandler "/srv/build/ctf_div_zero").
  - vm_compute. find_event.
  - reflexivity.
  - reflexivity.
Defined.
End InputTaskSamples.

Section HandlerPathSamples.
Import Go Crashme Samples.

Lemma echo_ok_ready : ready asciiTrimSpace server echo_ok "echo-ok".
Proof.
  split; [eexists; vm_compute; reflexivity|].
  split; [reflexivity|]. split; reflexivity.
Qed.

Lemma div_zero_ready : ready asciiTrimSpace server div_zero "div-zero".
Proof.
  split; [eexists; vm_compute; reflexivity|].
  split; [reflexivity|]. split; reflexivity.
Qed.

Lemma first_line_accepted_witness :
  exists rd, first_line asciiTrimSpace echo_ok = Some (("echo-ok", None), rd).
Proof.
  eexists.
  apply (first_line_accepted asciiTrimSpace echo_ok "echo-ok" "hello").
  - reflexivity.
  - reflexivity.
  - vm_compute. reflexivity.
Defined.

Lemma unknown_task_refused_witness :
  (doHandleConnection asciiTrimSpace server unknown).2 =
    Returns (Some (errorString
      "unknown task no-such-task (@ /srv/build/ctf_no_such_task)")).
Proof.
  assert (Hline : exists rd, first_line asciiTrimSpace unknown
                             = Some (("no_such_task", None), rd))
    by (eexists; vm_compute; reflexivity).
  destruct Hline as [rd Hline].
  exact (proj1 (unknown_task_refused asciiTrimSpace server unknown
                  "no_such_task" rd eq_refl Hline eq_refl)).
Defined.

Lemma submission_file_failure_witness :
  (doHandleConnection asciiTrimSpace server disk_full).2 =
    Returns (Some (Errorf_w "failed to create input file: "
                            (errorString "no space left on device"))).
Proof.
  destruct echo_ok_ready as ((rd & Hline) & Hreg & _).
  exact (proj1 (submission_file_failure asciiTrimSpace server disk_full
                  "echo-ok" rd (errorString "no space left on device")
                  eq_refl Hline Hreg eq_refl)).
Defined.

Lemma normal_exit_reported_witness :
  (doHandleConnection asciiTrimSpace server echo_ok).2 = Returns None /\
  Forall (fun ev => is_fetch ev = false)
         (doHandleConnection asciiTrimSpace server echo_ok).1.
Proof.
  destruct (normal_exit_reported asciiTrimSpace server echo_ok "echo-ok" 0%Z
              eq_refl echo_ok_ready eq_refl eq_refl) as (Hres & Hquiet & _).
  split; [exact Hres|exact Hquiet].
Defined.

Lemma crash_delivers_flag_witness :
  (doHandleConnection asciiTrimSpace server div_zero).2 = Returns None /\
  ConnWrite ("CTF{x}" +:+ nl)
    ∈ (doHandleConnection asciiTrimSpace server div_zero).1.
Proof.
  destruct (crash_delivers_flag asciiTrimSpace server div_zero "div-zero"
              (ExitError status_exit1 "exit status 1") status_exit1
              "exit status 1" "CTF{x}"
              eq_refl div_zero_ready eq_refl eq_refl)
    as (Hres & before & Htrace & _).
  - vm_compute. discriminate.
  - reflexivity.
  - reflexivity.
  - split; [exact Hres|]. rewrite Htrace.
    rewrite !elem_of_app. right. right. right. apply list_elem_of_here.
Defined.

Lemma start_failure_reported_witness :
  (doHandleConnection asciiTrimSpace server not_executable).2 =
    Returns (Some (wrapError
      ("failed to start command: failed to start command: exec format error"
         +:+ ", stderr: ")
      (Errorf_w "failed to start command: " (errorString "exec format error")))).
Proof.
  exact (proj1 (start_failure_reported asciiTrimSpace server not_executable
                  "echo-ok"
                  (Errorf_w "failed to start command: "
                            (errorString "exec format error"))
                  eq_refl echo_ok_ready eq_refl eq_refl)).
Defined.

Lemma crash_notice_failure_witness :
  (doHandleConnection asciiTrimSpace server hung_up).2 =
    Returns (Some (Errorf_w "failed to write to the connection: "
                            (errorString "broken pipe"))) /\
  Forall (fun ev => is_fetch ev = false)
         (doHandleConnection asciiTrimSpace server hung_up).1.
Proof.
  apply (crash_notice_failure asciiTrimSpace server hung_up "div-zero"
           (ExitError status_exit1 "exit status 1")
           (errorString "broken pipe") status_exit1 "exit status 1").
  - reflexivity.
  - exact div_zero_ready.
  - reflexivity.
  - reflexivity.
  - vm_compute. discriminate.
  - reflexivity.
Defined.
End HandlerPathSamples.

(** ** The flag client over a whole run *)

Section FlagClientRuns.
Import Go Crashme.

Lemma Retry_loop_success (task flag msg : string)
      (b : Backoff.ExponentialBackOff) (rounds : list (Tick * HttpOutcome)) :
  Retry_loop task b (Response true flag msg) rounds =
    ([HttpPost task; Log (LogFetchAttempt None)], (flag, None)).
Proof. destruct rounds; reflexivity. Qed.

Lemma Retry_loop_first_success (task flag msg : string)
      (later : list (Tick * HttpOutcome)) :
  forall (rounds : list (Tick * HttpOutcome)) (b : Backoff.ExponentialBackOff)
         (first : HttpOutcome) (fails : list HttpOutcome),
    first :: map snd rounds = fails ++ [Response true flag msg] ->
    Forall (fun o => (doFetchFlag task o).2.2 <> None) fails ->
    Forall (fun d => d <> Backoff.Stop) (backoffs b (map fst rounds)) ->
    Retry_loop task b first (rounds ++ later) =
      (flat_map (fun od : HttpOutcome * Z =>
                   (doFetchFlag task od.1).1
                     ++ [Log (LogFetchAttempt (doFetchFlag task od.1).2.2);
                         BackoffWait od.2])
                (zip fails (backoffs b (map fst rounds)))
         ++ [HttpPost task; Log (LogFetchAttempt None)],
       (flag, None)).
Proof.
  induction rounds as [|[tick retry] rounds IH];
    intros b first fails Hshape Hfail Hgrant.
  - destruct fails as [|o [|o' fails]]; cbn in Hshape; try discriminate.
    injection Hshape as ->. apply (Retry_loop_success task flag msg).
  - destruct fails as [|o fails]; cbn in Hshape.
    { injection Hshape as _ Hnil. discriminate. }
    injection Hshape as -> Hshape.
    apply Forall_cons in Hfail as [Ho Hfail].
    cbn [map fst backoffs] in Hgrant |- *.
    apply Forall_cons in Hgrant as [Hnext Hgrant].
    destruct ((doFetchFlag task o).2.2) as [e|] eqn:He; [|contradiction].
    cbn [app]. rewrite (Retry_loop_again task b o retry tick _ e He Hnext).
    rewrite (IH _ retry fails Hshape Hfail Hgrant).
    cbn [zip zip_with flat_map fst snd]. rewrite He, <- !app_assoc. reflexivity.
Qed.

(** X13: the first attempt that succeeds ends the fetch.  When the
    Flag Client fails some attempts, the policy grants a retry after
    each of them, and the next attempt is answered with [Ok],
    [fetchFlag] returns the flag of that answer and no error; it has
    waited after each failed attempt the time [NextBackOff] gave,
    logged after every attempt (after the successful one too, with a
    nil error), and whatever the service would have answered later is
    never asked for. *)
Theorem fetchFlag_first_success (w : World) (task flag msg : string)
        (fails : list HttpOutcome) (rounds later : list (Tick * HttpOutcome)) :
  flag_retries w = rounds ++ later ->
  flag_first w :: map snd rounds = fails ++ [Response true flag msg] ->
  Forall (fun o => (doFetchFlag task o).2.2 <> None) fails ->
  Forall (fun d => d <> Backoff.Stop)
         (backoffs (Backoff.Reset backoffPolicy) (map fst rounds)) ->
  fetchFlag w task =
    (flat_map (fun od : HttpOutcome * Z =>
                 (doFetchFlag task od.1).1
                   ++ [Log (LogFetchAttempt (doFetchFlag task od.1).2.2);
                       BackoffWait od.2])
              (zip fails (backoffs (Backoff.Reset backoffPolicy)
                                   (map fst rounds)))
       ++ [HttpPost task; Log (LogFetchAttempt None)],
     (flag, None)).
Proof.
  intros Hretries Hshape Hfail Hgrant. unfold fetchFlag, Retry.
  rewrite Hretries. apply (Retry_loop_first_success task flag msg); assumption.
Qed.
End FlagClientRuns.

(** ** The gateway never waits on itself *)

Section GatewayProgress.
Import Go Crashme.
Variable TrimSpace : string -> string.
Variable c : checker.

Lemma some_handler_holds (hs : list Handler) :
  (0 < foldr (fun h acc => (held (done h) + acc)%Z) 0%Z hs)%Z ->
  exists i h, hs !! i = Some h /\ (0 < held (done h))%Z.
Proof.
  induction hs as [|h hs IH]; simpl; [lia|]. intros Hpos.
  destruct (Z_lt_le_dec 0 (held (done h))) as [Hh|Hh].
  - exists 0%nat, h. split; [reflexivity|exact Hh].
  - destruct IH as (i & h' & Hi & Hh'); [lia|].
    exists (S i), h'. split; assumption.
Qed.

Lemma holder_next (h : Handler) :
  runs_handler TrimSpace c h ->
  (0 < held (done h))%Z ->
  exists ev rest, todo h = ev :: rest /\ is_acquired ev = false.
Proof.
  intros [conn Hh] Hheld.
  destruct (handler_account TrimSpace c _ _ _ _ Hh)
    as (_ & _ & Ha & Hr & _ & Hacq & _).
  destruct (todo h) as [|ev rest] eqn:Htodo.
  - exfalso. rewrite app_nil_r in Ha, Hr. unfold held in Hheld. lia.
  - exists ev, rest. split; [reflexivity|].
    destruct (is_acquired ev) eqn:Hev; [|reflexivity].
    exfalso. specialize (Hacq ev rest eq_refl Hev).
    pose proof (count_nonneg is_release (done h)).
    unfold held in Hheld. lia.
Qed.

Lemma free_slot_serves (s : Weighted) (ev : Event) :
  (cur s < size s)%Z -> is_Some (sema_apply s ev).
Proof.
  intros Hfree. apply Z.ltb_lt in Hfree.
  destruct ev as [[]|[]| | | | | | | | | | | | | | | |]; simpl;
    rewrite ?Hfree; eauto.
Qed.

(** X14: the gateway cannot block itself on the semaphore.  A handler
    that holds a slot has a next step, and that step is never an
    acquisition, so the semaphore lets it through; hence, with at least
    one runner, in every state the gateway reaches some handler can
    take its next step as long as one of them has not finished. *)
Theorem gateway_never_stuck (capacity : Z) (conns : list (World * Z))
        (sys : System) :
  (0 < capacity)%Z ->
  reachable TrimSpace c capacity conns sys ->
  (forall i h, handlers sys !! i = Some h -> (0 < held (done h))%Z ->
               exists sys', perform i sys = Some sys' /\ step sys sys') /\
  (Exists (fun h => todo h <> []) (handlers sys) ->
   exists i sys', perform i sys = Some sys' /\ step sys sys').
Proof.
  intros Hcap Hreach.
  destruct (reachable_balanced TrimSpace c _ _ _ (Z.lt_le_incl _ _ Hcap) Hreach)
    as (Hsize & Hle & Hcur & Hrun).
  assert (Hperform : forall i sys', perform i sys = Some sys' ->
            exists sys', perform i sys = Some sys' /\ step sys sys').
  { intros i sys' Hp. exists sys'. split; [exact Hp|].
    apply (perform_step i). exact Hp. }
  assert (Hholder : forall i h, handlers sys !! i = Some h ->
            (0 < held (done h))%Z ->
            exists sys', perform i sys = Some sys' /\ step sys sys').
  { intros i h Hi Hheld.
    rewrite Forall_forall in Hrun.
    destruct (holder_next h (Hrun _ (list_elem_of_lookup_2 _ _ _ Hi)) Hheld)
      as (ev & rest & Htodo & Hev).
    assert (Hs : exists s', sema_apply (sema sys) ev = Some s').
    { destruct ev as [[]|[]| | | | | | | | | | | | | | | |];
        simpl in Hev |- *; try discriminate; eauto. }
    destruct Hs as [s' Hs].
    destruct h as [d td]. simpl in Htodo. subst td.
    eapply Hperform. unfold perform. rewrite Hi, Hs. reflexivity. }
  split; [exact Hholder|].
  intros Hex.
  destruct (Z_lt_le_dec (cur (sema sys)) capacity) as [Hfree|Hfull].
  - apply Exists_exists in Hex as (h & Hin & Htodo).
    apply list_elem_of_lookup_1 in Hin as [i Hi].
    destruct h as [d [|ev rest]]; [contradiction|].
    destruct (free_slot_serves (sema sys) ev ltac:(lia)) as [s' Hs].
    exists i. eapply Hperform. unfold perform. rewrite Hi, Hs. reflexivity.
  - destruct (some_handler_holds (handlers sys)) as (i & h & Hi & Hheld).
    { unfold slots_held in Hcur. lia. }
    exists i. apply (Hholder i h Hi Hheld).
Qed.
End GatewayProgress.

Section RunSamples.
Import Go Crashme Samples.

Lemma fetchFlag_first_success_witness :
  (fetchFlag flaky "div-zero").2 = ("CTF{x}", None) /\
  waits (fetchFlag flaky "div-zero").1 = [500000000%Z].
Proof.
  rewrite (fetchFlag_first_success flaky "div-zero" "CTF{x}" ""
             [PostFailed (errorString "connection refused")]
             [(tick 200, Response true "CTF{x}" "")]
             [(tick 900, Response false "" "no such task")]).
  - split; [reflexivity|]. vm_compute. reflexivity.
  - reflexivity.
  - reflexivity.
  - repeat constructor. discriminate.
  - vm_compute. repeat constructor. discriminate.
Defined.

Lemma gateway_never_stuck_witness :
  exists i sys', perform i busy = Some sys' /\ step busy sys'.
Proof.
  apply (gateway_never_stuck asciiTrimSpace server 1 two_conns busy).
  - lia.
  - apply (schedule_reachable [0; 0; 1; 1; 1; 1]%nat). vm_compute. reflexivity.
  - apply Exists_cons_hd. vm_compute. discriminate.
Defined.
End RunSamples.

(** ** Names and paths *)

Section Names.
Import Go.

Lemma HasPrefix_char (b old : ascii) (s : string) :
  HasPrefix (String b s) (String old "") = Ascii.eqb b old.
Proof.
  unfold HasPrefix.
  change (String.prefix (String old "") (String b s))
    with (if ascii_dec old b then String.prefix "" s else false).
  destruct (ascii_dec old b) as [<-|Hne].
  - rewrite Ascii.eqb_refl. destruct s; reflexivity.
  - symmetry. apply Ascii.eqb_neq. congruence.
Qed.

(** [strings.ReplaceAll] of one byte by another works byte by byte. *)
Lemma ReplaceAll_char_cons (b old new : ascii) (s : string) :
  ReplaceAll (String b s) (String old "") (String new "") =
    String (if Ascii.eqb b old then new else b)
           (ReplaceAll s (String old "") (String new "")).
Proof.
  unfold ReplaceAll. cbn [ReplaceAll_from]. rewrite HasPrefix_char.
  destruct (Ascii.eqb b old); reflexivity.
Qed.

Lemma ReplaceAll_char_gone (s : string) (old new : ascii) :
  Ascii.eqb new old = false ->
  Contains (ReplaceAll s (String old "") (String new "")) (String old "") = false.
Proof.
  intros Hne. induction s as [|b s IH]; [reflexivity|].
  rewrite ReplaceAll_char_cons. apply (proj2 (contains_cons _ _ _)).
  split; [|exact IH].
  destruct (Ascii.eqb b old) eqn:Hb; [exact Hne|exact Hb].
Qed.

Lemma ReplaceAll_char_back (s : string) (a b : ascii) :
  ReplaceAll (ReplaceAll s (String a "") (String b "")) (String b "") (String a "")
  = ReplaceAll s (String b "") (String a "").
Proof.
  induction s as [|x s IH]; [reflexivity|].
  rewrite !ReplaceAll_char_cons, IH. f_equal.
  destruct (Ascii.eqb_spec x a) as [->|Hxa].
  - rewrite Ascii.eqb_refl. destruct (Ascii.eqb a b); reflexivity.
  - reflexivity.
Qed.

Lemma contains_append (s1 s2 : string) (ch : ascii) :
  Contains s1 (String ch "") = false ->
  Contains s2 (String ch "") = false ->
  Contains (s1 +:+ s2) (String ch "") = false.
Proof.
  intros H1 H2. induction s1 as [|b s1 IH]; [exact H2|].
  apply contains_cons in H1 as [Hb H1].
  change (String b s1 +:+ s2) with (String b (s1 +:+ s2)).
  apply (proj2 (contains_cons _ _ _)). auto.
Qed.

Lemma contains_middle (s1 s2 : string) (ch : ascii) :
  Contains (s1 +:+ String ch s2) (String ch "") = true.
Proof.
  induction s1 as [|b s1 IH].
  - change ("" +:+ String ch s2) with (String ch s2).
    cbn [Contains]. rewrite HasPrefix_char, Ascii.eqb_refl. reflexivity.
  - change (String b s1 +:+ String ch s2) with (String b (s1 +:+ String ch s2)).
    cbn [Contains]. rewrite IH. apply orb_true_r.
Qed.

(** The name of a submission file is one path element. *)
Lemma submission_name_plain (task stamp : string) :
  Contains task "/" = false ->
  Contains stamp "/" = false ->
  plain_name (task +:+ "_" +:+ stamp).
Proof.
  intros Htask Hstamp.
  pose proof (contains_middle task stamp "_") as Hmid.
  change (String "_" stamp) with ("_" +:+ stamp) in Hmid.
  assert (Hslash : Contains (task +:+ "_" +:+ stamp) "/" = false).
  { apply contains_append; [exact Htask|].
    change ("_" +:+ stamp) with (String "_" stamp).
    apply (proj2 (contains_cons _ _ _)). split; [reflexivity|exact Hstamp]. }
  split; [split; [|split; [|exact Hslash]]|];
    intros Heq; rewrite Heq in Hmid; discriminate.
Qed.

Lemma HasPrefix_slash_free (name pre : string) :
  Contains name "/" = false ->
  Contains pre "/" = true ->
  HasPrefix name pre = false.
Proof.
  revert name. induction pre as [|a pre IH]; intros name Hname Hpre;
    [discriminate|].
  destruct name as [|b name]; [reflexivity|].
  apply contains_cons in Hname as [Hb Hname].
  unfold HasPrefix.
  change (String.prefix (String a pre) (String b name))
    with (if ascii_dec a b then String.prefix pre name else false).
  destruct (ascii_dec a b) as [<-|Hne]; [|reflexivity].
  apply (IH name Hname).
  cbn [Contains] in Hpre. rewrite HasPrefix_char, Hb in Hpre. exact Hpre.
Qed.

(** [path.Join] of a directory and one plain name. *)
Lemma Join_child (d name : string) :
  plain_name name ->
  Join [d; name] = dir_prefix d +:+ name /\
  inside d (Join [d; name]) = true.
Proof.
  intros Hname. pose proof Hname as [(Hne & Hdot & Hslash) Hdots].
  assert (Hpath : Join [d; name] = dir_prefix d +:+ name).
  { unfold Join. cbn [fold_left].
    destruct name as [|b name'] eqn:Hn; [contradiction|]. rewrite <- Hn in *.
    assert (Hlen : (0 + String.length d + String.length name =? 0)%nat = false).
    { apply Nat.eqb_neq. rewrite Hn. cbn [String.length]. lia. }
    rewrite Hlen.
    unfold Join_buf at 2. cbn [String.eqb negb orb].
    destruct (String.eqb_spec d "") as [->|Hdir].
    - cbn [negb orb]. unfold Join_buf. cbn [String.eqb negb orb].
      destruct (String.eqb_spec name ""); [contradiction|].
      cbn [negb]. change ("" +:+ name) with name.
      rewrite Clean_plain by exact Hname. reflexivity.
    - cbn [negb orb]. change ("" +:+ d) with d.
      unfold Join_buf.
      destruct (String.eqb_spec d ""); [contradiction|]. cbn [negb orb].
      apply Clean_child; assumption. }
  split; [exact Hpath|].
  unfold inside. rewrite Hpath, CutPrefix_append.
  destruct (String.eqb_spec name ""); [contradiction|].
  destruct (String.eqb_spec name ".."); [contradiction|].
  rewrite (HasPrefix_slash_free name "../" Hslash eq_refl).
  rewrite (HasPrefix_slash_free name "/" Hslash eq_refl).
  reflexivity.
Qed.
End Names.

(** ** The session handler: what the first line leads to *)

Section HandlerInputs.
Import Go Crashme.
Variable TrimSpace : string -> string.
Variable c : checker.

Local Abbreviation prepare := (prepare TrimSpace c).
Local Abbreviation serve := (serve TrimSpace c).
Local Abbreviation doHandleConnection := (doHandleConnection TrimSpace c).
Local Abbreviation handleConnection := (handleConnection TrimSpace c).
Local Abbreviation first_line := (first_line TrimSpace).
Local Abbreviation ready := (ready TrimSpace c).

(** X15: a read error on the first line is passed on as it is.  When
    the connection fails, with an error other than [io.EOF], before a
    newline and before the hundredth byte, the handler returns
    [failed to read first line: ] followed by that error; no file is
    made and no command started. *)
Theorem read_error_reported (w : World) :
  admitted w = true ->
  Contains (pending (conn_in w)) nl = false ->
  (Z.of_nat (String.length (pending (conn_in w))) < MAX_FIRST_LINE_SIZE)%Z ->
  is_EOF (closing (conn_in w)) = false ->
  (doHandleConnection w).2 =
    Returns (Some (Errorf_w "failed to read first line: " (closing (conn_in w)))) /\
  (doHandleConnection w).1 =
    admission w ++ [ConnWrite "Enter task name: "; SemaRelease].
Proof.
  intros Hadm Hnl Hlen Heof.
  assert (Hread : exists rd,
    slowReadFirstLine TrimSpace first_line_fuel
      (LimitReader (LimitReader (conn_in w) MAX_INPUT_SIZE) MAX_FIRST_LINE_SIZE)
    = Some (("", Some (closing (conn_in w))), rd)).
  { unfold slowReadFirstLine. destruct (conn_in w) as [input closing].
    simpl in Hnl, Hlen, Heof.
    destruct (loop_input_ends TrimSpace input closing MAX_FIRST_LINE_SIZE
                MAX_INPUT_SIZE "" " "%char first_line_fuel Hnl eq_refl)
      as [rd Hrd].
    - unfold MAX_FIRST_LINE_SIZE, MAX_INPUT_SIZE in *. lia.
    - unfold first_line_fuel. unfold MAX_FIRST_LINE_SIZE in *. lia.
    - exists rd. rewrite Hrd, Heof. reflexivity. }
  destruct Hread as [rd Hread].
  destruct (doHandleConnection_admitted TrimSpace c w Hadm) as [Htrace Hres].
  rewrite Htrace, Hres, (serve_first_line_error TrimSpace c w "" _ rd Hread).
  split; reflexivity.
Qed.

Lemma prepare_pipes_failed (w : World) (line : string)
      (rd : LimitedReader (LimitedReader ConnIn)) (e : error) :
  first_line w = Some ((line, None), rd) ->
  (isRegularFile w (executablePath_of (binariesDirectory c)
                                      (ReplaceAll line "_" "-"))).2 = true ->
  create_err w = None ->
  (newCommandProxy w).2 = Some e ->
  prepare w =
    (ConnWrite "Enter task name: "
       :: (isRegularFile w (executablePath_of (binariesDirectory c)
                                              (ReplaceAll line "_" "-"))).1
       ++ [CreateFile (Join [submitsDirectory c;
                             ReplaceAll line "_" "-" +:+ "_" +:+ now w])],
     inr (Returns (Some (Errorf_w "failed to prepare command: " e)))).
Proof.
  intros Hline Hreg Hcreate Hproxy. unfold Crashme.first_line in Hline.
  apply injective_projections;
    unfold Crashme.prepare; rewrite Hline; proc_simpl; cbn beta iota;
    rewrite Hreg; cbn [negb]; proc_simpl; rewrite Hcreate; proc_simpl;
    rewrite ?newCommandProxy_events, ?app_nil_r, Hproxy; reflexivity.
Qed.

(** X16: a pipe that cannot be made ends the request after the
    submission file exists.  When [newCommandProxy] fails, the handler
    returns [failed to prepare command: ] followed by its error, which
    names the pipe; the submission file has been created by then and
    nothing is done about it, and no command is started. *)
Theorem pipe_failure_reported (w : World) (line : string)
        (rd : LimitedReader (LimitedReader ConnIn)) (e : error) :
  admitted w = true ->
  first_line w = Some ((line, None), rd) ->
  (isRegularFile w (executablePath_of (binariesDirectory c)
                                      (ReplaceAll line "_" "-"))).2 = true ->
  create_err w = None ->
  (newCommandProxy w).2 = Some e ->
  (doHandleConnection w).2 =
    Returns (Some (Errorf_w "failed to prepare command: " e)) /\
  (exists pipe e',
      pipe ∈ ["stdout"; "stderr"; "stdin"] /\
      e = Errorf_w ("failed to create command " +:+ pipe +:+ ": ") e') /\
  exists before,
    (doHandleConnection w).1 =
      before ++ [CreateFile (Join [submitsDirectory c;
                                   ReplaceAll line "_" "-" +:+ "_" +:+ now w]);
                 SemaRelease] /\
    Forall (fun ev => is_start ev = false /\ is_create ev = false) before.
Proof.
  intros Hadm Hline Hreg Hcreate Hproxy.
  destruct (doHandleConnection_admitted TrimSpace c w Hadm) as [Htrace Hres].
  rewrite Htrace, Hres, serve_trace, serve_result.
  rewrite (prepare_pipes_failed w line rd e Hline Hreg Hcreate Hproxy).
  cbn [fst snd]. split; [reflexivity|]. split.
  { unfold newCommandProxy in Hproxy.
    destruct (stdoutPipe_err w) as [e1|];
      [|destruct (stderrPipe_err w) as [e2|];
        [|destruct (stdinPipe_err w) as [e3|]]];
      simpl in Hproxy; try discriminate; injection Hproxy as <-.
    - exists "stdout", e1. split; [find_event|reflexivity].
    - exists "stderr", e2. split; [find_event|reflexivity].
    - exists "stdin", e3. split; [find_event|reflexivity]. }
  exists (admission w ++ ConnWrite "Enter task name: "
            :: (isRegularFile w (executablePath_of (binariesDirectory c)
                                                   (ReplaceAll line "_" "-"))).1).
  split.
  - rewrite app_nil_r, <- !app_assoc. cbn [app]. rewrite <- !app_assoc.
    reflexivity.
  - apply Forall_app. split.
    + eapply Forall_impl; [apply admission_quiet|]. intros ev (_ & H1 & H2 & _).
      split; assumption.
    + constructor; [split; reflexivity|].
      eapply Forall_impl; [apply isRegularFile_quiet|].
      intros ev (_ & H1 & H2 & _). split; assumption.
Qed.

(** X17: dashes and underscores in the task line are one spelling.
    The handler turns every underscore of the line into a dash for the
    name it reports and asks the flag for, and every dash into an
    underscore for the file it runs: the reported name has no
    underscore, the file name after [ctf_] has no dash, and the
    executable is the one the line names with all its dashes and
    underscores written as underscores. *)
Theorem task_spelling_normalised (binDir line : string) :
  Contains (ReplaceAll line "_" "-") "_" = false /\
  Contains (ReplaceAll (ReplaceAll line "_" "-") "-" "_") "-" = false /\
  executablePath_of binDir (ReplaceAll line "_" "-") =
    Join [binDir; "ctf_" +:+ ReplaceAll line "-" "_"].
Proof.
  split; [apply (ReplaceAll_char_gone line "_" "-"); reflexivity|].
  split; [apply (ReplaceAll_char_gone _ "-" "_"); reflexivity|].
  unfold executablePath_of.
  rewrite (ReplaceAll_char_back line "_" "-"). reflexivity.
Qed.

Lemma isRegularFile_no_create (w : World) (p path : string) :
  CreateFile path ∉ (isRegularFile w p).1.
Proof.
  intros Hin. pose proof (isRegularFile_quiet w p) as Hq.
  rewrite Forall_forall in Hq. destruct (Hq _ Hin) as (_ & _ & Hc & _).
  discriminate.
Qed.

Lemma prepare_creates (w : World) (path : string) :
  CreateFile path ∈ (prepare w).1 ->
  exists line rd,
    first_line w = Some ((line, None), rd) /\
    path = Join [submitsDirectory c; ReplaceAll line "_" "-" +:+ "_" +:+ now w].
Proof.
  unfold Crashme.prepare, Crashme.first_line.
  destruct (slowReadFirstLine TrimSpace first_line_fuel _)
    as [[[line [e|]] rd]|]; proc_run;
    rewrite ?newCommandProxy_events, ?app_nil_r; intros Hin;
    repeat first
      [ apply elem_of_cons in Hin as [Hin|Hin]; [try discriminate|]
      | apply elem_of_app in Hin as [Hin|Hin]
      | apply elem_of_nil in Hin; contradiction ];
    try (exfalso; eapply isRegularFile_no_create; exact Hin);
    try (injection Hin as ->; eexists _, _; split; reflexivity).
Qed.

(** X18: the submission file lies in the submits directory when the
    task line has no slash.  Every file the handler creates is named by
    the submits directory, the task with its underscores turned into
    dashes, an underscore and the time stamp; for a line and a stamp
    without a slash that is one element below the cleaned submits
    directory. *)
Theorem submission_inside_submits (w : World) (path : string) :
  CreateFile path ∈ (doHandleConnection w).1 ->
  exists line rd,
    first_line w = Some ((line, None), rd) /\
    path = Join [submitsDirectory c; ReplaceAll line "_" "-" +:+ "_" +:+ now w] /\
    (Contains line "/" = false -> Contains (now w) "/" = false ->
     path = dir_prefix (submitsDirectory c)
              +:+ ReplaceAll line "_" "-" +:+ "_" +:+ now w /\
     inside (submitsDirectory c) path = true).
Proof.
  intros Hin.
  assert (Hprep : CreateFile path ∈ (prepare w).1).
  { rewrite doHandleConnection_unfold in Hin.
    assert (Hserve : CreateFile path ∈ (serve w).1 ->
                     CreateFile path ∈ (prepare w).1).
    { rewrite serve_trace. intros Hs.
      apply elem_of_app in Hs as [Hs|Hs]; [exact Hs|]. exfalso.
      destruct (Crashme.prepare TrimSpace c w).2 as [started|o];
        [|inversion Hs].
      apply elem_of_app in Hs as [Hs|Hs].
      - pose proof (run_kind w started.2) as Hk. rewrite Forall_forall in Hk.
        specialize (Hk _ Hs). discriminate.
      - pose proof (classify_kind w started.1 started.2 (run w started.2).2) as Hk.
        rewrite Forall_forall in Hk. specialize (Hk _ Hs). discriminate. }
    destruct (sema_try w); [|destruct (sema_acquire w)]; cbn [fst] in Hin;
      repeat first
        [ apply elem_of_cons in Hin as [Hin|Hin]; [discriminate|]
        | apply elem_of_app in Hin as [Hin|Hin]
        | apply elem_of_nil in Hin; contradiction ];
      try (apply Hserve; exact Hin). }
  destruct (prepare_creates w path Hprep) as (line & rd & Hline & ->).
  exists line, rd. split; [exact Hline|]. split; [reflexivity|].
  intros Hl Hnow.
  apply Join_child, submission_name_plain; [|exact Hnow].
  apply (ReplaceAll_char_plain line "_" "-" "/" eq_refl Hl).
Qed.
End HandlerInputs.

Section InputSamples.
Import Go Crashme Samples.

Lemma read_error_reported_witness :
  (doHandleConnection asciiTrimSpace server reset).2 =
    Returns (Some (Errorf_w "failed to read first line: "
                            (errorString "connection reset by peer"))).
Proof.
  apply (read_error_reported asciiTrimSpace server reset).
  - reflexivity.
  - reflexivity.
  - vm_compute. reflexivity.
  - reflexivity.
Defined.

Lemma pipe_failure_reported_witness :
  (doHandleConnection asciiTrimSpace server no_pipe).2 =
    Returns (Some (Errorf_w "failed to prepare command: "
      (Errorf_w "failed to create command stdin: "
                (errorString "too many open files")))).
Proof.
  destruct echo_ok_ready as ((rd & Hline) & Hreg & _).
  exact (proj1 (pipe_failure_reported asciiTrimSpace server no_pipe "echo-ok" rd
                  (Errorf_w "failed to create command stdin: "
                            (errorString "too many open files"))
                  eq_refl Hline Hreg eq_refl eq_refl)).
Defined.

Lemma submission_inside_submits_witness :
  exists line rd,
    first_line asciiTrimSpace echo_ok = Some ((line, None), rd) /\
    "/srv/submits/echo-ok_2021-03-01T10:00:00.000" =
      Join [submitsDirectory server;
            ReplaceAll line "_" "-" +:+ "_" +:+ now echo_ok] /\
    (Contains line "/" = false -> Contains (now echo_ok) "/" = false ->
     "/srv/submits/echo-ok_2021-03-01T10:00:00.000" =
       dir_prefix (submitsDirectory server)
         +:+ ReplaceAll line "_" "-" +:+ "_" +:+ now echo_ok /\
     inside (submitsDirectory server)
            "/srv/submits/echo-ok_2021-03-01T10:00:00.000" = true).
Proof.
  apply (submission_inside_submits asciiTrimSpace server echo_ok
           "/srv/submits/echo-ok_2021-03-01T10:00:00.000").
  vm_compute. find_event.
Defined.
End InputSamples.

(** ** The scorer on whole inputs *)

Section ScorerRuns.
Import Scorer.
Context {PipelineStatus : Type} `{EqDecision PipelineStatus}.
Variable PipelineStatusSuccess : PipelineStatus.
Context {TaskStatus : Type} `{EqDecision TaskStatus}.
Variable TaskStatusAssigned : TaskStatus.
Variable classifyPipelineStatus : PipelineStatus -> TaskStatus.
Variable TaskStatus_gt : TaskStatus -> TaskStatus -> bool.

Local Abbreviation Pipeline := (Pipeline PipelineStatus).
Local Abbreviation pipelineLess :=
  (pipelineLess PipelineStatus TaskStatus classifyPipelineStatus TaskStatus_gt).
Local Abbreviation minPipeline_loop :=
  (minPipeline_loop PipelineStatus TaskStatus classifyPipelineStatus
                    TaskStatus_gt).
Local Abbreviation scoreTask :=
  (scoreTask PipelineStatus PipelineStatusSuccess TaskStatus
             TaskStatusAssigned classifyPipelineStatus TaskStatus_gt).
Local Abbreviation scoreTasks :=
  (scoreTasks PipelineStatus PipelineStatusSuccess TaskStatus
              TaskStatusAssigned classifyPipelineStatus TaskStatus_gt).
Local Abbreviation scoreGroup :=
  (scoreGroup PipelineStatus PipelineStatusSuccess TaskStatus
              TaskStatusAssigned classifyPipelineStatus TaskStatus_gt).
Local Abbreviation scoreGroups :=
  (scoreGroups PipelineStatus PipelineStatusSuccess TaskStatus
               TaskStatusAssigned classifyPipelineStatus TaskStatus_gt).

(** What the scorer reports for a task without pipelines, and for a
    group of such tasks. *)
Local Abbreviation assigned_task :=
  (fun t : Task => {| ScoredTask_Task := Task_Task t;
                      ScoredTask_Status := TaskStatusAssigned;
                      ScoredTask_Score := 0;
                      ScoredTask_MaxScore := Task_Score t |}).

Lemma pipelinesMap_add_other (m : gmap string (list (option Pipeline)))
      (p : Pipeline) (k : string) :
  Pipeline_Task _ p <> k ->
  (pipelinesMap_add _ m p).1 !! k = m !! k.
Proof.
  intros Hne. unfold pipelinesMap_add.
  destruct (m !! Pipeline_Task _ p); simpl; [reflexivity|].
  apply lookup_insert_ne. exact Hne.
Qed.

Lemma pipelinesMap_no_entry (pipelines : list Pipeline) (k : string) :
  (forall p, p ∈ pipelines -> Pipeline_Task _ p <> k) ->
  pipelinesMap _ pipelines !! k = None.
Proof.
  unfold pipelinesMap.
  assert (Hfold : forall m : gmap string (list (option Pipeline)),
             m !! k = None ->
             (forall p, p ∈ pipelines -> Pipeline_Task _ p <> k) ->
             fold_left (fun m p => (pipelinesMap_add _ m p).1) pipelines m !! k
             = None).
  { induction pipelines as [|q pipelines IH]; intros m Hm Hps; [exact Hm|].
    simpl. apply IH.
    - rewrite pipelinesMap_add_other; [exact Hm|]. apply Hps, list_elem_of_here.
    - intros p Hp. apply Hps, list_elem_of_further, Hp. }
  apply Hfold. apply lookup_empty.
Qed.

Lemma scoreTasks_assigned (m : gmap string (list (option Pipeline)))
      (group : TaskGroup) (tasks : list Task) :
  (forall t, t ∈ tasks -> m !! Task_Task t = None) ->
  scoreTasks m group tasks = Done (map assigned_task tasks).
Proof.
  induction tasks as [|t tasks IH]; intros Hm; [reflexivity|].
  simpl. unfold Scorer.scoreTask. rewrite (Hm t (list_elem_of_here _ _)).
  simpl. rewrite IH; [reflexivity|].
  intros t' Ht'. apply Hm, list_elem_of_further, Ht'.
Qed.

Lemma maxTotalScore_assigned (tasks : list Task) (acc : Z) :
  fold_left (fun acc t => wrap_int (acc + ScoredTask_MaxScore TaskStatus t))
            (map assigned_task tasks) acc
  = fold_left (fun acc t => wrap_int (acc + Task_Score t)) tasks acc.
Proof.
  revert acc. induction tasks as [|t tasks IH]; intros acc; [reflexivity|].
  simpl. apply IH.
Qed.

Lemma assigned_tasks (tasks : list Task) :
  Forall2 (fun t st =>
             ScoredTask_Task TaskStatus st = Task_Task t /\
             ScoredTask_Status TaskStatus st = TaskStatusAssigned /\
             ScoredTask_Score TaskStatus st = 0%Z /\
             ScoredTask_MaxScore TaskStatus st = Task_Score t)
          tasks (map assigned_task tasks).
Proof. induction tasks; constructor; auto. Qed.

(** X19: a user without pipelines for the scheduled tasks gets the
    blank sheet.  When the group has deadlines, the database answers
    and none of the user's pipelines belongs to a task of the schedule,
    [CalcScores] returns, without an error, one entry per group in the
    order of the schedule, with the title and the deadline of the
    group, the score 0 and as maximum the sum of the scores of its
    tasks; every task is listed in order as assigned, with score 0 and
    its own maximum. *)
Theorem CalcScores_without_pipelines
        (GroupDeadlines : string -> option (list TaskGroup))
        (ListUserPipelines : string -> list Pipeline * option Go.error)
        (user : User) (currentDeadlines : list TaskGroup)
        (pipelines : list Pipeline) :
  GroupDeadlines (GroupName user) = Some currentDeadlines ->
  ListUserPipelines (LastName user) = (pipelines, None) ->
  (forall group task p,
      group ∈ currentDeadlines -> task ∈ Tasks group -> p ∈ pipelines ->
      Pipeline_Task _ p <> Task_Task task) ->
  exists scores,
    CalcScores PipelineStatus PipelineStatusSuccess TaskStatus
               TaskStatusAssigned classifyPipelineStatus TaskStatus_gt
               GroupDeadlines ListUserPipelines user
    = Done (Some scores, None) /\
    Forall2 (fun group sg =>
               Title TaskStatus sg = Group group /\
               ScoredTaskGroup_Deadline TaskStatus sg = Deadline group /\
               ScoredTaskGroup_Score TaskStatus sg = 0%Z /\
               ScoredTaskGroup_MaxScore TaskStatus sg =
                 fold_left (fun acc t => wrap_int (acc + Task_Score t))
                           (Tasks group) 0%Z /\
               Forall2 (fun t st =>
                          ScoredTask_Task TaskStatus st = Task_Task t /\
                          ScoredTask_Status TaskStatus st = TaskStatusAssigned /\
                          ScoredTask_Score TaskStatus st = 0%Z /\
                          ScoredTask_MaxScore TaskStatus st = Task_Score t)
                       (Tasks group) (ScoredTaskGroup_Tasks TaskStatus sg))
            currentDeadlines (Groups TaskStatus scores).
Proof.
  intros Hd Hl Hnone. unfold CalcScores. rewrite Hd, Hl.
  set (m := pipelinesMap PipelineStatus pipelines).
  assert (Hgroups : forall groups,
             (forall g, g ∈ groups -> g ∈ currentDeadlines) ->
             exists sgs,
               scoreGroups m groups = Done sgs /\
               Forall2 (fun group sg =>
                 Title TaskStatus sg = Group group /\
                 ScoredTaskGroup_Deadline TaskStatus sg = Deadline group /\
                 ScoredTaskGroup_Score TaskStatus sg = 0%Z /\
                 ScoredTaskGroup_MaxScore TaskStatus sg =
                   fold_left (fun acc t => wrap_int (acc + Task_Score t))
                             (Tasks group) 0%Z /\
                 Forall2 (fun t st =>
                            ScoredTask_Task TaskStatus st = Task_Task t /\
                            ScoredTask_Status TaskStatus st = TaskStatusAssigned /\
                            ScoredTask_Score TaskStatus st = 0%Z /\
                            ScoredTask_MaxScore TaskStatus st = Task_Score t)
                         (Tasks group) (ScoredTaskGroup_Tasks TaskStatus sg))
                 groups sgs).
  { induction groups as [|g groups IH]; intros Hsub.
    - exists []. split; [reflexivity|constructor].
    - destruct IH as (sgs & Hsgs & Hall).
      { intros g' Hg'. apply Hsub, list_elem_of_further, Hg'. }
      simpl. unfold Scorer.scoreGroup.
      rewrite (scoreTasks_assigned m g (Tasks g)).
      + simpl. rewrite Hsgs. simpl. eexists. split; [reflexivity|].
        constructor; [|exact Hall]. simpl.
        split; [reflexivity|]. split; [reflexivity|]. split; [reflexivity|].
        split; [apply maxTotalScore_assigned|apply assigned_tasks].
      + intros t Ht. apply pipelinesMap_no_entry. intros p Hp.
        apply (Hnone g t p); [apply Hsub, list_elem_of_here|exact Ht|exact Hp]. }
  destruct (Hgroups currentDeadlines (fun g Hg => Hg)) as (sgs & Hsgs & Hall).
  rewrite Hsgs. simpl. eexists. split; [reflexivity|exact Hall].
Qed.

(** *** The best pipeline of a task *)

Lemma pipelineLess_some (p q : Pipeline) :
  pipelineLess (Some p) (Some q) =
    Done (if decide (classifyPipelineStatus (Status _ p)
                     = classifyPipelineStatus (Status _ q))
          then Before (CreatedAt _ p) (CreatedAt _ q)
          else TaskStatus_gt (classifyPipelineStatus (Status _ p))
                             (classifyPipelineStatus (Status _ q))).
Proof.
  unfold Scorer.pipelineLess. simpl.
  destruct (decide _); reflexivity.
Qed.

Section StrictOrder.
Hypothesis gt_irreflexive : forall a, TaskStatus_gt a a = false.
Hypothesis gt_transitive :
  forall a b c, TaskStatus_gt a b = true -> TaskStatus_gt b c = true ->
                TaskStatus_gt a c = true.

Lemma pipelineLess_irreflexive (p : Pipeline) :
  pipelineLess (Some p) (Some p) = Done false.
Proof.
  rewrite pipelineLess_some. destruct (decide _) as [_|Hne]; [|contradiction].
  unfold Before. rewrite Z.ltb_irrefl. reflexivity.
Qed.

Lemma pipelineLess_transitive (p q r : Pipeline) :
  pipelineLess (Some p) (Some q) = Done true ->
  pipelineLess (Some q) (Some r) = Done true ->
  pipelineLess (Some p) (Some r) = Done true.
Proof.
  rewrite !pipelineLess_some. unfold Before.
  set (P := classifyPipelineStatus (Status _ p)).
  set (Q := classifyPipelineStatus (Status _ q)).
  set (R := classifyPipelineStatus (Status _ r)).
  intros Hpq Hqr. f_equal.
  assert (Hpq' : (if decide (P = Q) then (CreatedAt _ p <? CreatedAt _ q)%Z
                  else TaskStatus_gt P Q) = true) by congruence.
  assert (Hqr' : (if decide (Q = R) then (CreatedAt _ q <? CreatedAt _ r)%Z
                  else TaskStatus_gt Q R) = true) by congruence.
  clear Hpq Hqr.
  destruct (decide (P = Q)) as [HPQ|HPQ], (decide (Q = R)) as [HQR|HQR].
  - destruct (decide (P = R)) as [_|Hne]; [|congruence].
    apply Z.ltb_lt in Hpq', Hqr'. apply Z.ltb_lt. lia.
  - destruct (decide (P = R)) as [HPR|_]; [congruence|].
    rewrite HPQ. exact Hqr'.
  - destruct (decide (P = R)) as [HPR|_]; [congruence|].
    rewrite <- HQR. exact Hpq'.
  - destruct (decide (P = R)) as [HPR|_].
    + exfalso. rewrite <- HPR in Hqr'.
      pose proof (gt_transitive _ _ _ Hpq' Hqr') as Hpp.
      rewrite gt_irreflexive in Hpp. discriminate.
    + eapply gt_transitive; eassumption.
Qed.

Lemma minPipeline_loop_best (pipelines : list Pipeline) :
  forall (seen : list Pipeline) (cur : Pipeline),
    cur ∈ seen ->
    (forall p, p ∈ seen -> pipelineLess (Some p) (Some cur) = Done false) ->
    exists best,
      minPipeline_loop (Some cur) (map Some pipelines) = Done (Some best) /\
      best ∈ seen ++ pipelines /\
      forall p, p ∈ seen ++ pipelines ->
                pipelineLess (Some p) (Some best) = Done false.
Proof.
  induction pipelines as [|q pipelines IH]; intros seen cur Hcur Hseen.
  - exists cur. rewrite app_nil_r. split; [reflexivity|]. split; assumption.
  - cbn [map Scorer.minPipeline_loop].
    destruct (pipelineLess (Some q) (Some cur)) as [[|]|msg] eqn:Hless.
    + destruct (IH (seen ++ [q]) q) as (best & Hbest & Hin & Hmin).
      * apply elem_of_app. right. apply list_elem_of_here.
      * intros p Hp. apply elem_of_app in Hp as [Hp|Hp].
        -- destruct (pipelineLess (Some p) (Some q)) as [[|]|msg] eqn:Hpq.
           ++ pose proof (Hseen p Hp) as Hpc.
              rewrite (pipelineLess_transitive p q cur Hpq Hless) in Hpc.
              discriminate.
           ++ reflexivity.
           ++ rewrite pipelineLess_some in Hpq. discriminate.
        -- apply list_elem_of_singleton in Hp as ->.
           apply pipelineLess_irreflexive.
      * exists best. rewrite <- app_assoc in Hin, Hmin.
        split; [exact Hbest|]. split; assumption.
    + destruct (IH (seen ++ [q]) cur) as (best & Hbest & Hin & Hmin).
      * apply elem_of_app. left. exact Hcur.
      * intros p Hp. apply elem_of_app in Hp as [Hp|Hp]; [apply Hseen, Hp|].
        apply list_elem_of_singleton in Hp as ->. exact Hless.
      * exists best. rewrite <- app_assoc in Hin, Hmin.
        split; [exact Hbest|]. split; assumption.
    + rewrite pipelineLess_some in Hless. discriminate.
Qed.
End StrictOrder.

(** X20: the search of lines 74-79 picks a best pipeline.  On a
    slice of pipelines without nil pointers, when [>] on the task
    statuses is a strict order, the search that starts from the first
    pipeline ends with a pipeline of the slice that none of the slice
    is less than: one of the highest status, and among those one
    created earliest. *)
Theorem minPipeline_is_best (first : Pipeline) (rest : list Pipeline) :
  (forall a, TaskStatus_gt a a = false) ->
  (forall a b c, TaskStatus_gt a b = true -> TaskStatus_gt b c = true ->
                 TaskStatus_gt a c = true) ->
  exists best,
    minPipeline_loop (Some first) (map Some (first :: rest)) = Done (Some best) /\
    best ∈ first :: rest /\
    forall p, p ∈ first :: rest ->
      pipelineLess (Some p) (Some best) = Done false /\
      (classifyPipelineStatus (Status _ p)
       = classifyPipelineStatus (Status _ best) ->
       (CreatedAt _ best <= CreatedAt _ p)%Z).
Proof.
  intros Hirr Htrans.
  destruct (minPipeline_loop_best Hirr Htrans (first :: rest) [first] first)
    as (best & Hbest & Hin & Hmin).
  - apply list_elem_of_here.
  - intros p Hp. apply list_elem_of_singleton in Hp as ->.
    apply pipelineLess_irreflexive.
  - exists best. split; [exact Hbest|].
    assert (Hsub : forall p, p ∈ first :: rest -> p ∈ [first] ++ first :: rest).
    { intros p Hp. apply elem_of_app. right. exact Hp. }
    split.
    + apply elem_of_app in Hin as [Hin|Hin]; [|exact Hin].
      apply list_elem_of_singleton in Hin as ->. apply list_elem_of_here.
    + intros p Hp. pose proof (Hmin p (Hsub p Hp)) as Hp'.
      split; [exact Hp'|]. intros Hclass.
      rewrite pipelineLess_some in Hp'.
      destruct (decide _) as [_|Hne]; [|contradiction].
      unfold Before in Hp'. injection Hp' as Hp'. apply Z.ltb_ge in Hp'. exact Hp'.
Qed.
End ScorerRuns.

Section ScorerSamples.
Import Scorer Samples.

Lemma CalcScores_without_pipelines_witness :
  exists scores,
    CalcScores string "success" string "assigned"
      (fun status => status) (fun a b => false)
      (fun _ => Some intro_deadlines) (fun _ => (retired_pipelines, None))
      ivanov
    = Done (Some scores, None) /\
    map (ScoredTaskGroup_MaxScore string) (Groups string scores) = [300%Z].
Proof.
  destruct (CalcScores_without_pipelines "success" "assigned"
              (fun status : string => status) (fun a b : string => false)
              (fun _ => Some intro_deadlines)
              (fun _ => (retired_pipelines, None))
              ivanov intro_deadlines retired_pipelines)
    as (scores & Hscores & Hall).
  - reflexivity.
  - reflexivity.
  - intros group task p Hg Ht Hp.
    apply list_elem_of_singleton in Hg as ->.
    apply list_elem_of_singleton in Hp as ->.
    simpl in Ht. apply elem_of_cons in Ht as [->|Ht];
      [|apply list_elem_of_singleton in Ht as ->]; discriminate.
  - exists scores. split; [exact Hscores|].
    inversion Hall as [|g sg gs sgs (_ & _ & _ & Hmax & _) Hrest Hg Hsg]; subst.
    inversion Hrest; subst. simpl. rewrite Hmax. reflexivity.
Defined.

Lemma minPipeline_is_best_witness :
  exists best,
    minPipeline_loop Z Z (fun status => status) Z.gtb
      (Some (attempt 1 30))
      (map Some [attempt 1 30; attempt 2 20; attempt 2 10])
    = Done (Some best) /\
    CreatedAt Z best = 10%Z.
Proof.
  destruct (minPipeline_is_best (fun status : Z => status) Z.gtb
              (attempt 1 30) [attempt 2 20; attempt 2 10])
    as (best & Hbest & _ & _).
  - intros a. rewrite Z.gtb_ltb. apply Z.ltb_irrefl.
  - intros a b c. rewrite !Z.gtb_ltb, !Z.ltb_lt. lia.
  - exists best. split; [exact Hbest|].
    vm_compute in Hbest. injection Hbest as <-. reflexivity.
Defined.
End ScorerSamples.
